(** * The GitHub authenticator of Nebraska: session index and login flows

    A shallow embedding of [cmd/nebraska/auth/githubauth.go].

    - Go maps are stdpp [gmap]s, the [stringSet] is a [gset]; a nested map
      that the code mutates in place through a reference is written back
      under its key.
    - Go does not fix the order in which [range] walks a map: the order is a
      parameter ([RangeOrder]), every theorem holds for each choice of it.
    - The [strings], [oauth2], [github], [hmac], [json] and session packages
      are outside this file: they are the fields of [Externals].
    - The session holds only what this file stores in it, strings under the
      keys "state", "desiredurl", "accesslevel", "teamID" and "username".
    - The mutex [userInfoLock] serialises the index operations; each of them
      is one atomic state transformer here. *)

From stdpp Require Import base strings gmap list sets.
From Stdlib Require Import ZArith Ascii.

Local Open Scope string_scope.
Local Open Scope Z_scope.
Local Open Scope list_scope.

(** ** Data model *)

Record githubTeamData := {
  td_org : string;
  td_team : option string
}.

#[global] Instance githubTeamData_eq_dec : EqDecision githubTeamData.
Proof. solve_decision. Defined.

Abbreviation stringSet := (gset string).
Abbreviation teamToUsersMap := (gmap string (gset string)).
Abbreviation sessionIDToTeamDataMap := (gmap string githubTeamData).
Abbreviation userSessionMap := (gmap string (gmap string githubTeamData)).

(** The authenticator. [sessionsStore] is the external store seen from this
    file: the session ids handed to [MarkOrDestroySessionByID], oldest
    first. *)
Record githubAuth := {
  enterpriseURL : string;
  webhookSecret : string;
  sessionsStore : list string;
  userSessionIDs : userSessionMap;
  teamToUsers : teamToUsersMap;
  readWriteTeams : list string;
  readOnlyTeams : list string;
  defaultTeamID : string
}.

Definition set_userSessionIDs (gha : githubAuth) (m : userSessionMap) : githubAuth :=
  {| enterpriseURL := enterpriseURL gha; webhookSecret := webhookSecret gha;
     sessionsStore := sessionsStore gha;
     userSessionIDs := m; teamToUsers := teamToUsers gha;
     readWriteTeams := readWriteTeams gha; readOnlyTeams := readOnlyTeams gha;
     defaultTeamID := defaultTeamID gha |}.

Definition set_teamToUsers (gha : githubAuth) (m : teamToUsersMap) : githubAuth :=
  {| enterpriseURL := enterpriseURL gha; webhookSecret := webhookSecret gha;
     sessionsStore := sessionsStore gha;
     userSessionIDs := userSessionIDs gha; teamToUsers := m;
     readWriteTeams := readWriteTeams gha; readOnlyTeams := readOnlyTeams gha;
     defaultTeamID := defaultTeamID gha |}.

Definition MarkOrDestroySessionByID (gha : githubAuth) (sessionID : string) : githubAuth :=
  {| enterpriseURL := enterpriseURL gha; webhookSecret := webhookSecret gha;
     sessionsStore := sessionsStore gha ++ [sessionID];
     userSessionIDs := userSessionIDs gha; teamToUsers := teamToUsers gha;
     readWriteTeams := readWriteTeams gha; readOnlyTeams := readOnlyTeams gha;
     defaultTeamID := defaultTeamID gha |}.

(** [NewGithubAuthenticator]: both maps start empty. *)
Definition NewGithubAuthenticator (url secret : string) (rw ro : list string)
    (dflt : string) : githubAuth :=
  {| enterpriseURL := url; webhookSecret := secret; sessionsStore := [];
     userSessionIDs := ∅; teamToUsers := ∅;
     readWriteTeams := rw; readOnlyTeams := ro; defaultTeamID := dflt |}.

(** [fmt.Sprintf("%s/%s", org, team)] *)
Definition makeTeamName (org team : string) : string :=
  (org +:+ "/" +:+ team)%string.

(** ** Iteration order of [range] over a map *)

Class RangeOrder := {
  rangeSessions : sessionIDToTeamDataMap → list (string * githubTeamData);
  rangeUsers : stringSet → list string;
  rangeSessions_perm : ∀ m, rangeSessions m ≡ₚ map_to_list m;
  rangeUsers_perm : ∀ s, rangeUsers s ≡ₚ elements s
}.

(** One admissible order, the one [gmap] enumerates its keys in. *)
Definition canonicalOrder : RangeOrder :=
  {| rangeSessions := map_to_list;
     rangeUsers := elements;
     rangeSessions_perm := λ m, reflexivity (map_to_list m);
     rangeUsers_perm := λ s, reflexivity (elements s) |}.

(** The same order walked backwards, another admissible one. *)
Definition reversedOrder : RangeOrder :=
  {| rangeSessions := λ m, reverse (map_to_list m);
     rangeUsers := λ s, reverse (elements s);
     rangeSessions_perm := λ m, reverse_Permutation (map_to_list m);
     rangeUsers_perm := λ s, reverse_Permutation (elements s) |}.

(** ** The session index *)

(** The block
    [if usersSet, ok := gha.teamToUsers[teamName]; ok { delete(usersSet, username);
     if len(usersSet) == 0 { delete(gha.teamToUsers, teamName) } }]
    of [cleanupSession], [stealUserSessionIDs] and
    [stealUserSessionIDsForOrgAndTeam]. *)
Definition dropUserFromTeam (teamName username : string)
    (ttu : teamToUsersMap) : teamToUsersMap :=
  match ttu !! teamName with
  | Some usersSet =>
      let usersSet := usersSet ∖ {[username]} in
      if decide (size usersSet = 0%nat) then delete teamName ttu
      else <[teamName := usersSet]> ttu
  | None => ttu
  end.

(** The block
    [for _, sessionID := range toDrop { delete(sessionIDsAndTeams, sessionID) };
     if len(sessionIDsAndTeams) == 0 { delete(gha.userSessionIDs, username) }]
    of the three selective queries. *)
Definition dropSessions (username : string)
    (sessionIDsAndTeams : sessionIDToTeamDataMap) (toDrop : list string)
    (usm : userSessionMap) : userSessionMap :=
  let sessionIDsAndTeams := foldl (λ m sessionID, delete sessionID m) sessionIDsAndTeams toDrop in
  if decide (size sessionIDsAndTeams = 0%nat) then delete username usm
  else <[username := sessionIDsAndTeams]> usm.

Definition addSessionID (gha : githubAuth) (username sessionID : string)
    (teamData : githubTeamData) : githubAuth :=
  let sessionIDs := default ∅ (userSessionIDs gha !! username) in
  let gha := set_userSessionIDs gha
               (<[username := <[sessionID := teamData]> sessionIDs]> (userSessionIDs gha)) in
  match td_team teamData with
  | Some team =>
      let teamName := makeTeamName (td_org teamData) team in
      let users := default ∅ (teamToUsers gha !! teamName) in
      set_teamToUsers gha (<[teamName := {[username]} ∪ users]> (teamToUsers gha))
  | None => gha
  end.

(** The part of [cleanupSession] that runs under the lock. *)
Definition cleanupSessionLocked (gha : githubAuth) (username sessionID : string) : githubAuth :=
  match userSessionIDs gha !! username with
  | None => gha
  | Some sessionIDs =>
      match sessionIDs !! sessionID with
      | Some teamData =>
          let gha :=
            match td_team teamData with
            | Some team =>
                set_teamToUsers gha
                  (dropUserFromTeam (makeTeamName (td_org teamData) team) username (teamToUsers gha))
            | None => gha
            end in
          let sessionIDs := delete sessionID sessionIDs in
          if decide (size sessionIDs = 0%nat)
          then set_userSessionIDs gha (delete username (userSessionIDs gha))
          else set_userSessionIDs gha (<[username := sessionIDs]> (userSessionIDs gha))
      | None => gha
      end
  end.

Section queries.
Context {order : RangeOrder}.

Definition stealUserSessionIDs (gha : githubAuth) (username : string)
      : list string * githubAuth :=
    match userSessionIDs gha !! username with
    | Some sessionIDsAndTeams =>
        let '(userSessionIDs', ttu) :=
          foldl (λ '(ids, ttu) '(sessionID, teamData),
                   (ids ++ [sessionID],
                    match td_team teamData with
                    | Some team =>
                        dropUserFromTeam (makeTeamName (td_org teamData) team) username ttu
                    | None => ttu
                    end))
                ([], teamToUsers gha) (rangeSessions sessionIDsAndTeams) in
        (userSessionIDs',
         set_userSessionIDs (set_teamToUsers gha ttu) (delete username (userSessionIDs gha)))
    | None => ([], gha)
    end.

Definition stealUserSessionIDsForOrg (gha : githubAuth) (username org : string)
      : list string * githubAuth :=
    match userSessionIDs gha !! username with
    | Some sessionIDsAndTeams =>
        let '(userSessionIDs', toDrop) :=
          foldl (λ '(ids, toDrop) '(sessionID, teamData),
                   if bool_decide (td_org teamData = org ∧ td_team teamData = None)
                   then (ids ++ [sessionID], toDrop ++ [sessionID])
                   else (ids, toDrop))
                ([], []) (rangeSessions sessionIDsAndTeams) in
        (userSessionIDs',
         set_userSessionIDs gha
           (dropSessions username sessionIDsAndTeams toDrop (userSessionIDs gha)))
    | None => ([], gha)
    end.

Definition stealUserSessionIDsForOrgAndTeam (gha : githubAuth)
      (username org team : string) : list string * githubAuth :=
    match userSessionIDs gha !! username with
    | Some sessionIDsAndTeams =>
        let '(userSessionIDs', toDrop, ttu) :=
          foldl (λ '(ids, toDrop, ttu) '(sessionID, teamData),
                   if bool_decide (td_org teamData = org ∧ td_team teamData = Some team)
                   then (ids ++ [sessionID], toDrop ++ [sessionID],
                         dropUserFromTeam (makeTeamName (td_org teamData) team) username ttu)
                   else (ids, toDrop, ttu))
                ([], [], teamToUsers gha) (rangeSessions sessionIDsAndTeams) in
        (userSessionIDs',
         set_userSessionIDs (set_teamToUsers gha ttu)
           (dropSessions username sessionIDsAndTeams toDrop (userSessionIDs gha)))
    | None => ([], gha)
    end.

Definition stealSessionIDsForOrgAndTeam (gha : githubAuth) (org team : string)
      : list string * githubAuth :=
    let teamName := makeTeamName org team in
    let '(userSessionIDs', usm) :=
      foldl (λ '(ids, usm) username,
               match usm !! username with
               | Some sessionIDsAndTeams =>
                   let '(ids, toDrop) :=
                     foldl (λ '(ids, toDrop) '(sessionID, teamData),
                              if bool_decide (td_org teamData = org ∧ td_team teamData = Some team)
                              then (ids ++ [sessionID], toDrop ++ [sessionID])
                              else (ids, toDrop))
                           (ids, []) (rangeSessions sessionIDsAndTeams) in
                   (ids, dropSessions username sessionIDsAndTeams toDrop usm)
               | None => (ids, usm)
               end)
            ([], userSessionIDs gha)
            (rangeUsers (default ∅ (teamToUsers gha !! teamName))) in
    (userSessionIDs',
     set_teamToUsers (set_userSessionIDs gha usm) (delete teamName (teamToUsers gha))).
End queries.

(** ** Sessions, requests and replies *)

Record Session := {
  sess_ID : string;
  sess_values : gmap string string;
  sess_marked : bool
}.

Definition SessionHas (s : Session) (key : string) : bool :=
  bool_decide (is_Some (sess_values s !! key)).
Definition SessionGet (s : Session) (key : string) : option string :=
  sess_values s !! key.
Definition SessionSet (s : Session) (key value : string) : Session :=
  {| sess_ID := sess_ID s; sess_values := <[key := value]> (sess_values s);
     sess_marked := sess_marked s |}.
Definition SessionMark (s : Session) : Session :=
  {| sess_ID := sess_ID s; sess_values := sess_values s; sess_marked := true |}.

Record Request := {
  Method : string;
  URL : string;
  Header : gmap string string;
  Form : gmap string string;
  Body : option string
}.

(** What the handler sent: [c.AbortWithStatus] and [c.Redirect], oldest first. *)
Inductive reply :=
| AbortWithStatus (status : Z)
| Redirect (status : Z) (location : string).

#[global] Instance reply_eq_dec : EqDecision reply.
Proof. solve_decision. Defined.

Record ginContext := {
  request : Request;
  session : Session;
  replies : list reply
}.

Definition HeaderGet (c : ginContext) (key : string) : string :=
  default "" (Header (request c) !! key).
Definition FormValue (c : ginContext) (key : string) : string :=
  default "" (Form (request c) !! key).
Definition withSession (c : ginContext) (s : Session) : ginContext :=
  {| request := request c; session := s; replies := replies c |}.
Definition send (c : ginContext) (r : reply) : ginContext :=
  {| request := request c; session := session c; replies := replies c ++ [r] |}.

Definition StatusTemporaryRedirect : Z := 307.
Definition StatusBadRequest : Z := 400.
Definition StatusUnauthorized : Z := 401.
Definition StatusForbidden : Z := 403.
Definition StatusInternalServerError : Z := 500.

Definition httpError (c : ginContext) (status : Z) : ginContext :=
  send c (AbortWithStatus status).
Definition redirectTo (c : ginContext) (where_ : string) : ginContext :=
  send c (Redirect StatusTemporaryRedirect where_).

(** ** The provider's API and the webhook payloads *)

Record github_Organization := { Organization_Login : option string }.
Record github_Team := {
  Team_Name : option string;
  Team_Organization : option github_Organization
}.
Record github_User := { User_Login : option string }.
Record ListOptions := { Page : Z; PerPage : Z }.
Record Response := { NextPage : Z }.

(** A call that returns [None] is a call that returned an error. *)
Record githubClient := {
  Users_Get : option github_User;
  Teams_ListUserTeams : ListOptions → option (list github_Team * Response);
  Organizations_List : ListOptions → option (list github_Organization * Response)
}.

Record Token := { AccessToken : string; Valid : bool }.

(** An [*http.Client] of [oauth2] is known by the access token it sends. *)
Abbreviation httpClient := string (only parsing).

Record ghUser := { ghUser_Login : string }.
Record ghAppAuthPayload := { appauth_Action : string; appauth_Sender : ghUser }.
Record ghMembership := { membership_User : ghUser }.
Record ghOrganizationPayload := {
  orgp_Action : string;
  orgp_Membership : ghMembership;
  orgp_Org : ghUser
}.
Record ghTeam := { ghTeam_Name : string }.
Record ghMembershipPayload := {
  memp_Action : string;
  memp_Scope : string;
  memp_Member : ghUser;
  memp_Team : ghTeam;
  memp_Org : ghUser
}.
Record ghChangesName := { From : string }.
Record ghChanges := { changes_Name : ghChangesName }.
Record ghTeamPayload := {
  teamp_Action : string;
  teamp_Changes : ghChanges;
  teamp_Team : ghTeam;
  teamp_Org : ghUser
}.

(** ** What the file calls and does not define *)

Class Externals := {
  (* package strings *)
  strings_Fields : string → list string;
  strings_ToLower : string → string;
  strings_TrimSpace : string → string;
  (* random.String *)
  random_String : nat → string;
  (* oauth2.Config *)
  AuthCodeURL : string → string;
  Exchange : string → option Token;
  (* package github *)
  github_NewClient : httpClient → githubClient;
  github_NewEnterpriseClient : string → string → httpClient → option githubClient;
  (* ginsessions.SaveSession, [false] for an error *)
  SaveSession : Session → bool;
  (* hex.EncodeToString of the HMAC-SHA1 of a message under a key *)
  hmacSHA1Hex : string → string → string;
  (* json.NewDecoder(r).Decode, [None] for an error *)
  decodeAppAuth : string → option ghAppAuthPayload;
  decodeOrganization : string → option ghOrganizationPayload;
  decodeMembership : string → option ghMembershipPayload;
  decodeTeam : string → option ghTeamPayload
}.

(** ** Cleaning up one's own session *)

Definition cleanupSession (gha : githubAuth) (c : ginContext) : githubAuth * ginContext :=
  let marked := withSession c (SessionMark (session c)) in
  match SessionGet (session c) "username" with
  | None => (gha, marked)
  | Some username => (cleanupSessionLocked gha username (sess_ID (session c)), marked)
  end.

(** ** The login dance *)

Inductive danceResult := resultOK | resultUnauthorized | resultInternalFailure.

(** The local variables of [doLoginDance] that the two scans update; the
    session is the one of the request, written through its pointer. *)
Record danceVars := {
  v_teamData : githubTeamData;
  v_teamID : string;
  v_isRO : bool;
  v_isRW : bool;
  v_session : Session
}.

(** How a paginated scan ends: it ran to its end or broke out, a call to the
    provider failed, or the provider kept announcing pages for longer than
    the fuel lasts. The variables are those at that moment. *)
Inductive loopOutcome :=
| LoopDone (v : danceVars)
| LoopErr (v : danceVars)
| LoopFuel.

(** A Go call either returns or panics. *)
Inductive goResult (A : Type) :=
| Returned (a : A)
| Panicked.
Arguments Returned {A} a.
Arguments Panicked {A}.

(** [s[low:]]: a run-time panic (slice bounds out of range) when [low]
    exceeds [len(s)]. *)
Fixpoint sliceFrom (low : nat) (s : string) : goResult string :=
  match low with
  | O => Returned s
  | S low =>
      match s with
      | EmptyString => Panicked
      | String _ s => sliceFrom low s
      end
  end.

Section handlers.
Context {order : RangeOrder} {ext : Externals}.

Definition sessionSave (c : ginContext) : ginContext :=
  if SaveSession (session c) then c else httpError c StatusInternalServerError.

(** [for _, roTeam := range roTeams] of the team scan. *)
Fixpoint teamRoLoop (gha : githubAuth) (fullGithubTeamName login name : string)
    (roTeams : list string) (v : danceVars) : danceVars :=
  match roTeams with
  | [] => v
  | roTeam :: roTeams =>
      if v_isRO v then v
      else if bool_decide (fullGithubTeamName = roTeam) then
        {| v_teamData := {| td_org := login; td_team := Some name |};
           v_teamID := defaultTeamID gha;
           v_isRO := true;
           v_isRW := v_isRW v;
           v_session := SessionSet (v_session v) "accesslevel" "ro" |}
      else teamRoLoop gha fullGithubTeamName login name roTeams v
  end.

(** [for _, rwTeam := range rwTeams] of the team scan; [true] is
    [break checkLoop]. *)
Fixpoint teamRwLoop (gha : githubAuth) (fullGithubTeamName login name : string)
    (rwTeams : list string) (v : danceVars) : danceVars * bool :=
  match rwTeams with
  | [] => (v, false)
  | rwTeam :: rwTeams =>
      if bool_decide (fullGithubTeamName = rwTeam) then
        ({| v_teamData := {| td_org := login; td_team := Some name |};
            v_teamID := defaultTeamID gha;
            v_isRO := v_isRO v;
            v_isRW := true;
            v_session := SessionSet (v_session v) "accesslevel" "rw" |}, true)
      else teamRwLoop gha fullGithubTeamName login name rwTeams v
  end.

(** One turn of [for _, ghTeam := range ghTeams]. *)
Definition scanTeam (gha : githubAuth) (ghTeam : github_Team) (v : danceVars)
    : danceVars * bool :=
  match Team_Name ghTeam with
  | None => (v, false)
  | Some name =>
      match Team_Organization ghTeam with
      | None => (v, false)
      | Some organization =>
          match Organization_Login organization with
          | None => (v, false)
          | Some login =>
              let fullGithubTeamName := makeTeamName login name in
              let v := teamRoLoop gha fullGithubTeamName login name (readOnlyTeams gha) v in
              teamRwLoop gha fullGithubTeamName login name (readWriteTeams gha) v
          end
      end
  end.

Fixpoint scanTeams (gha : githubAuth) (ghTeams : list github_Team) (v : danceVars)
    : danceVars * bool :=
  match ghTeams with
  | [] => (v, false)
  | ghTeam :: ghTeams =>
      let '(v, brk) := scanTeam gha ghTeam v in
      if brk then (v, true) else scanTeams gha ghTeams v
  end.

(** [checkLoop: for { ... }] *)
Fixpoint checkLoop (fuel : nat) (gha : githubAuth) (client : githubClient)
    (listOpts : ListOptions) (v : danceVars) : loopOutcome :=
  match fuel with
  | O => LoopFuel
  | S fuel =>
      match Teams_ListUserTeams client listOpts with
      | None => LoopErr v
      | Some (ghTeams, response) =>
          let '(v, brk) := scanTeams gha ghTeams v in
          if brk then LoopDone v
          else if bool_decide (NextPage response = 0) then LoopDone v
          else checkLoop fuel gha client
                 {| Page := NextPage response; PerPage := PerPage listOpts |} v
      end
  end.

(** [for _, roTeam := range roTeams] of the organization scan. *)
Fixpoint orgRoLoop (gha : githubAuth) (nebraskaOrgName : string)
    (roTeams : list string) (v : danceVars) : danceVars :=
  match roTeams with
  | [] => v
  | roTeam :: roTeams =>
      if v_isRO v then v
      else if bool_decide (nebraskaOrgName = roTeam) then
        {| v_teamData := {| td_org := nebraskaOrgName; td_team := td_team (v_teamData v) |};
           v_teamID := defaultTeamID gha;
           v_isRO := true;
           v_isRW := v_isRW v;
           v_session := SessionSet (v_session v) "accesslevel" "ro" |}
      else orgRoLoop gha nebraskaOrgName roTeams v
  end.

(** [for _, rwTeam := range rwTeams] of the organization scan; [true] is
    [break checkLoop2]. *)
Fixpoint orgRwLoop (gha : githubAuth) (nebraskaOrgName : string)
    (rwTeams : list string) (v : danceVars) : danceVars * bool :=
  match rwTeams with
  | [] => (v, false)
  | rwTeam :: rwTeams =>
      if bool_decide (nebraskaOrgName = rwTeam) then
        ({| v_teamData := {| td_org := nebraskaOrgName; td_team := td_team (v_teamData v) |};
            v_teamID := defaultTeamID gha;
            v_isRO := v_isRO v;
            v_isRW := v_isRW v;
            v_session := SessionSet (v_session v) "accesslevel" "rw" |}, true)
      else orgRwLoop gha nebraskaOrgName rwTeams v
  end.

Definition scanOrg (gha : githubAuth) (ghOrg : github_Organization) (v : danceVars)
    : danceVars * bool :=
  match Organization_Login ghOrg with
  | None => (v, false)
  | Some nebraskaOrgName =>
      let v := orgRoLoop gha nebraskaOrgName (readOnlyTeams gha) v in
      orgRwLoop gha nebraskaOrgName (readWriteTeams gha) v
  end.

Fixpoint scanOrgs (gha : githubAuth) (ghOrgs : list github_Organization) (v : danceVars)
    : danceVars * bool :=
  match ghOrgs with
  | [] => (v, false)
  | ghOrg :: ghOrgs =>
      let '(v, brk) := scanOrg gha ghOrg v in
      if brk then (v, true) else scanOrgs gha ghOrgs v
  end.

(** [checkLoop2: for { ... }] *)
Fixpoint checkLoop2 (fuel : nat) (gha : githubAuth) (client : githubClient)
    (listOpts : ListOptions) (v : danceVars) : loopOutcome :=
  match fuel with
  | O => LoopFuel
  | S fuel =>
      match Organizations_List client listOpts with
      | None => LoopErr v
      | Some (ghOrgs, response) =>
          let '(v, brk) := scanOrgs gha ghOrgs v in
          if brk then LoopDone v
          else if bool_decide (NextPage response = 0) then LoopDone v
          else checkLoop2 fuel gha client
                 {| Page := NextPage response; PerPage := PerPage listOpts |} v
      end
  end.

(** Both scans, from [rwTeams := gha.readWriteTeams] to the closing brace of
    [if !isRW]. *)
Definition matchTeamsAndOrgs (fuel : nat) (gha : githubAuth) (client : githubClient)
    (s : Session) : loopOutcome :=
  let v := {| v_teamData := {| td_org := ""; td_team := None |};
              v_teamID := ""; v_isRO := false; v_isRW := false; v_session := s |} in
  let listOpts := {| Page := 1; PerPage := 50 |} in
  match checkLoop fuel gha client listOpts v with
  | LoopDone v =>
      if negb (v_isRW v)
      then checkLoop2 fuel gha client {| Page := 1; PerPage := PerPage listOpts |} v
      else LoopDone v
  | other => other
  end.

(** [client := github.NewClient(oauthClient)], replaced by the enterprise
    client when an enterprise URL is configured; [None] when creating that
    one fails. *)
Definition newGithubClient (gha : githubAuth) (oauthClient : httpClient)
    : option githubClient :=
  if bool_decide (enterpriseURL gha ≠ "")
  then github_NewEnterpriseClient (enterpriseURL gha +:+ "/api/v3")
         (enterpriseURL gha +:+ "/api/v3/upload") oauthClient
  else Some (github_NewClient oauthClient).

(** The body of [doLoginDance] up to its [return]s: the value of [result]
    there, with the index and the request context. [None]: out of fuel. *)
Definition doLoginDanceBody (fuel : nat) (gha : githubAuth) (c : ginContext)
    (oauthClient : httpClient) : option (danceResult * githubAuth * ginContext) :=
  match newGithubClient gha oauthClient with
  | None => Some (resultInternalFailure, gha, c)
  | Some client =>
      match Users_Get client with
      | None => Some (resultInternalFailure, gha, c)
      | Some ghUser =>
          match User_Login ghUser with
          | None => Some (resultUnauthorized, gha, c)
          | Some username =>
              match matchTeamsAndOrgs fuel gha client (session c) with
              | LoopFuel => None
              | LoopErr v => Some (resultInternalFailure, gha, withSession c (v_session v))
              | LoopDone v =>
                  let c := withSession c (v_session v) in
                  if bool_decide (v_teamID v = "") then Some (resultUnauthorized, gha, c)
                  else
                    let s := SessionSet (session c) "teamID" (v_teamID v) in
                    let s := SessionSet s "username" username in
                    let c := sessionSave (withSession c s) in
                    let gha := addSessionID gha username (sess_ID (session c)) (v_teamData v) in
                    Some (resultOK, gha, c)
              end
          end
      end
  end.

(** [doLoginDance]: the body, then the deferred function. The boolean is
    [replied]. *)
Definition doLoginDance (fuel : nat) (gha : githubAuth) (c : ginContext)
    (oauthClient : httpClient) : option (githubAuth * ginContext * bool) :=
  match doLoginDanceBody fuel gha c oauthClient with
  | None => None
  | Some (resultOK, gha, c) => Some (gha, c, false)
  | Some (resultUnauthorized, gha, c) =>
      let '(gha, c) := cleanupSession gha c in
      Some (gha, httpError c StatusUnauthorized, true)
  | Some (resultInternalFailure, gha, c) =>
      Some (gha, httpError c StatusInternalServerError, true)
  end.

(** ** The request gate and the OAuth callback *)

(** [Authenticate]: the result is [(teamID, replied)]. [None]: out of fuel
    in the login dance. *)
Definition Authenticate (fuel : nat) (gha : githubAuth) (c : ginContext)
    : option (githubAuth * ginContext * (string * bool)) :=
  let session_ := session c in
  if SessionHas session_ "teamID" then
    if bool_decide (SessionGet session_ "accesslevel" ≠ Some "rw")
       && bool_decide (Method (request c) ≠ "HEAD")
       && bool_decide (Method (request c) ≠ "GET")
    then Some (gha, httpError c StatusForbidden, ("", true))
    else Some (gha, c, (default "" (SessionGet session_ "teamID"), false))
  else
    let authHeader := HeaderGet c "Authorization" in
    if bool_decide (authHeader = "") then
      let oauthState := random_String 64 in
      let s := SessionSet session_ "state" oauthState in
      let s := SessionSet s "desiredurl" (URL (request c)) in
      let c := sessionSave (withSession c s) in
      let url := AuthCodeURL oauthState in
      Some (gha, redirectTo c url, ("", true))
    else
      (* the deferred function, when [failed] is still true *)
      let onFailed :=
        let '(gha, c) := cleanupSession gha c in
        Some (gha, httpError c StatusUnauthorized, ("", true)) in
      let splitToken := strings_Fields authHeader in
      if bool_decide (length splitToken ≠ 2%nat) then onFailed
      else if bool_decide
                (strings_ToLower (strings_TrimSpace (default "" (splitToken !! 0%nat))) ≠ "bearer")
      then onFailed
      else
        let bearerToken := strings_TrimSpace (default "" (splitToken !! 1%nat)) in
        match doLoginDance fuel gha c bearerToken with
        | None => None
        | Some (gha, c, replied) =>
            if negb replied
            then Some (gha, c, (default "" (SessionGet (session c) "teamID"), false))
            else Some (gha, c, ("", true))
        end.

(** The body of [loginCb] up to its [return]s, with the value of [result]
    there. *)
Definition loginCbBody (fuel : nat) (gha : githubAuth) (c : ginContext)
    : option (danceResult * githubAuth * ginContext) :=
  match SessionGet (session c) "desiredurl" with
  | None => Some (resultInternalFailure, gha, c)
  | Some desiredURL =>
      let state := FormValue c "state" in
      match SessionGet (session c) "state" with
      | None => Some (resultInternalFailure, gha, c)
      | Some expectedState =>
          if bool_decide (expectedState ≠ state) then Some (resultInternalFailure, gha, c)
          else
            let code := FormValue c "code" in
            match Exchange code with
            | None => Some (resultInternalFailure, gha, c)
            | Some token =>
                if negb (Valid token) then Some (resultInternalFailure, gha, c)
                else
                  match doLoginDance fuel gha c (AccessToken token) with
                  | None => None
                  | Some (gha, c, replied) =>
                      if negb replied then Some (resultOK, gha, redirectTo c desiredURL)
                      else Some (resultOK, gha, c)
                  end
            end
      end
  end.

(** [loginCb]: the body, then the two deferred calls, last registered
    first: [sessionSave], then the switch on [result]. *)
Definition loginCb (fuel : nat) (gha : githubAuth) (c : ginContext)
    : option (githubAuth * ginContext) :=
  match loginCbBody fuel gha c with
  | None => None
  | Some (result, gha, c) =>
      let c := sessionSave c in
      match result with
      | resultOK => Some (gha, c)
      | resultUnauthorized =>
          let '(gha, c) := cleanupSession gha c in
          Some (gha, httpError c StatusUnauthorized)
      | resultInternalFailure =>
          let '(gha, c) := cleanupSession gha c in
          Some (gha, httpError c StatusInternalServerError)
      end
  end.

(** ** Webhooks *)

(** [for _, sessionID := range sessionIDs { gha.sessionsStore.MarkOrDestroySessionByID(sessionID) }] *)
Definition destroySessions (gha : githubAuth) (sessionIDs : list string) : githubAuth :=
  foldl MarkOrDestroySessionByID gha sessionIDs.

Definition loginWebhookAuthorizationEvent (gha : githubAuth) (c : ginContext)
    (payloadReader : string) : githubAuth * ginContext :=
  match decodeAppAuth payloadReader with
  | None => (gha, httpError c StatusBadRequest)
  | Some payload =>
      if bool_decide (appauth_Action payload ≠ "revoked") then (gha, c)
      else
        let username := ghUser_Login (appauth_Sender payload) in
        let '(userSessionIDs', gha) := stealUserSessionIDs gha username in
        (destroySessions gha userSessionIDs', c)
  end.

Definition loginWebhookOrganizationEvent (gha : githubAuth) (c : ginContext)
    (payloadReader : string) : githubAuth * ginContext :=
  match decodeOrganization payloadReader with
  | None => (gha, httpError c StatusBadRequest)
  | Some payload =>
      if bool_decide (orgp_Action payload ≠ "member_removed") then (gha, c)
      else
        let username := ghUser_Login (membership_User (orgp_Membership payload)) in
        let org := ghUser_Login (orgp_Org payload) in
        let '(sessionIDs, gha) := stealUserSessionIDsForOrg gha username org in
        (destroySessions gha sessionIDs, c)
  end.

(** [for _, rwTeam := range gha.readWriteTeams] of the membership event. *)
Fixpoint membershipAddedLoop (gha : githubAuth) (username org team : string)
    (rwTeams : list string) : githubAuth :=
  match rwTeams with
  | [] => gha
  | rwTeam :: rwTeams =>
      let teamName := makeTeamName org team in
      if bool_decide (rwTeam = teamName) then
        let '(sessionIDs, gha) := stealUserSessionIDs gha username in
        destroySessions gha sessionIDs
      else membershipAddedLoop gha username org team rwTeams
  end.

Definition loginWebhookMembershipEvent (gha : githubAuth) (c : ginContext)
    (payloadReader : string) : githubAuth * ginContext :=
  match decodeMembership payloadReader with
  | None => (gha, httpError c StatusBadRequest)
  | Some payload =>
      if bool_decide (memp_Scope payload ≠ "team") then (gha, c)
      else
        let username := ghUser_Login (memp_Member payload) in
        let org := ghUser_Login (memp_Org payload) in
        let team := ghTeam_Name (memp_Team payload) in
        if bool_decide (memp_Action payload = "added") then
          (membershipAddedLoop gha username org team (readWriteTeams gha), c)
        else if bool_decide (memp_Action payload = "removed") then
          let '(sessionIDs, gha) := stealUserSessionIDsForOrgAndTeam gha username org team in
          (destroySessions gha sessionIDs, c)
        else (gha, c)
  end.

Definition loginWebhookTeamEvent (gha : githubAuth) (c : ginContext)
    (payloadReader : string) : githubAuth * ginContext :=
  match decodeTeam payloadReader with
  | None => (gha, httpError c StatusBadRequest)
  | Some payload =>
      let org := ghUser_Login (teamp_Org payload) in
      (* what follows the [switch] once [team] is set *)
      let invalidate (team : string) :=
        let '(sessionIDs, gha) := stealSessionIDsForOrgAndTeam gha org team in
        (destroySessions gha sessionIDs, c) in
      if bool_decide (teamp_Action payload = "deleted") then
        invalidate (ghTeam_Name (teamp_Team payload))
      else if bool_decide (teamp_Action payload = "edited") then
        if bool_decide (From (changes_Name (teamp_Changes payload)) = "") then (gha, c)
        else invalidate (From (changes_Name (teamp_Changes payload)))
      else (gha, c)
  end.

Definition loginWebhook (gha : githubAuth) (c : ginContext)
    : goResult (githubAuth * ginContext) :=
  let signature := HeaderGet c "X-Hub-Signature" in
  if bool_decide (String.length signature = 0%nat) then Returned (gha, c)
  else
    let eventType := HeaderGet c "X-Github-Event" in
    match Body (request c) with
    | None => Returned (gha, c)
    | Some rawPayload =>
        let payloadMAC := hmacSHA1Hex (webhookSecret gha) rawPayload in
        match sliceFrom 5 signature with
        | Panicked => Panicked
        | Returned sig =>
            (* [hmac.Equal]: equality of the two byte strings *)
            if negb (bool_decide (sig = payloadMAC)) then Returned (gha, c)
            else if bool_decide (eventType = "github_app_authorization") then
              Returned (loginWebhookAuthorizationEvent gha c rawPayload)
            else if bool_decide (eventType = "organization") then
              Returned (loginWebhookOrganizationEvent gha c rawPayload)
            else if bool_decide (eventType = "membership") then
              Returned (loginWebhookMembershipEvent gha c rawPayload)
            else if bool_decide (eventType = "team") then
              Returned (loginWebhookTeamEvent gha c rawPayload)
            else Returned (gha, c)
        end
    end.
End handlers.

(** ** Operations on the index, and its invariants *)

Inductive indexOp :=
| OpAddSessionID (username sessionID : string) (teamData : githubTeamData)
| OpCleanupSession (username sessionID : string)
| OpStealUser (username : string)
| OpStealUserOrg (username org : string)
| OpStealUserOrgTeam (username org team : string)
| OpStealOrgTeam (org team : string).

Definition applyOp {order : RangeOrder} (gha : githubAuth) (op : indexOp) : githubAuth :=
  match op with
  | OpAddSessionID username sessionID teamData => addSessionID gha username sessionID teamData
  | OpCleanupSession username sessionID => cleanupSessionLocked gha username sessionID
  | OpStealUser username => (stealUserSessionIDs gha username).2
  | OpStealUserOrg username org => (stealUserSessionIDsForOrg gha username org).2
  | OpStealUserOrgTeam username org team =>
      (stealUserSessionIDsForOrgAndTeam gha username org team).2
  | OpStealOrgTeam org team => (stealSessionIDsForOrgAndTeam gha org team).2
  end.

Definition runOps {order : RangeOrder} (ops : list indexOp) (gha : githubAuth) : githubAuth :=
  foldl applyOp gha ops.

(** The index holds the entry [(username, sessionID) → teamData]. *)
Definition boundTo (gha : githubAuth) (username sessionID : string)
    (teamData : githubTeamData) : Prop :=
  ∃ sessionIDs, userSessionIDs gha !! username = Some sessionIDs
                ∧ sessionIDs !! sessionID = Some teamData.

(** [username] is in the user set kept under [teamName]. *)
Definition teamMember (gha : githubAuth) (teamName username : string) : Prop :=
  ∃ users, teamToUsers gha !! teamName = Some users ∧ username ∈ users.

(** Every team-bound entry has its user in the team's set. *)
Definition sessionsInTeams (gha : githubAuth) : Prop :=
  ∀ username sessionID teamData team,
    boundTo gha username sessionID teamData →
    td_team teamData = Some team →
    teamMember gha (makeTeamName (td_org teamData) team) username.

(** Every user of a team's set has an entry bound to that team. *)
Definition teamsInSessions (gha : githubAuth) : Prop :=
  ∀ teamName username,
    teamMember gha teamName username →
    ∃ sessionID teamData team,
      boundTo gha username sessionID teamData
      ∧ td_team teamData = Some team
      ∧ makeTeamName (td_org teamData) team = teamName.

Definition indexConsistent (gha : githubAuth) : Prop :=
  sessionsInTeams gha ∧ teamsInSessions gha.

(** No key of a map holds an empty collection. *)
Definition noEmptySessions (usm : userSessionMap) : Prop :=
  ∀ username sessionIDs, usm !! username = Some sessionIDs → sessionIDs ≠ ∅.

Definition noEmptyTeams (ttu : teamToUsersMap) : Prop :=
  ∀ teamName users, ttu !! teamName = Some users → users ≠ ∅.

Definition noEmptyCollection (gha : githubAuth) : Prop :=
  noEmptySessions (userSessionIDs gha) ∧ noEmptyTeams (teamToUsers gha).

(** The session ids of the entries of a walk whose binding passes a test,
    in the order of the walk. *)
Definition selected (Q : githubTeamData → Prop) `{!∀ teamData, Decision (Q teamData)}
    (l : list (string * githubTeamData)) : list string :=
  (filter (λ e, Q e.2) l).*1.

(** A binding that organization membership alone justified. *)
Definition orgOnly (org : string) (teamData : githubTeamData) : Prop :=
  td_org teamData = org ∧ td_team teamData = None.

(** ** Pages of team memberships *)

(** A page lists a team that has its name and its organization's login and
    whose full name is a configured read-write team. *)
Definition listsReadWriteTeam (gha : githubAuth) (ghTeams : list github_Team) : Prop :=
  ∃ name login,
    {| Team_Name := Some name;
       Team_Organization := Some {| Organization_Login := Some login |} |} ∈ ghTeams
    ∧ makeTeamName login name ∈ readWriteTeams gha.

(** The same for a configured read-only team. *)
Definition listsReadOnlyTeam (gha : githubAuth) (ghTeams : list github_Team) : Prop :=
  ∃ name login,
    {| Team_Name := Some name;
       Team_Organization := Some {| Organization_Login := Some login |} |} ∈ ghTeams
    ∧ makeTeamName login name ∈ readOnlyTeams gha.

(** Following [NextPage] from [listOpts], the provider answers every call
    and the page reached after [n] more calls satisfies [P]. *)
Inductive reachesPage (client : githubClient) (P : list github_Team → Prop)
    : ListOptions → nat → Prop :=
| reaches_here listOpts ghTeams response :
    Teams_ListUserTeams client listOpts = Some (ghTeams, response) →
    P ghTeams →
    reachesPage client P listOpts 0
| reaches_next listOpts ghTeams response n :
    Teams_ListUserTeams client listOpts = Some (ghTeams, response) →
    NextPage response ≠ 0 →
    reachesPage client P {| Page := NextPage response; PerPage := PerPage listOpts |} n →
    reachesPage client P listOpts (S n).

(** The variables of the dance after a read-write team matched: the flag
    is set, the session's access level is "rw", the tier identifier is the
    configured one and the binding is a configured read-write team. *)
Definition resolvedReadWrite (gha : githubAuth) (v : danceVars) : Prop :=
  v_isRW v = true
  ∧ SessionGet (v_session v) "accesslevel" = Some "rw"
  ∧ v_teamID v = defaultTeamID gha
  ∧ ∃ login name,
      v_teamData v = {| td_org := login; td_team := Some name |}
      ∧ makeTeamName login name ∈ readWriteTeams gha.

(** ** Stand-ins for the external packages, to run the code on examples

    On strings of ASCII characters they compute what package [strings]
    computes. *)

Definition isAsciiSpace (a : ascii) : bool :=
  let n := Ascii.N_of_ascii a in
  ((n =? 32) || ((9 <=? n) && (n <=? 13)))%N.

Fixpoint asciiFieldsFrom (field : string) (s : string) : list string :=
  match s with
  | EmptyString => if bool_decide (field = "") then [] else [field]
  | String a s =>
      if isAsciiSpace a
      then (if bool_decide (field = "") then [] else [field]) ++ asciiFieldsFrom "" s
      else asciiFieldsFrom (field +:+ String a "") s
  end.

Definition asciiFields (s : string) : list string := asciiFieldsFrom "" s.

Definition asciiLower (a : ascii) : ascii :=
  let n := Ascii.N_of_ascii a in
  if ((65 <=? n) && (n <=? 90))%N then Ascii.ascii_of_N (n + 32) else a.

Fixpoint asciiToLower (s : string) : string :=
  match s with
  | EmptyString => EmptyString
  | String a s => String (asciiLower a) (asciiToLower s)
  end.

Fixpoint dropSpaces (l : list ascii) : list ascii :=
  match l with
  | a :: l' => if isAsciiSpace a then dropSpaces l' else l
  | [] => []
  end.

Definition asciiTrimSpace (s : string) : string :=
  String.string_of_list_ascii
    (reverse (dropSpaces (reverse (dropSpaces (String.list_ascii_of_string s))))).

(** The provider as one caller sees it: who they are, their pages of teams
    and of organizations; page [i+1] of a list is its [i]-th element, an
    absent page is an error and the last page announces no next page. *)
Definition pagedList {A : Type} (pages : list (list A)) (listOpts : ListOptions)
    : option (list A * Response) :=
  match pages !! Z.to_nat (Page listOpts - 1) with
  | Some page =>
      Some (page,
            {| NextPage := if bool_decide (Page listOpts < Z.of_nat (length pages))
                           then Page listOpts + 1 else 0 |})
  | None => None
  end.

Definition providerFor (login : option string) (teamPages : list (list github_Team))
    (orgPages : list (list github_Organization)) : githubClient :=
  {| Users_Get := Some {| User_Login := login |};
     Teams_ListUserTeams := pagedList teamPages;
     Organizations_List := pagedList orgPages |}.

Definition namedTeam (login name : string) : github_Team :=
  {| Team_Name := Some name;
     Team_Organization := Some {| Organization_Login := Some login |} |}.

Definition namedOrg (login : string) : github_Organization :=
  {| Organization_Login := Some login |}.

(** Externals for the examples: every access token reaches [client], the
    session store saves, the code-for-token exchange succeeds, and the
    decoder of team payloads yields [teamPayload]. *)
Definition exampleExternals (client : githubClient) (teamPayload : option ghTeamPayload)
    : Externals :=
  {| strings_Fields := asciiFields;
     strings_ToLower := asciiToLower;
     strings_TrimSpace := asciiTrimSpace;
     random_String := λ _, "q8Zr";
     AuthCodeURL := λ state, "https://github.com/login/oauth/authorize?state=" +:+ state;
     Exchange := λ code, Some {| AccessToken := code; Valid := true |};
     github_NewClient := λ _, client;
     github_NewEnterpriseClient := λ _ _ _, Some client;
     SaveSession := λ _, true;
     hmacSHA1Hex := λ _ _, "a94a8fe5ccb19ba61c4c0873d391e987982fbbd3";
     decodeAppAuth := λ _, None;
     decodeOrganization := λ _, None;
     decodeMembership := λ _, None;
     decodeTeam := λ _, teamPayload |}.

Definition exampleAuth : githubAuth :=
  NewGithubAuthenticator "" "secret" ["acme/admins"; "bigorg"] ["acme/readers"] "default-team".

Definition exampleRequest (method : string) (header form : gmap string string)
    (body : option string) : Request :=
  {| Method := method; URL := "/apps"; Header := header; Form := form; Body := body |}.

Definition exampleContext (r : Request) (sessionID : string)
    (values : gmap string string) : ginContext :=
  {| request := r;
     session := {| sess_ID := sessionID; sess_values := values; sess_marked := false |};
     replies := [] |}.

(** ** Reading the two maps *)

(** The user→sessions map holds the entry [(username, sessionID) → teamData]. *)
Definition entryOf (usm : userSessionMap) (username sessionID : string)
    (teamData : githubTeamData) : Prop :=
  ∃ sessionIDs, usm !! username = Some sessionIDs ∧ sessionIDs !! sessionID = Some teamData.

(** The team→users map has [username] in the set under [teamName]. *)
Definition memberOf (ttu : teamToUsersMap) (teamName username : string) : Prop :=
  ∃ users, ttu !! teamName = Some users ∧ username ∈ users.

(** The key of the team→users map a binding stands under, if any. *)
Definition teamNameOf (teamData : githubTeamData) : option string :=
  match td_team teamData with
  | Some team => Some (makeTeamName (td_org teamData) team)
  | None => None
  end.

(** A binding to a team of an organization. *)
Definition teamBound (org team : string) (teamData : githubTeamData) : Prop :=
  td_org teamData = org ∧ td_team teamData = Some team.

(** The string has no "/" in it, as the login of an organization. *)
Fixpoint slashFree (s : string) : Prop :=
  match s with
  | EmptyString => True
  | String a s => a ≠ "/"%char ∧ slashFree s
  end.

(** Every binding of the index names an organization without "/". *)
Definition slashFreeOrgs (gha : githubAuth) : Prop :=
  ∀ username sessionID teamData,
    boundTo gha username sessionID teamData → slashFree (td_org teamData).

(** The organization an operation names, when it names one with a team. *)
Definition opSlashFree (op : indexOp) : Prop :=
  match op with
  | OpAddSessionID _ _ teamData => slashFree (td_org teamData)
  | OpStealUserOrgTeam _ org _ => slashFree org
  | OpStealOrgTeam org _ => slashFree org
  | _ => True
  end.

(** The operations that take entries out of the index. *)
Definition isRemoval (op : indexOp) : Prop :=
  match op with
  | OpAddSessionID _ _ _ => False
  | _ => True
  end.

(** The operations of the webhooks and the insert: all but the cleanup. *)
Definition notCleanup (op : indexOp) : Prop :=
  match op with
  | OpCleanupSession _ _ => False
  | _ => True
  end.

(** The second authenticator differs from the first in the two maps of
    the index at most: configuration and session store are the same. *)
Definition sameOutsideIndex (gha gha' : githubAuth) : Prop :=
  enterpriseURL gha' = enterpriseURL gha
  ∧ webhookSecret gha' = webhookSecret gha
  ∧ sessionsStore gha' = sessionsStore gha
  ∧ readWriteTeams gha' = readWriteTeams gha
  ∧ readOnlyTeams gha' = readOnlyTeams gha
  ∧ defaultTeamID gha' = defaultTeamID gha.

(** ** What the provider listed *)

(** On some page of its team listing the provider named a team, with its
    organization, whose full name is in [names]. *)
Definition listedTeamIn (client : githubClient) (names : list string) : Prop :=
  ∃ listOpts ghTeams response ghTeam organization name login,
    Teams_ListUserTeams client listOpts = Some (ghTeams, response)
    ∧ ghTeam ∈ ghTeams
    ∧ Team_Name ghTeam = Some name
    ∧ Team_Organization ghTeam = Some organization
    ∧ Organization_Login organization = Some login
    ∧ makeTeamName login name ∈ names.

(** On some page of its organization listing the provider named an
    organization whose login is in [names]. *)
Definition listedOrgIn (client : githubClient) (names : list string) : Prop :=
  ∃ listOpts ghOrgs response ghOrg login,
    Organizations_List client listOpts = Some (ghOrgs, response)
    ∧ ghOrg ∈ ghOrgs
    ∧ Organization_Login ghOrg = Some login
    ∧ login ∈ names.

Definition listedIn (client : githubClient) (names : list string) : Prop :=
  listedTeamIn client names ∨ listedOrgIn client names.

(** The access level in the session is one the provider's listings justify
    under the configured lists. *)
Definition levelJustified (gha : githubAuth) (client : githubClient) (s : Session) : Prop :=
  (SessionGet s "accesslevel" = Some "ro" ∧ listedIn client (readOnlyTeams gha))
  ∨ (SessionGet s "accesslevel" = Some "rw" ∧ listedIn client (readWriteTeams gha)).

(** What holds of the variables of the dance all along the two scans, for
    the session [s0] the dance started with: the session keeps its id and
    all its values but the access level, and a tier identifier, once set, is
    the configured one and comes with a justified access level. *)
Definition scanInvariant (gha : githubAuth) (client : githubClient) (s0 : Session)
    (v : danceVars) : Prop :=
  sess_ID (v_session v) = sess_ID s0
  ∧ sess_marked (v_session v) = sess_marked s0
  ∧ (∀ key, key ≠ "accesslevel" → SessionGet (v_session v) key = SessionGet s0 key)
  ∧ (v_teamID v = ""
     ∨ (v_teamID v = defaultTeamID gha ∧ levelJustified gha client (v_session v))).

(** ** What the callback needs *)

(** The session holds a desired URL and the state the request presents, and
    the code of the request is exchanged for a valid token. *)
Definition callbackReady `{Externals} (c : ginContext) (desiredURL : string)
    (token : Token) : Prop :=
  SessionGet (session c) "desiredurl" = Some desiredURL
  ∧ SessionGet (session c) "state" = Some (FormValue c "state")
  ∧ Exchange (FormValue c "code") = Some token
  ∧ Valid token = true.

(** The handler [loginWebhook] hands a verified payload to, by event type;
    an event of another type is dropped. *)
Definition dispatchEvent {order : RangeOrder} {ext : Externals} (eventType : string)
    (gha : githubAuth) (c : ginContext) (rawPayload : string) : githubAuth * ginContext :=
  if bool_decide (eventType = "github_app_authorization") then
    loginWebhookAuthorizationEvent gha c rawPayload
  else if bool_decide (eventType = "organization") then
    loginWebhookOrganizationEvent gha c rawPayload
  else if bool_decide (eventType = "membership") then
    loginWebhookMembershipEvent gha c rawPayload
  else if bool_decide (eventType = "team") then
    loginWebhookTeamEvent gha c rawPayload
  else (gha, c).

(** ** What a webhook may do to the authenticator *)

(** From [gha] to [gha'] nothing was added to the index, and the session
    store was handed ids of sessions that [gha] indexed and [gha'] no longer
    does; the configuration is the same. *)
Definition invalidation (gha gha' : githubAuth) : Prop :=
  (∀ u s td, boundTo gha' u s td → boundTo gha u s td)
  ∧ (∀ teamName x, teamMember gha' teamName x → teamMember gha teamName x)
  ∧ (∃ ids, sessionsStore gha' = sessionsStore gha ++ ids
            ∧ ∀ s, s ∈ ids → ∃ u td, boundTo gha u s td ∧ ¬ boundTo gha' u s td)
  ∧ enterpriseURL gha' = enterpriseURL gha
  ∧ webhookSecret gha' = webhookSecret gha
  ∧ readWriteTeams gha' = readWriteTeams gha
  ∧ readOnlyTeams gha' = readOnlyTeams gha
  ∧ defaultTeamID gha' = defaultTeamID gha.

(** ** More stand-ins for the examples *)

(** An index with a team-bound session of alice and an org-only one of bob. *)
Definition exampleIndex : githubAuth :=
  addSessionID
    (addSessionID exampleAuth "alice" "sess1" {| td_org := "acme"; td_team := Some "infra" |})
    "bob" "sess2" {| td_org := "acme"; td_team := None |}.

(** The externals of [exampleExternals] with decoders that yield the given
    payloads, and a session store whose saving succeeds or fails as told. *)
Definition payloadExternals (client : githubClient) (saves : bool)
    (appAuth : option ghAppAuthPayload) (organization : option ghOrganizationPayload)
    (membership : option ghMembershipPayload) (team : option ghTeamPayload) : Externals :=
  {| strings_Fields := asciiFields;
     strings_ToLower := asciiToLower;
     strings_TrimSpace := asciiTrimSpace;
     random_String := λ _, "q8Zr";
     AuthCodeURL := λ state, "https://github.com/login/oauth/authorize?state=" +:+ state;
     Exchange := λ code, Some {| AccessToken := code; Valid := true |};
     github_NewClient := λ _, client;
     github_NewEnterpriseClient := λ _ _ _, Some client;
     SaveSession := λ _, saves;
     hmacSHA1Hex := λ _ _, "a94a8fe5ccb19ba61c4c0873d391e987982fbbd3";
     decodeAppAuth := λ _, appAuth;
     decodeOrganization := λ _, organization;
     decodeMembership := λ _, membership;
     decodeTeam := λ _, team |}.

(** * Properties *)

(** ** Walking a map *)

Section ranges.
Context {order : RangeOrder}.

Lemma elem_of_rangeSessions (m : sessionIDToTeamDataMap) sessionID teamData :
  (sessionID, teamData) ∈ rangeSessions m ↔ m !! sessionID = Some teamData.
Proof. rewrite rangeSessions_perm. apply elem_of_map_to_list. Qed.

Lemma NoDup_rangeSessions (m : sessionIDToTeamDataMap) : NoDup (rangeSessions m).*1.
Proof. rewrite rangeSessions_perm. apply NoDup_fst_map_to_list. Qed.

Lemma rangeSessions_empty : rangeSessions ∅ = [].
Proof.
  apply Permutation_nil_r. rewrite rangeSessions_perm.
  by rewrite map_to_list_empty.
Qed.

Lemma rangeUsers_empty : rangeUsers ∅ = [].
Proof.
  apply Permutation_nil_r. rewrite rangeUsers_perm.
  by rewrite elements_empty.
Qed.

Lemma elem_of_rangeUsers (users : stringSet) username :
  username ∈ rangeUsers users ↔ username ∈ users.
Proof. rewrite rangeUsers_perm. apply elem_of_elements. Qed.

Lemma NoDup_rangeUsers (users : stringSet) : NoDup (rangeUsers users).
Proof. rewrite rangeUsers_perm. apply NoDup_elements. Qed.
End ranges.

Lemma lookup_foldl_delete (toDrop : list string) (m : sessionIDToTeamDataMap) sessionID :
  foldl (λ m sessionID, delete sessionID m) m toDrop !! sessionID
  = if decide (sessionID ∈ toDrop) then None else m !! sessionID.
Proof.
  revert m. induction toDrop as [|d toDrop IH]; intros m; cbn [foldl].
  - case_decide as Hin; [by apply elem_of_nil in Hin | done].
  - rewrite IH.
    destruct (decide (sessionID ∈ toDrop)) as [Hin|Hnin],
             (decide (sessionID ∈ d :: toDrop)) as [Hin'|Hnin']; try done.
    + exfalso. apply Hnin'. by right.
    + apply elem_of_cons in Hin' as [->|?]; [|done]. apply lookup_delete_eq.
    + apply lookup_delete_ne. intros ->. apply Hnin'. by left.
Qed.

Lemma foldl_delete_nil (m : sessionIDToTeamDataMap) :
  foldl (λ m sessionID, delete sessionID m) m [] = m.
Proof. done. Qed.

(** The loops that collect the session ids to drop select, in the order of
    the walk, the entries that pass the test. *)
Section selection.
Context (Q : githubTeamData → Prop) `{!∀ teamData, Decision (Q teamData)}.

Lemma collect_selected l ids toDrop :
  foldl (λ '(ids, toDrop) '(sessionID, teamData),
           if bool_decide (Q teamData)
           then (ids ++ [sessionID], toDrop ++ [sessionID])
           else (ids, toDrop))
        (ids, toDrop) l
  = (ids ++ selected Q l, toDrop ++ selected Q l).
Proof.
  revert ids toDrop. induction l as [|[sid td] l IH]; intros ids toDrop; simpl.
  - by rewrite !app_nil_r.
  - unfold selected. rewrite filter_cons. simpl.
    case_bool_decide.
    + rewrite decide_True by done. rewrite IH. simpl.
      unfold selected. by rewrite <- !app_assoc.
    + rewrite decide_False by done. by rewrite IH.
Qed.

Lemma elem_of_selected l sessionID :
  sessionID ∈ selected Q l ↔ ∃ teamData, (sessionID, teamData) ∈ l ∧ Q teamData.
Proof.
  unfold selected. rewrite list_elem_of_fmap. split.
  - intros [[sid td] [-> [HQ Hin]%list_elem_of_filter]]. eauto.
  - intros [td [Hin HQ]]. exists (sessionID, td). split; [done|].
    by apply list_elem_of_filter.
Qed.

Lemma NoDup_selected l : NoDup l.*1 → NoDup (selected Q l).
Proof.
  unfold selected. induction l as [|[sid td] l IH]; simpl; [constructor|].
  intros [Hnin Hnd]%NoDup_cons. rewrite filter_cons. simpl.
  destruct (decide (Q td)); [|by apply IH].
  simpl. apply NoDup_cons. split; [|by apply IH].
  intros [[sid' td'] [Heq [_ Hin]%list_elem_of_filter]]%list_elem_of_fmap.
  simpl in Heq. subst. apply Hnin. apply list_elem_of_fmap. by exists (sid', td').
Qed.

Lemma filter_selected_none (l : list (string * githubTeamData)) :
  (∀ e, e ∈ l → ¬ Q e.2) → filter (λ e, Q e.2) l = [].
Proof.
  intros Hno. induction l as [|e l IH]; [done|].
  rewrite filter_cons. rewrite decide_False.
  - apply IH. intros e' He'. apply Hno. by right.
  - apply Hno. by left.
Qed.
End selection.

(** ** The two shared blocks *)

Lemma set_userSessionIDs_same gha : set_userSessionIDs gha (userSessionIDs gha) = gha.
Proof. by destruct gha. Qed.

Lemma set_teamToUsers_same gha : set_teamToUsers gha (teamToUsers gha) = gha.
Proof. by destruct gha. Qed.

Lemma dropSessions_lookup username m toDrop usm :
  dropSessions username m toDrop usm !! username
  = let m' := foldl (λ m sessionID, delete sessionID m) m toDrop in
    if decide (size m' = 0%nat) then None else Some m'.
Proof.
  unfold dropSessions. cbv zeta. case_decide.
  - apply lookup_delete_eq.
  - apply lookup_insert_eq.
Qed.

Lemma dropSessions_lookup_ne username username' m toDrop usm :
  username ≠ username' →
  dropSessions username m toDrop usm !! username' = usm !! username'.
Proof.
  intros Hne. unfold dropSessions. cbv zeta. case_decide.
  - by apply lookup_delete_ne.
  - by apply lookup_insert_ne.
Qed.

Lemma dropSessions_nothing username m usm :
  usm !! username = Some m → m ≠ ∅ → dropSessions username m [] usm = usm.
Proof.
  intros Hm Hne. unfold dropSessions. cbn [foldl].
  rewrite decide_False by by apply map_size_non_empty_iff.
  by apply insert_id.
Qed.

Lemma dropSessions_noEmpty username m toDrop usm :
  noEmptySessions usm → noEmptySessions (dropSessions username m toDrop usm).
Proof.
  intros Hok u' m'. destruct (decide (username = u')) as [<-|Hne].
  - rewrite dropSessions_lookup. cbv zeta. case_decide as Hsz; [done|].
    intros [= <-]. by apply map_size_non_empty_iff.
  - rewrite dropSessions_lookup_ne by done. apply Hok.
Qed.

Lemma dropUserFromTeam_noEmpty teamName username ttu :
  noEmptyTeams ttu → noEmptyTeams (dropUserFromTeam teamName username ttu).
Proof.
  intros Hok t s. unfold dropUserFromTeam.
  destruct (ttu !! teamName) as [users|] eqn:Hl; [|apply Hok].
  cbv zeta. case_decide as Hsz.
  - intros Hs. apply lookup_delete_Some in Hs as [_ Hs]. by eapply Hok.
  - intros Hs. apply lookup_insert_Some in Hs as [[_ <-]|[_ Hs]].
    + intros Hem. apply Hsz. rewrite Hem. apply size_empty.
    + by eapply Hok.
Qed.

(** ** What each query computes *)

Section unfold.
Context {order : RangeOrder}.

Lemma stealUserSessionIDs_absent gha username :
  userSessionIDs gha !! username = None →
  stealUserSessionIDs gha username = ([], gha).
Proof. intros Hl. unfold stealUserSessionIDs. by rewrite Hl. Qed.

Lemma stealUserSessionIDs_users gha username :
  userSessionIDs (stealUserSessionIDs gha username).2
  = delete username (userSessionIDs gha).
Proof.
  unfold stealUserSessionIDs.
  destruct (userSessionIDs gha !! username) as [m|] eqn:Hl; simpl.
  - by destruct (foldl _ _ _).
  - symmetry. by apply delete_id.
Qed.

Lemma stealUserSessionIDsForOrg_present gha username org m :
  userSessionIDs gha !! username = Some m →
  stealUserSessionIDsForOrg gha username org
  = (selected (λ td, td_org td = org ∧ td_team td = None) (rangeSessions m),
     set_userSessionIDs gha
       (dropSessions username m
          (selected (λ td, td_org td = org ∧ td_team td = None) (rangeSessions m))
          (userSessionIDs gha))).
Proof.
  intros Hl. unfold stealUserSessionIDsForOrg. rewrite Hl.
  by rewrite (collect_selected (λ td, td_org td = org ∧ td_team td = None)).
Qed.

Lemma collect_selected_teams (Q : githubTeamData → Prop)
    `{!∀ teamData, Decision (Q teamData)}
    (g : githubTeamData → teamToUsersMap → teamToUsersMap) l ids toDrop ttu :
  foldl (λ '(ids, toDrop, ttu) '(sessionID, teamData),
           if bool_decide (Q teamData)
           then (ids ++ [sessionID], toDrop ++ [sessionID], g teamData ttu)
           else (ids, toDrop, ttu))
        (ids, toDrop, ttu) l
  = (ids ++ selected Q l, toDrop ++ selected Q l,
     foldl (λ ttu e, g e.2 ttu) ttu (filter (λ e, Q e.2) l)).
Proof.
  revert ids toDrop ttu.
  induction l as [|[sid td] l IH]; intros ids toDrop ttu; cbn [foldl].
  - by rewrite !app_nil_r.
  - unfold selected. rewrite filter_cons. cbn [snd].
    case_bool_decide.
    + rewrite decide_True by done. rewrite IH. cbn [foldl fmap list_fmap fst snd].
      unfold selected. by rewrite <- !app_assoc.
    + rewrite decide_False by done. by rewrite IH.
Qed.

Lemma stealUserSessionIDsForOrgAndTeam_present gha username org team m :
  userSessionIDs gha !! username = Some m →
  let Q := λ td, td_org td = org ∧ td_team td = Some team in
  stealUserSessionIDsForOrgAndTeam gha username org team
  = (selected Q (rangeSessions m),
     set_userSessionIDs
       (set_teamToUsers gha
          (foldl (λ ttu e, dropUserFromTeam (makeTeamName (td_org e.2) team) username ttu)
                 (teamToUsers gha) (filter (λ e, Q e.2) (rangeSessions m))))
       (dropSessions username m (selected Q (rangeSessions m)) (userSessionIDs gha))).
Proof.
  intros Hl Q. unfold stealUserSessionIDsForOrgAndTeam. rewrite Hl.
  by rewrite (collect_selected_teams Q
                (λ td, dropUserFromTeam (makeTeamName (td_org td) team) username)).
Qed.

(** One turn of the walk over a team's users in
    [stealSessionIDsForOrgAndTeam]. *)
Lemma stealSessionIDsForOrgAndTeam_turn org team ids usm username :
  let Q := λ td, td_org td = org ∧ td_team td = Some team in
  match usm !! username with
  | Some sessionIDsAndTeams =>
      let '(ids, toDrop) :=
        foldl (λ '(ids, toDrop) '(sessionID, teamData),
                 if bool_decide (td_org teamData = org ∧ td_team teamData = Some team)
                 then (ids ++ [sessionID], toDrop ++ [sessionID])
                 else (ids, toDrop))
              (ids, []) (rangeSessions sessionIDsAndTeams) in
      (ids, dropSessions username sessionIDsAndTeams toDrop usm)
  | None => (ids, usm)
  end
  = match usm !! username with
    | Some m => (ids ++ selected Q (rangeSessions m),
                 dropSessions username m (selected Q (rangeSessions m)) usm)
    | None => (ids, usm)
    end.
Proof.
  intros Q. destruct (usm !! username) as [m|]; [|done].
  by rewrite (collect_selected Q).
Qed.
End unfold.

(** ** Idempotence of the removal queries *)

Section idempotence.
Context {order : RangeOrder}.

(** After the selected entries are dropped, a second walk selects nothing. *)
Lemma selected_after_drop (Q : githubTeamData → Prop)
    `{!∀ teamData, Decision (Q teamData)} (m : sessionIDToTeamDataMap) :
  filter (λ e, Q e.2)
    (rangeSessions (foldl (λ m sessionID, delete sessionID m) m (selected Q (rangeSessions m))))
  = [].
Proof.
  apply filter_selected_none. intros [sid td] Hin HQ. cbn [snd] in HQ.
  apply elem_of_rangeSessions in Hin.
  rewrite lookup_foldl_delete in Hin.
  case_decide as Hsel; [done|].
  apply Hsel. apply elem_of_selected. exists td. split; [|done].
  by apply elem_of_rangeSessions.
Qed.

Lemma nothing_selected_after_drop (Q : githubTeamData → Prop)
    `{!∀ teamData, Decision (Q teamData)} (m : sessionIDToTeamDataMap) :
  selected Q
    (rangeSessions (foldl (λ m sessionID, delete sessionID m) m (selected Q (rangeSessions m))))
  = [].
Proof. unfold selected at 1. by rewrite selected_after_drop. Qed.

Lemma stealUserSessionIDs_twice gha username :
  stealUserSessionIDs (stealUserSessionIDs gha username).2 username
  = ([], (stealUserSessionIDs gha username).2).
Proof.
  apply stealUserSessionIDs_absent.
  rewrite stealUserSessionIDs_users. apply lookup_delete_eq.
Qed.

Lemma stealUserSessionIDsForOrg_twice gha username org :
  stealUserSessionIDsForOrg (stealUserSessionIDsForOrg gha username org).2 username org
  = ([], (stealUserSessionIDsForOrg gha username org).2).
Proof.
  destruct (userSessionIDs gha !! username) as [m|] eqn:Hl.
  - rewrite (stealUserSessionIDsForOrg_present _ _ _ _ Hl). cbn [snd].
    set (Q := λ td, td_org td = org ∧ td_team td = None).
    set (usm1 := dropSessions username m (selected Q (rangeSessions m)) (userSessionIDs gha)).
    destruct (usm1 !! username) as [m1|] eqn:Hl1.
    + rewrite (stealUserSessionIDsForOrg_present _ _ _ m1) by done.
      fold Q. cbn [userSessionIDs set_userSessionIDs].
      unfold usm1 in Hl1. rewrite dropSessions_lookup in Hl1. cbv zeta in Hl1.
      case_decide as Hsz; [done|]. injection Hl1 as <-.
      rewrite (nothing_selected_after_drop Q m).
      f_equal. destruct gha; unfold set_userSessionIDs; cbn. f_equal.
      apply dropSessions_nothing.
      * cbn in usm1. unfold usm1. rewrite dropSessions_lookup. cbv zeta.
        by rewrite decide_False.
      * by apply map_size_non_empty_iff.
    + unfold stealUserSessionIDsForOrg. cbn [userSessionIDs set_userSessionIDs].
      by rewrite Hl1.
  - unfold stealUserSessionIDsForOrg. rewrite Hl. cbn [snd]. by rewrite Hl.
Qed.

Lemma stealUserSessionIDsForOrgAndTeam_twice gha username org team :
  stealUserSessionIDsForOrgAndTeam
    (stealUserSessionIDsForOrgAndTeam gha username org team).2 username org team
  = ([], (stealUserSessionIDsForOrgAndTeam gha username org team).2).
Proof.
  destruct (userSessionIDs gha !! username) as [m|] eqn:Hl.
  - rewrite (stealUserSessionIDsForOrgAndTeam_present _ _ _ _ _ Hl). cbv zeta. cbn [snd].
    set (Q := λ td, td_org td = org ∧ td_team td = Some team).
    set (usm1 := dropSessions username m (selected Q (rangeSessions m)) (userSessionIDs gha)).
    set (ttu1 := foldl _ _ _).
    destruct (usm1 !! username) as [m1|] eqn:Hl1.
    + rewrite (stealUserSessionIDsForOrgAndTeam_present _ _ _ _ m1) by done.
      cbv zeta. fold Q. cbn [userSessionIDs teamToUsers set_userSessionIDs set_teamToUsers].
      unfold usm1 in Hl1. rewrite dropSessions_lookup in Hl1. cbv zeta in Hl1.
      case_decide as Hsz; [done|]. injection Hl1 as <-.
      rewrite (nothing_selected_after_drop Q m).
      replace (filter _ (rangeSessions (foldl _ m (selected Q (rangeSessions m)))))
        with (@nil (string * githubTeamData))
        by (symmetry; exact (selected_after_drop Q m)).
      cbn [foldl].
      f_equal. destruct gha; unfold set_userSessionIDs, set_teamToUsers; cbn. f_equal.
      apply dropSessions_nothing.
      * cbn in usm1. unfold usm1. rewrite dropSessions_lookup. cbv zeta.
        by rewrite decide_False.
      * by apply map_size_non_empty_iff.
    + unfold stealUserSessionIDsForOrgAndTeam.
      cbn [userSessionIDs set_userSessionIDs]. by rewrite Hl1.
  - unfold stealUserSessionIDsForOrgAndTeam. rewrite Hl. cbn [snd]. by rewrite Hl.
Qed.

Lemma stealSessionIDsForOrgAndTeam_teams gha org team :
  teamToUsers (stealSessionIDsForOrgAndTeam gha org team).2
  = delete (makeTeamName org team) (teamToUsers gha).
Proof. unfold stealSessionIDsForOrgAndTeam. cbv zeta. by destruct (foldl _ _ _). Qed.

Lemma stealSessionIDsForOrgAndTeam_twice gha org team :
  stealSessionIDsForOrgAndTeam (stealSessionIDsForOrgAndTeam gha org team).2 org team
  = ([], (stealSessionIDsForOrgAndTeam gha org team).2).
Proof.
  pose proof (stealSessionIDsForOrgAndTeam_teams gha org team) as Ht.
  destruct (stealSessionIDsForOrgAndTeam gha org team) as [ids gha1]. cbn [snd] in *.
  unfold stealSessionIDsForOrgAndTeam. cbv zeta.
  rewrite Ht, lookup_delete_eq. cbn [default]. rewrite rangeUsers_empty. cbn [foldl].
  f_equal. rewrite delete_delete_eq, <- Ht.
  by destruct gha1.
Qed.

(** C2. Calling any of the four removal queries a second time with the
    same arguments returns no session id and leaves the authenticator, so
    both maps of the index, as the first call left it. *)
Theorem removal_queries_idempotent gha username org team :
  stealUserSessionIDs (stealUserSessionIDs gha username).2 username
    = ([], (stealUserSessionIDs gha username).2)
  ∧ stealUserSessionIDsForOrg (stealUserSessionIDsForOrg gha username org).2 username org
    = ([], (stealUserSessionIDsForOrg gha username org).2)
  ∧ stealUserSessionIDsForOrgAndTeam
      (stealUserSessionIDsForOrgAndTeam gha username org team).2 username org team
    = ([], (stealUserSessionIDsForOrgAndTeam gha username org team).2)
  ∧ stealSessionIDsForOrgAndTeam (stealSessionIDsForOrgAndTeam gha org team).2 org team
    = ([], (stealSessionIDsForOrgAndTeam gha org team).2).
Proof.
  split; [apply stealUserSessionIDs_twice|].
  split; [apply stealUserSessionIDsForOrg_twice|].
  split; [apply stealUserSessionIDsForOrgAndTeam_twice|].
  apply stealSessionIDsForOrgAndTeam_twice.
Qed.
End idempotence.

(** ** Removal on loss of organization membership *)

Section org_removal.
Context {order : RangeOrder}.

Lemma boundTo_dropSessions gha username m toDrop sessionID teamData :
  userSessionIDs gha !! username = Some m →
  boundTo (set_userSessionIDs gha (dropSessions username m toDrop (userSessionIDs gha)))
          username sessionID teamData
  ↔ m !! sessionID = Some teamData ∧ sessionID ∉ toDrop.
Proof.
  intros Hl. unfold boundTo. cbn [userSessionIDs set_userSessionIDs].
  rewrite dropSessions_lookup. cbv zeta. split.
  - intros (m' & Hm' & Hs). case_decide; [done|]. injection Hm' as <-.
    rewrite lookup_foldl_delete in Hs. by case_decide.
  - intros [Hs Hnin].
    assert (foldl (λ m sid, delete sid m) m toDrop !! sessionID = Some teamData) as Hs'.
    { rewrite lookup_foldl_delete. by rewrite decide_False. }
    eexists. split; [|exact Hs'].
    rewrite decide_False; [done|].
    apply map_size_non_empty_iff. intros Hem. by rewrite Hem in Hs'.
Qed.

(** C6. [stealUserSessionIDsForOrg] returns, each once, exactly the ids of
    the user's sessions whose binding is org-only for that organization,
    and removes exactly those: every other session of the user, so every one
    bound to a team of the organization, keeps its entry; the other users
    and the team sets are as before. *)
Theorem stealUserSessionIDsForOrg_exact gha username org :
  let ids := (stealUserSessionIDsForOrg gha username org).1 in
  let gha' := (stealUserSessionIDsForOrg gha username org).2 in
  (∀ sessionID,
     sessionID ∈ ids ↔ ∃ teamData, boundTo gha username sessionID teamData ∧ orgOnly org teamData)
  ∧ NoDup ids
  ∧ (∀ sessionID teamData,
       boundTo gha' username sessionID teamData
       ↔ boundTo gha username sessionID teamData ∧ ¬ orgOnly org teamData)
  ∧ (∀ sessionID teamData team,
       boundTo gha username sessionID teamData → td_team teamData = Some team →
       boundTo gha' username sessionID teamData)
  ∧ (∀ username', username' ≠ username →
       userSessionIDs gha' !! username' = userSessionIDs gha !! username')
  ∧ teamToUsers gha' = teamToUsers gha.
Proof.
  intros ids gha'.
  assert (∀ sessionID,
     sessionID ∈ ids ↔ ∃ teamData, boundTo gha username sessionID teamData ∧ orgOnly org teamData)
    as Hids.
  { intros sid. subst ids. unfold boundTo.
    destruct (userSessionIDs gha !! username) as [m|] eqn:Hl.
    - rewrite (stealUserSessionIDsForOrg_present _ _ _ _ Hl). cbn [fst].
      rewrite elem_of_selected. split.
      + intros (td & Hin & HQ). exists td. split; [|done].
        exists m. split; [done|]. by apply elem_of_rangeSessions.
      + intros (td & (m' & [= <-] & Hs) & HQ). exists td. split; [|done].
        by apply elem_of_rangeSessions.
    - unfold stealUserSessionIDsForOrg. rewrite Hl. cbn [fst]. split.
      + by intros ?%elem_of_nil.
      + by intros (td & (m' & ? & _) & _). }
  assert (∀ sessionID teamData,
       boundTo gha' username sessionID teamData
       ↔ boundTo gha username sessionID teamData ∧ ¬ orgOnly org teamData) as Hkeep.
  { intros sid td. subst gha'.
    destruct (userSessionIDs gha !! username) as [m|] eqn:Hl.
    - rewrite (stealUserSessionIDsForOrg_present _ _ _ _ Hl). cbn [snd].
      rewrite (boundTo_dropSessions _ _ _ _ _ _ Hl). rewrite elem_of_selected.
      unfold boundTo. rewrite Hl. split.
      + intros [Hs Hnsel]. split; [by exists m|].
        intros HQ. apply Hnsel. exists td. split; [|done].
        by apply elem_of_rangeSessions.
      + intros [(m' & [= <-] & Hs) HnQ]. split; [done|].
        intros (td' & Hin & HQ). apply elem_of_rangeSessions in Hin.
        rewrite Hs in Hin. injection Hin as <-. by apply HnQ.
    - unfold stealUserSessionIDsForOrg. rewrite Hl. cbn [snd].
      unfold boundTo. rewrite Hl. split.
      + by intros (m' & ? & _).
      + by intros [(m' & ? & _) _]. }
  split; [exact Hids|]. split; [|split; [exact Hkeep|split; [|split]]].
  - subst ids. destruct (userSessionIDs gha !! username) as [m|] eqn:Hl.
    + rewrite (stealUserSessionIDsForOrg_present _ _ _ _ Hl). cbn [fst].
      apply NoDup_selected, NoDup_rangeSessions.
    + unfold stealUserSessionIDsForOrg. rewrite Hl. constructor.
  - intros sid td t Hb Ht. apply Hkeep. split; [done|].
    intros [_ Hnone]. by rewrite Ht in Hnone.
  - intros u' Hne. subst gha'.
    destruct (userSessionIDs gha !! username) as [m|] eqn:Hl.
    + rewrite (stealUserSessionIDsForOrg_present _ _ _ _ Hl). cbn.
      by apply dropSessions_lookup_ne.
    + unfold stealUserSessionIDsForOrg. by rewrite Hl.
  - subst gha'. destruct (userSessionIDs gha !! username) as [m|] eqn:Hl.
    + by rewrite (stealUserSessionIDsForOrg_present _ _ _ _ Hl).
    + unfold stealUserSessionIDsForOrg. by rewrite Hl.
Qed.
End org_removal.

(** ** No empty collection under a key *)

Section no_empty.
Context {order : RangeOrder}.

Lemma addSessionID_noEmpty gha username sessionID teamData :
  noEmptyCollection gha → noEmptyCollection (addSessionID gha username sessionID teamData).
Proof.
  intros [Hu Ht]. unfold addSessionID. cbv zeta.
  assert (noEmptySessions
            (<[username := <[sessionID := teamData]>
                 (default ∅ (userSessionIDs gha !! username))]> (userSessionIDs gha))) as Hu'.
  { intros u m [[_ <-]|[_ Hm]]%lookup_insert_Some; [|by eapply Hu].
    apply insert_non_empty. }
  destruct (td_team teamData) as [team|]; [|by split].
  split; [done|]. cbn [teamToUsers set_teamToUsers set_userSessionIDs].
  intros t s [[_ <-]|[_ Hs]]%lookup_insert_Some; [|by eapply Ht].
  set_solver.
Qed.

Lemma cleanupSessionLocked_noEmpty gha username sessionID :
  noEmptyCollection gha → noEmptyCollection (cleanupSessionLocked gha username sessionID).
Proof.
  intros [Hu Ht]. unfold cleanupSessionLocked.
  destruct (userSessionIDs gha !! username) as [m|]; [|by split].
  destruct (m !! sessionID) as [td|]; [|by split]. cbv zeta.
  assert (noEmptyCollection
            match td_team td with
            | Some team =>
                set_teamToUsers gha
                  (dropUserFromTeam (makeTeamName (td_org td) team) username (teamToUsers gha))
            | None => gha
            end) as [Hu' Ht'].
  { destruct (td_team td); [|by split].
    split; [done|]. by apply dropUserFromTeam_noEmpty. }
  case_decide as Hsz; split; try done; cbn [userSessionIDs set_userSessionIDs].
  - intros u m' [_ Hm']%lookup_delete_Some. by eapply Hu'.
  - intros u m' [[_ <-]|[_ Hm']]%lookup_insert_Some; [|by eapply Hu'].
    by apply map_size_non_empty_iff.
Qed.

Lemma dropTeams_noEmpty (g : githubTeamData → teamToUsersMap → teamToUsersMap)
    (l : list (string * githubTeamData)) ttu :
  (∀ td ttu, noEmptyTeams ttu → noEmptyTeams (g td ttu)) →
  noEmptyTeams ttu → noEmptyTeams (foldl (λ ttu e, g e.2 ttu) ttu l).
Proof.
  intros Hg. revert ttu. induction l as [|e l IH]; intros ttu Hok; [done|].
  cbn [foldl]. by apply IH, Hg.
Qed.

Lemma stealUserSessionIDs_noEmpty gha username :
  noEmptyCollection gha → noEmptyCollection (stealUserSessionIDs gha username).2.
Proof.
  intros [Hu Ht]. split.
  - rewrite stealUserSessionIDs_users.
    intros u m [_ Hm]%lookup_delete_Some. by eapply Hu.
  - unfold stealUserSessionIDs.
    destruct (userSessionIDs gha !! username) as [m|]; [|done].
    assert (∀ (l : list (string * githubTeamData)) (ids : list string) ttu,
              noEmptyTeams ttu →
              noEmptyTeams
                (foldl (λ '(ids, ttu) '(sessionID, teamData),
                          (ids ++ [sessionID],
                           match td_team teamData with
                           | Some team =>
                               dropUserFromTeam (makeTeamName (td_org teamData) team) username ttu
                           | None => ttu
                           end))
                       (ids, ttu) l).2) as Hfold.
    { induction l as [|[sid td] l IH]; intros ids ttu Hok; [done|].
      cbn [foldl]. apply IH. destruct (td_team td); [|done].
      by apply dropUserFromTeam_noEmpty. }
    specialize (Hfold (rangeSessions m) [] (teamToUsers gha) Ht).
    by destruct (foldl _ _ _).
Qed.

Lemma stealUserSessionIDsForOrg_noEmpty gha username org :
  noEmptyCollection gha → noEmptyCollection (stealUserSessionIDsForOrg gha username org).2.
Proof.
  intros [Hu Ht].
  destruct (userSessionIDs gha !! username) as [m|] eqn:Hl.
  - rewrite (stealUserSessionIDsForOrg_present _ _ _ _ Hl).
    split; [|done]. by apply dropSessions_noEmpty.
  - unfold stealUserSessionIDsForOrg. by rewrite Hl.
Qed.

Lemma stealUserSessionIDsForOrgAndTeam_noEmpty gha username org team :
  noEmptyCollection gha →
  noEmptyCollection (stealUserSessionIDsForOrgAndTeam gha username org team).2.
Proof.
  intros [Hu Ht].
  destruct (userSessionIDs gha !! username) as [m|] eqn:Hl.
  - rewrite (stealUserSessionIDsForOrgAndTeam_present _ _ _ _ _ Hl). cbv zeta.
    split; [by apply dropSessions_noEmpty|].
    cbn [snd teamToUsers set_teamToUsers set_userSessionIDs].
    apply (dropTeams_noEmpty
             (λ td, dropUserFromTeam (makeTeamName (td_org td) team) username)); [|done].
    intros td ttu. apply dropUserFromTeam_noEmpty.
  - unfold stealUserSessionIDsForOrgAndTeam. by rewrite Hl.
Qed.

Lemma stealSessionIDsForOrgAndTeam_noEmpty gha org team :
  noEmptyCollection gha →
  noEmptyCollection (stealSessionIDsForOrgAndTeam gha org team).2.
Proof.
  intros [Hu Ht]. split.
  - unfold stealSessionIDsForOrgAndTeam. cbv zeta.
    generalize (rangeUsers (default ∅ (teamToUsers gha !! makeTeamName org team))).
    intros users.
    assert (∀ (ids : list string) usm, noEmptySessions usm →
              noEmptySessions
                (foldl (λ '(ids, usm) username,
                   match usm !! username with
                   | Some sessionIDsAndTeams =>
                       let '(ids, toDrop) :=
                         foldl (λ '(ids, toDrop) '(sessionID, teamData),
                                  if bool_decide (td_org teamData = org ∧ td_team teamData = Some team)
                                  then (ids ++ [sessionID], toDrop ++ [sessionID])
                                  else (ids, toDrop))
                               (ids, []) (rangeSessions sessionIDsAndTeams) in
                       (ids, dropSessions username sessionIDsAndTeams toDrop usm)
                   | None => (ids, usm)
                   end) (ids, usm) users).2) as Hfold.
    { induction users as [|u users IH]; intros ids usm Hok; [done|].
      cbn [foldl]. rewrite stealSessionIDsForOrgAndTeam_turn.
      destruct (usm !! u) as [m|]; apply IH; [|done].
      by apply dropSessions_noEmpty. }
    specialize (Hfold [] (userSessionIDs gha) Hu).
    by destruct (foldl _ _ _).
  - rewrite stealSessionIDsForOrgAndTeam_teams.
    intros t s [_ Hs]%lookup_delete_Some. by eapply Ht.
Qed.

Lemma applyOp_noEmpty gha op :
  noEmptyCollection gha → noEmptyCollection (applyOp gha op).
Proof.
  destruct op; cbn [applyOp].
  - apply addSessionID_noEmpty.
  - apply cleanupSessionLocked_noEmpty.
  - apply stealUserSessionIDs_noEmpty.
  - apply stealUserSessionIDsForOrg_noEmpty.
  - apply stealUserSessionIDsForOrgAndTeam_noEmpty.
  - apply stealSessionIDsForOrgAndTeam_noEmpty.
Qed.

Lemma NewGithubAuthenticator_noEmpty url secret rw ro dflt :
  noEmptyCollection (NewGithubAuthenticator url secret rw ro dflt).
Proof. split; intros k v Hk; cbn in Hk; by rewrite lookup_empty in Hk. Qed.

(** C9. Running any sequence of inserts, cleanups and removal queries from
    an index in which no key holds an empty collection, such as the empty
    index a new authenticator starts with, ends in an index in which none
    does: in neither map is a key left with an empty map or set. *)
Theorem no_empty_collection_preserved ops gha :
  noEmptyCollection gha → noEmptyCollection (runOps ops gha).
Proof.
  unfold runOps. revert gha. induction ops as [|op ops IH]; intros gha Hok; [done|].
  cbn [foldl]. by apply IH, applyOp_noEmpty.
Qed.
End no_empty.

(** ** The team scan *)

Section team_scan.
Context {order : RangeOrder} {ext : Externals}.

(** A read-only match is recorded once: with the flag set the loop leaves
    every variable as it is. *)
Lemma teamRoLoop_recorded_once gha full login name roTeams v :
  v_isRO v = true → teamRoLoop gha full login name roTeams v = v.
Proof. intros Hro. destruct roTeams; cbn [teamRoLoop]; by rewrite ?Hro. Qed.

Lemma teamRoLoop_keeps gha full login name roTeams v :
  v_isRW (teamRoLoop gha full login name roTeams v) = v_isRW v
  ∧ sess_ID (v_session (teamRoLoop gha full login name roTeams v)) = sess_ID (v_session v).
Proof.
  induction roTeams as [|roTeam roTeams IH]; cbn [teamRoLoop]; [done|].
  destruct (v_isRO v); [done|]. by case_bool_decide.
Qed.

Lemma teamRwLoop_found gha full login name rwTeams v :
  full ∈ rwTeams → (teamRwLoop gha full login name rwTeams v).2 = true.
Proof.
  induction rwTeams as [|rwTeam rwTeams IH]; [by intros ?%elem_of_nil|].
  intros Hin. cbn [teamRwLoop]. case_bool_decide as Heq; [done|].
  apply IH. apply elem_of_cons in Hin as [?|?]; done.
Qed.

Lemma teamRwLoop_break gha login name rwTeams v v' :
  rwTeams ⊆ readWriteTeams gha →
  teamRwLoop gha (makeTeamName login name) login name rwTeams v = (v', true) →
  resolvedReadWrite gha v' ∧ sess_ID (v_session v') = sess_ID (v_session v).
Proof.
  induction rwTeams as [|rwTeam rwTeams IH]; intros Hsub; cbn [teamRwLoop]; [done|].
  case_bool_decide as Heq.
  - intros [= <-]. split; [|done]. repeat split; cbn.
    + apply lookup_insert_eq.
    + exists login, name. split; [done|]. apply Hsub. rewrite Heq. by left.
  - apply IH. intros x Hx. apply Hsub. by right.
Qed.

Lemma teamRwLoop_no_break gha full login name rwTeams v v' :
  teamRwLoop gha full login name rwTeams v = (v', false) → v' = v.
Proof.
  induction rwTeams as [|rwTeam rwTeams IH]; cbn [teamRwLoop]; [by intros [= <-]|].
  by case_bool_decide.
Qed.

Lemma scanTeam_break gha ghTeam v v' :
  scanTeam gha ghTeam v = (v', true) →
  resolvedReadWrite gha v' ∧ sess_ID (v_session v') = sess_ID (v_session v).
Proof.
  unfold scanTeam.
  destruct (Team_Name ghTeam) as [name|]; [|done].
  destruct (Team_Organization ghTeam) as [organization|]; [|done].
  destruct (Organization_Login organization) as [login|]; [|done].
  cbv zeta. intros Hrw. apply teamRwLoop_break in Hrw as [Hres Hid]; [|done].
  split; [done|]. rewrite Hid. apply teamRoLoop_keeps.
Qed.

Lemma scanTeam_no_break gha ghTeam v v' :
  scanTeam gha ghTeam v = (v', false) →
  v_isRW v' = v_isRW v ∧ sess_ID (v_session v') = sess_ID (v_session v).
Proof.
  unfold scanTeam.
  destruct (Team_Name ghTeam) as [name|]; [|by intros [= <-]].
  destruct (Team_Organization ghTeam) as [organization|]; [|by intros [= <-]].
  destruct (Organization_Login organization) as [login|]; [|by intros [= <-]].
  cbv zeta. intros ->%teamRwLoop_no_break. apply teamRoLoop_keeps.
Qed.

Lemma scanTeam_read_write gha login name v :
  makeTeamName login name ∈ readWriteTeams gha →
  (scanTeam gha {| Team_Name := Some name;
                   Team_Organization := Some {| Organization_Login := Some login |} |} v).2
  = true.
Proof. intros Hin. unfold scanTeam. cbn. by apply teamRwLoop_found. Qed.

Lemma scanTeams_break gha ghTeams v v' :
  scanTeams gha ghTeams v = (v', true) →
  resolvedReadWrite gha v' ∧ sess_ID (v_session v') = sess_ID (v_session v).
Proof.
  revert v. induction ghTeams as [|ghTeam ghTeams IH]; intros v; cbn [scanTeams]; [done|].
  destruct (scanTeam gha ghTeam v) as [v1 [|]] eqn:Hscan.
  - intros [= <-]. by apply scanTeam_break in Hscan.
  - intros [Hres Hid]%IH. split; [done|]. rewrite Hid.
    by apply scanTeam_no_break in Hscan as [_ ?].
Qed.

Lemma scanTeams_no_break gha ghTeams v v' :
  scanTeams gha ghTeams v = (v', false) →
  sess_ID (v_session v') = sess_ID (v_session v).
Proof.
  revert v. induction ghTeams as [|ghTeam ghTeams IH]; intros v; cbn [scanTeams];
    [by intros [= <-]|].
  destruct (scanTeam gha ghTeam v) as [v1 [|]] eqn:Hscan; [done|].
  intros ->%IH. by apply scanTeam_no_break in Hscan as [_ ?].
Qed.

Lemma scanTeams_read_write gha ghTeams v :
  listsReadWriteTeam gha ghTeams → (scanTeams gha ghTeams v).2 = true.
Proof.
  intros (name & login & Hin & Hrw). revert v.
  induction ghTeams as [|ghTeam ghTeams IH]; intros v; [by apply elem_of_nil in Hin|].
  cbn [scanTeams]. destruct (scanTeam gha ghTeam v) as [v1 [|]] eqn:Hscan; [done|].
  apply elem_of_cons in Hin as [<-|Hin]; [|by apply IH].
  pose proof (scanTeam_read_write gha login name v Hrw) as Hbrk.
  by rewrite Hscan in Hbrk.
Qed.

Lemma checkLoop_read_write fuel gha client listOpts n v :
  reachesPage client (listsReadWriteTeam gha) listOpts n →
  (n < fuel)%nat →
  ∃ v', checkLoop fuel gha client listOpts v = LoopDone v'
        ∧ resolvedReadWrite gha v'
        ∧ sess_ID (v_session v') = sess_ID (v_session v).
Proof.
  intros Hreach. revert fuel v.
  induction Hreach as [listOpts ghTeams response Hpage Hrw
                      |listOpts ghTeams response n Hpage Hnext Hreach IH];
    intros [|fuel] v Hfuel; try lia; cbn [checkLoop]; rewrite Hpage.
  - pose proof (scanTeams_read_write gha ghTeams v Hrw) as Hbrk.
    destruct (scanTeams gha ghTeams v) as [v1 brk] eqn:Hscan. cbn in Hbrk. subst brk.
    exists v1. split; [done|]. by apply scanTeams_break in Hscan.
  - destruct (scanTeams gha ghTeams v) as [v1 [|]] eqn:Hscan.
    + exists v1. split; [done|]. by apply scanTeams_break in Hscan.
    + rewrite bool_decide_eq_false_2 by done.
      destruct (IH fuel v1) as (v' & Hloop & Hres & Hid); [lia|].
      exists v'. split; [done|]. split; [done|].
      rewrite Hid. by apply scanTeams_no_break in Hscan.
Qed.

(** C4. A caller whose pages of team memberships, followed from the first
    one, reach a team of the read-write list is resolved to "rw" whatever
    came before it, read-only matches included: the dance returns, the
    session's access level is "rw", and, when a tier identifier is
    configured, the dance succeeds and inserts the session under that
    read-write team. *)
Theorem read_write_team_wins fuel gha c oauthClient client username n :
  newGithubClient gha oauthClient = Some client →
  Users_Get client = Some {| User_Login := Some username |} →
  reachesPage client (listsReadWriteTeam gha) {| Page := 1; PerPage := 50 |} n →
  (n < fuel)%nat →
  ∃ gha' c' replied,
    doLoginDance fuel gha c oauthClient = Some (gha', c', replied)
    ∧ SessionGet (session c') "accesslevel" = Some "rw"
    ∧ (defaultTeamID gha ≠ "" →
       replied = false
       ∧ SessionGet (session c') "teamID" = Some (defaultTeamID gha)
       ∧ ∃ login name,
           makeTeamName login name ∈ readWriteTeams gha
           ∧ gha' = addSessionID gha username (sess_ID (session c))
                      {| td_org := login; td_team := Some name |}).
Proof.
  intros Hclient Huser Hreach Hfuel.
  unfold doLoginDance, doLoginDanceBody. rewrite Hclient, Huser. cbn [User_Login].
  unfold matchTeamsAndOrgs. cbv zeta.
  edestruct (checkLoop_read_write fuel gha client) as (v' & -> & Hres & Hid); [done..|].
  cbn [v_session] in Hid.
  destruct Hres as (Hrw & Hlevel & HteamID & login & name & Hdata & Hin).
  rewrite Hrw. cbn [negb].
  case_bool_decide as Hempty.
  - unfold cleanupSession. cbn [session withSession].
    destruct (SessionGet (v_session v') "username");
      (do 3 eexists; split; [done|]; split; [done|]);
      intros Hdflt; by rewrite <- HteamID in Hdflt.
  - unfold sessionSave. cbn [session withSession].
    destruct (SaveSession _);
      (do 3 eexists; split; [done|]; split;
       [cbn; unfold SessionGet in *; cbn; by rewrite !lookup_insert_ne by done|]);
      intros _; (split; [done|]); (split;
       [cbn; unfold SessionGet; cbn; rewrite lookup_insert_ne by done;
        rewrite lookup_insert_eq; by rewrite HteamID|]);
      exists login, name; (split; [done|]); cbn; by rewrite Hid, Hdata.
Qed.
End team_scan.

(** ** Webhooks *)

Lemma sliceFrom_Returned_length low s s' :
  sliceFrom low s = Returned s' → (low ≤ String.length s)%nat.
Proof.
  revert s. induction low as [|low IH]; intros s; cbn [sliceFrom]; [lia|].
  destruct s as [|a s]; [done|]. intros ?%IH. cbn. lia.
Qed.

Lemma sliceFrom_short low s :
  (String.length s < low)%nat → sliceFrom low s = Panicked.
Proof.
  revert s. induction low as [|low IH]; intros s; cbn [sliceFrom]; [lia|].
  destruct s as [|a s]; [done|]. cbn. intros ?. apply IH. lia.
Qed.

Section webhooks.
Context {order : RangeOrder} {ext : Externals}.

Lemma loginWebhook_verified gha c body :
  Body (request c) = Some body →
  sliceFrom 5 (HeaderGet c "X-Hub-Signature")
    = Returned (hmacSHA1Hex (webhookSecret gha) body) →
  HeaderGet c "X-Github-Event" = "team" →
  loginWebhook gha c = Returned (loginWebhookTeamEvent gha c body).
Proof.
  intros Hbody Hsig Hevent. unfold loginWebhook. cbv zeta.
  rewrite bool_decide_eq_false_2.
  2:{ apply sliceFrom_Returned_length in Hsig. lia. }
  rewrite Hbody, Hsig, Hevent.
  by rewrite bool_decide_eq_true_2 by done.
Qed.

(** C7. For a team event whose signature verifies: an "edited" event with a
    non-empty [changes.name.from] invalidates the sessions bound to the
    organization's team of that old name; an "edited" event without it
    changes neither the index nor the store and sends nothing; a "deleted"
    event invalidates on the team's current name. *)
Theorem team_event_invalidation gha c body payload :
  Body (request c) = Some body →
  sliceFrom 5 (HeaderGet c "X-Hub-Signature")
    = Returned (hmacSHA1Hex (webhookSecret gha) body) →
  HeaderGet c "X-Github-Event" = "team" →
  decodeTeam body = Some payload →
  let org := ghUser_Login (teamp_Org payload) in
  let from := From (changes_Name (teamp_Changes payload)) in
  let invalidate team :=
    Returned (destroySessions (stealSessionIDsForOrgAndTeam gha org team).2
                              (stealSessionIDsForOrgAndTeam gha org team).1, c) in
  (teamp_Action payload = "edited" → from ≠ "" → loginWebhook gha c = invalidate from)
  ∧ (teamp_Action payload = "edited" → from = "" → loginWebhook gha c = Returned (gha, c))
  ∧ (teamp_Action payload = "deleted" →
     loginWebhook gha c = invalidate (ghTeam_Name (teamp_Team payload))).
Proof.
  intros Hbody Hsig Hevent Hdecode org from invalidate.
  rewrite (loginWebhook_verified _ _ _ Hbody Hsig Hevent).
  unfold loginWebhookTeamEvent. rewrite Hdecode. cbv zeta. fold org from.
  subst invalidate. cbv beta.
  split; [|split].
  - intros -> Hfrom. repeat case_bool_decide; try done.
    by destruct (stealSessionIDsForOrgAndTeam gha org from).
  - intros -> Hfrom. by repeat case_bool_decide.
  - intros ->. repeat case_bool_decide; try done.
    by destruct (stealSessionIDsForOrgAndTeam gha org _).
Qed.

(** C10, as the code has it. A signature header of one to four bytes passes
    the emptiness test and, once the body is read, [signature[5:]] panics. *)
Theorem short_signature_panics gha c body :
  HeaderGet c "X-Hub-Signature" ≠ "" →
  (String.length (HeaderGet c "X-Hub-Signature") < 5)%nat →
  Body (request c) = Some body →
  loginWebhook gha c = Panicked.
Proof.
  intros Hne Hshort Hbody. unfold loginWebhook. cbv zeta.
  rewrite bool_decide_eq_false_2.
  2:{ destruct (HeaderGet c "X-Hub-Signature"); [done|]. cbn. lia. }
  rewrite Hbody. by rewrite sliceFrom_short.
Qed.

(** ** The request gate and the callback *)

Lemma cleanupSession_replies gha c : replies (cleanupSession gha c).2 = replies c.
Proof. unfold cleanupSession. by destruct (SessionGet (session c) "username"). Qed.

(** C8, as the code has it. With no tier in the session and an
    Authorization header that is present but does not split into exactly
    two fields or whose scheme is not "bearer", [Authenticate] cleans up
    the caller's session and replies 401; the dance is not entered, and the
    index is untouched when the session names no user. *)
Theorem malformed_authorization_unauthorized fuel gha c :
  SessionHas (session c) "teamID" = false →
  HeaderGet c "Authorization" ≠ "" →
  (length (strings_Fields (HeaderGet c "Authorization")) ≠ 2%nat
   ∨ strings_ToLower (strings_TrimSpace
       (default "" (strings_Fields (HeaderGet c "Authorization") !! 0%nat))) ≠ "bearer") →
  Authenticate fuel gha c
  = Some ((cleanupSession gha c).1,
          httpError (cleanupSession gha c).2 StatusUnauthorized, ("", true))
  ∧ replies (httpError (cleanupSession gha c).2 StatusUnauthorized)
    = replies c ++ [AbortWithStatus 401]
  ∧ (SessionGet (session c) "username" = None → (cleanupSession gha c).1 = gha).
Proof.
  intros Htier Hhdr Hbad. split; [|split].
  - unfold Authenticate. cbv zeta. rewrite Htier.
    rewrite bool_decide_eq_false_2 by done.
    destruct (cleanupSession gha c) as [gha1 c1].
    destruct Hbad as [Hlen|Hscheme].
    + by rewrite bool_decide_eq_true_2 by done.
    + case_bool_decide; [done|]. by rewrite bool_decide_eq_true_2 by done.
  - cbn [httpError send replies]. by rewrite cleanupSession_replies.
  - intros Hnone. unfold cleanupSession. by rewrite Hnone.
Qed.

(** C3, as the code has it. With a desired URL and a state in the session
    and another state in the request, [loginCb] returns with [result] still
    [resultInternalFailure]: it saves the session, cleans it up and replies
    500; it sends no 401. *)
Theorem state_mismatch_internal_failure fuel gha c desiredURL expectedState :
  SessionGet (session c) "desiredurl" = Some desiredURL →
  SessionGet (session c) "state" = Some expectedState →
  expectedState ≠ FormValue c "state" →
  loginCb fuel gha c
  = Some ((cleanupSession gha (sessionSave c)).1,
          httpError (cleanupSession gha (sessionSave c)).2 StatusInternalServerError)
  ∧ ∃ sent,
      replies (httpError (cleanupSession gha (sessionSave c)).2 StatusInternalServerError)
      = replies c ++ sent ++ [AbortWithStatus 500]
      ∧ AbortWithStatus 401 ∉ sent.
Proof.
  intros Hurl Hstate Hne. split.
  - unfold loginCb, loginCbBody. rewrite Hurl, Hstate. cbv zeta.
    rewrite bool_decide_eq_true_2 by done.
    by destruct (cleanupSession gha (sessionSave c)).
  - cbn [httpError send replies]. rewrite cleanupSession_replies.
    unfold sessionSave. destruct (SaveSession (session c)).
    + exists []. split; [done|by apply not_elem_of_nil].
    + exists [AbortWithStatus 500]. split.
      * cbn. by rewrite <- app_assoc.
      * by intros [=]%list_elem_of_singleton.
Qed.
End webhooks.

(** ** The two-way invariant of the index *)

Lemma NewGithubAuthenticator_consistent url secret rw ro dflt :
  indexConsistent (NewGithubAuthenticator url secret rw ro dflt).
Proof.
  split.
  - intros u sid td t (m & Hm & _). cbn in Hm. by rewrite lookup_empty in Hm.
  - intros tn u (s & Hs & _). cbn in Hs. by rewrite lookup_empty in Hs.
Qed.

(** C1, as the code has it. From the empty index, inserting alice's
    session sess1 bound to acme/infra and inserting the same session again
    bound to acme/ops leaves alice in the set of acme/infra although her
    only entry is bound to acme/ops: the index is not consistent. *)
Theorem reinsert_leaves_orphan :
  let gha1 := addSessionID exampleAuth "alice" "sess1"
                {| td_org := "acme"; td_team := Some "infra" |} in
  let gha2 := addSessionID gha1 "alice" "sess1"
                {| td_org := "acme"; td_team := Some "ops" |} in
  indexConsistent exampleAuth
  ∧ userSessionIDs gha2 !! "alice"
    = Some {["sess1" := {| td_org := "acme"; td_team := Some "ops" |}]}
  ∧ teamToUsers gha2 !! "acme/infra" = Some {["alice"]}
  ∧ ¬ indexConsistent gha2.
Proof.
  intros gha1 gha2.
  assert (userSessionIDs gha2 !! "alice"
          = Some {["sess1" := {| td_org := "acme"; td_team := Some "ops" |}]}) as Hu
    by (vm_compute; reflexivity).
  assert (teamToUsers gha2 !! "acme/infra" = Some {["alice"]}) as Ht
    by (vm_compute; reflexivity).
  split; [apply NewGithubAuthenticator_consistent|]. split; [done|]. split; [done|].
  intros [_ Hback].
  destruct (Hback "acme/infra" "alice") as (sid & td & t & (m & Hm & Hsid) & Hteam & Hname).
  { exists {["alice"]}. split; [done|]. by apply elem_of_singleton. }
  rewrite Hu in Hm. injection Hm as <-.
  apply lookup_singleton_Some in Hsid as [_ <-].
  cbn in Hteam. injection Hteam as <-. by vm_compute in Hname.
Qed.

(** The other way round: of two sessions of alice bound to acme/infra,
    cleaning up one takes her out of the team's set, and the deletion of the
    team then finds no session to invalidate. *)
Lemma cleanup_forgets_second_session :
  let gha2 := addSessionID
                (addSessionID exampleAuth "alice" "sess1"
                   {| td_org := "acme"; td_team := Some "infra" |})
                "alice" "sess2" {| td_org := "acme"; td_team := Some "infra" |} in
  let gha3 := cleanupSessionLocked gha2 "alice" "sess1" in
  userSessionIDs gha3 !! "alice"
  = Some {["sess2" := {| td_org := "acme"; td_team := Some "infra" |}]}
  ∧ teamToUsers gha3 !! "acme/infra" = None
  ∧ (stealSessionIDsForOrgAndTeam (order := canonicalOrder) gha3 "acme" "infra").1 = []
  ∧ ¬ indexConsistent gha3.
Proof.
  intros gha2 gha3.
  assert (userSessionIDs gha3 !! "alice"
          = Some {["sess2" := {| td_org := "acme"; td_team := Some "infra" |}]}) as Hu
    by (vm_compute; reflexivity).
  assert (teamToUsers gha3 !! "acme/infra" = None) as Ht by (vm_compute; reflexivity).
  split; [done|]. split; [done|]. split; [by vm_compute|].
  intros [Hfwd _].
  destruct (Hfwd "alice" "sess2" {| td_org := "acme"; td_team := Some "infra" |} "infra")
    as (s & Hs & _); [|done|].
  - eexists. split; [exact Hu|]. apply lookup_singleton_eq.
  - change (teamToUsers gha3 !! "acme/infra" = Some s) in Hs. by rewrite Ht in Hs.
Qed.

(** ** The organization scan *)

Section org_scan.
Context {ext : Externals}.

Lemma orgRoLoop_team gha name roTeams v :
  td_team (v_teamData (orgRoLoop gha name roTeams v)) = td_team (v_teamData v).
Proof.
  induction roTeams as [|roTeam roTeams IH]; cbn [orgRoLoop]; [done|].
  destruct (v_isRO v); [done|]. by case_bool_decide.
Qed.

Lemma orgRwLoop_team gha name rwTeams v :
  td_team (v_teamData (orgRwLoop gha name rwTeams v).1) = td_team (v_teamData v).
Proof.
  induction rwTeams as [|rwTeam rwTeams IH]; cbn [orgRwLoop]; [done|].
  by case_bool_decide.
Qed.

Lemma scanOrgs_team gha ghOrgs v :
  td_team (v_teamData (scanOrgs gha ghOrgs v).1) = td_team (v_teamData v).
Proof.
  revert v. induction ghOrgs as [|ghOrg ghOrgs IH]; intros v; cbn [scanOrgs]; [done|].
  assert (td_team (v_teamData (scanOrg gha ghOrg v).1) = td_team (v_teamData v)) as Hone.
  { unfold scanOrg. destruct (Organization_Login ghOrg); [|done].
    cbv zeta. by rewrite orgRwLoop_team, orgRoLoop_team. }
  destruct (scanOrg gha ghOrg v) as [v1 [|]]; [done|].
  by rewrite IH.
Qed.

(** The organization scan never writes the team of the binding: it ends
    with the team the team scan left there. *)
Lemma checkLoop2_team fuel gha client listOpts v v' :
  checkLoop2 fuel gha client listOpts v = LoopDone v' →
  td_team (v_teamData v') = td_team (v_teamData v).
Proof.
  revert listOpts v. induction fuel as [|fuel IH]; intros listOpts v; cbn [checkLoop2]; [done|].
  destruct (Organizations_List client listOpts) as [[ghOrgs response]|]; [|done].
  pose proof (scanOrgs_team gha ghOrgs v) as Hteam.
  destruct (scanOrgs gha ghOrgs v) as [v1 [|]]; cbn in Hteam.
  - by intros [= <-].
  - case_bool_decide; [by intros [= <-]|].
    intros ->%IH. done.
Qed.
End org_scan.

(** C5, as the code has it. carol is in the read-only team acme/readers
    and in the organization bigorg, which the read-write list names. The
    dance resolves "rw" from the organization scan and inserts her session
    bound to organization bigorg and team readers, not to the organization
    alone. *)
Theorem org_match_keeps_read_only_team :
  let provider := providerFor (Some "carol") [[namedTeam "acme" "readers"]] [[namedOrg "bigorg"]] in
  let c := exampleContext (exampleRequest "GET" ∅ ∅ None) "sess9" ∅ in
  ∃ gha' c',
    doLoginDance (ext := exampleExternals provider None) 5 exampleAuth c "token"
    = Some (gha', c', false)
    ∧ SessionGet (session c') "accesslevel" = Some "rw"
    ∧ userSessionIDs gha' !! "carol"
      = Some {["sess9" := {| td_org := "bigorg"; td_team := Some "readers" |}]}
    ∧ teamToUsers gha' !! "bigorg/readers" = Some {["carol"]}.
Proof.
  intros provider c. do 2 eexists. split; [by vm_compute|].
  split; [by vm_compute|]. split; by vm_compute.
Qed.

(** ** The theorems at work *)

(** C8 as the specification words it does not hold: a request with the
    header "Basic dXNlcjpwYXNz" is not answered 400. *)
Lemma malformed_authorization_not_bad_request :
  ¬ (∀ (ext : Externals) fuel gha c,
       SessionHas (session c) "teamID" = false →
       HeaderGet c "Authorization" ≠ "" →
       (length (strings_Fields (HeaderGet c "Authorization")) ≠ 2%nat
        ∨ strings_ToLower (strings_TrimSpace
            (default "" (strings_Fields (HeaderGet c "Authorization") !! 0%nat))) ≠ "bearer") →
       ∃ gha' c' result,
         Authenticate fuel gha c = Some (gha', c', result)
         ∧ replies c' = replies c ++ [AbortWithStatus StatusBadRequest]
         ∧ userSessionIDs gha' = userSessionIDs gha
         ∧ teamToUsers gha' = teamToUsers gha).
Proof.
  intros Hclaim.
  destruct (Hclaim (exampleExternals (providerFor None [] []) None) 1%nat exampleAuth
              (exampleContext
                 (exampleRequest "GET" {["Authorization" := "Basic dXNlcjpwYXNz"]} ∅ None)
                 "sess3" ∅))
    as (gha' & c' & result & Hrun & Hreplies & _).
  - by vm_compute.
  - by vm_compute.
  - right. by vm_compute.
  - vm_compute in Hrun. injection Hrun as _ <- _. by vm_compute in Hreplies.
Qed.

Lemma malformed_authorization_unauthorized_witness :
  let c := exampleContext
             (exampleRequest "GET" {["Authorization" := "Basic dXNlcjpwYXNz"]} ∅ None)
             "sess3" ∅ in
  let ext := exampleExternals (providerFor None [] []) None in
  HeaderGet c "Authorization" ≠ ""
  ∧ Authenticate (ext := ext) 1 exampleAuth c
    = Some ((cleanupSession exampleAuth c).1,
            httpError (cleanupSession exampleAuth c).2 StatusUnauthorized, ("", true))
  ∧ replies (httpError (cleanupSession exampleAuth c).2 StatusUnauthorized)
    = replies c ++ [AbortWithStatus 401]
  ∧ (SessionGet (session c) "username" = None → (cleanupSession exampleAuth c).1 = exampleAuth).
Proof.
  intros c ext. split; [by vm_compute|].
  apply (malformed_authorization_unauthorized (ext := ext) 1 exampleAuth c).
  - by vm_compute.
  - by vm_compute.
  - right. by vm_compute.
Defined.

Lemma state_mismatch_internal_failure_witness :
  let c := exampleContext
             (exampleRequest "GET" ∅ {["state" := "forged"; "code" := "4f1c"]} None)
             "sess4" {["desiredurl" := "/apps"; "state" := "q8Zr"]} in
  let ext := exampleExternals (providerFor None [] []) None in
  "q8Zr" ≠ FormValue c "state"
  ∧ loginCb (ext := ext) 1 exampleAuth c
    = Some (exampleAuth,
            {| request := request c;
               session := SessionMark (session c);
               replies := [AbortWithStatus 500] |}).
Proof.
  intros c ext. split; [by vm_compute|].
  destruct (state_mismatch_internal_failure (ext := ext) 1 exampleAuth c "/apps" "q8Zr")
    as [-> _].
  - by vm_compute.
  - by vm_compute.
  - by vm_compute.
  - by vm_compute.
Defined.

Lemma short_signature_panics_witness :
  let c := exampleContext
             (exampleRequest "POST" {["X-Hub-Signature" := "sha1"; "X-Github-Event" := "team"]}
                ∅ (Some "{}"))
             "" ∅ in
  (String.length (HeaderGet c "X-Hub-Signature") < 5)%nat
  ∧ loginWebhook (order := canonicalOrder)
      (ext := exampleExternals (providerFor None [] []) None) exampleAuth c
    = Panicked.
Proof.
  intros c. split; [vm_compute; lia|].
  apply (short_signature_panics (order := canonicalOrder) exampleAuth c "{}").
  - by vm_compute.
  - vm_compute. lia.
  - reflexivity.
Defined.

Lemma read_write_team_wins_witness :
  let client := providerFor (Some "carol")
                  [[namedTeam "acme" "readers"]; [namedTeam "acme" "admins"]] [] in
  let ext := exampleExternals client None in
  let c := exampleContext (exampleRequest "GET" ∅ ∅ None) "sess5" ∅ in
  reachesPage client (listsReadWriteTeam exampleAuth) {| Page := 1; PerPage := 50 |} 1
  ∧ ∃ gha' c' replied,
      doLoginDance (ext := ext) 2 exampleAuth c "token" = Some (gha', c', replied)
      ∧ SessionGet (session c') "accesslevel" = Some "rw"
      ∧ (defaultTeamID exampleAuth ≠ "" →
         replied = false
         ∧ SessionGet (session c') "teamID" = Some (defaultTeamID exampleAuth)
         ∧ ∃ login name,
             makeTeamName login name ∈ readWriteTeams exampleAuth
             ∧ gha' = addSessionID exampleAuth "carol" (sess_ID (session c))
                        {| td_org := login; td_team := Some name |}).
Proof.
  intros client ext c.
  assert (reachesPage client (listsReadWriteTeam exampleAuth)
            {| Page := 1; PerPage := 50 |} 1) as Hreach.
  { eapply reaches_next; [reflexivity | by vm_compute |].
    eapply reaches_here; [reflexivity|].
    exists "admins", "acme". split; [by left | by left]. }
  split; [exact Hreach|].
  apply (read_write_team_wins (ext := ext) 2 exampleAuth c "token" client "carol" 1).
  - reflexivity.
  - reflexivity.
  - exact Hreach.
  - lia.
Defined.

(** The same caller with the two pages in the other order. *)
Example read_write_team_first :
  let client := providerFor (Some "carol")
                  [[namedTeam "acme" "admins"]; [namedTeam "acme" "readers"]] [] in
  let c := exampleContext (exampleRequest "GET" ∅ ∅ None) "sess5" ∅ in
  ∃ gha' c',
    doLoginDance (ext := exampleExternals client None) 2 exampleAuth c "token"
    = Some (gha', c', false)
    ∧ SessionGet (session c') "accesslevel" = Some "rw"
    ∧ userSessionIDs gha' !! "carol"
      = Some {["sess5" := {| td_org := "acme"; td_team := Some "admins" |}]}.
Proof. intros client c. do 2 eexists. split; [by vm_compute|]. split; by vm_compute. Qed.

Lemma no_empty_collection_preserved_witness :
  let ops := [OpAddSessionID "alice" "sess1" {| td_org := "acme"; td_team := Some "infra" |};
              OpAddSessionID "bob" "sess2" {| td_org := "acme"; td_team := None |};
              OpCleanupSession "alice" "sess1";
              OpStealUserOrg "bob" "acme"] in
  noEmptyCollection exampleAuth
  ∧ noEmptyCollection (runOps (order := canonicalOrder) ops exampleAuth)
  ∧ userSessionIDs (runOps (order := canonicalOrder) ops exampleAuth) = ∅
  ∧ teamToUsers (runOps (order := canonicalOrder) ops exampleAuth) = ∅.
Proof.
  intros ops.
  assert (noEmptyCollection exampleAuth) as Hstart.
  { split; intros k v Hk; vm_compute in Hk; discriminate. }
  split; [exact Hstart|]. split.
  - apply (no_empty_collection_preserved (order := canonicalOrder) ops exampleAuth Hstart).
  - split; by vm_compute.
Defined.

Lemma team_event_invalidation_witness :
  let gha := addSessionID
               (addSessionID exampleAuth "alice" "sess1"
                  {| td_org := "acme"; td_team := Some "infra-old" |})
               "bob" "sess2" {| td_org := "acme"; td_team := Some "infra" |} in
  let payload := {| teamp_Action := "edited";
                    teamp_Changes := {| changes_Name := {| From := "infra-old" |} |};
                    teamp_Team := {| ghTeam_Name := "infra" |};
                    teamp_Org := {| ghUser_Login := "acme" |} |} in
  let ext := exampleExternals (providerFor None [] []) (Some payload) in
  let c := exampleContext
             (exampleRequest "POST"
                {["X-Hub-Signature" := "sha1=a94a8fe5ccb19ba61c4c0873d391e987982fbbd3";
                  "X-Github-Event" := "team"]} ∅ (Some "{...}"))
             "" ∅ in
  From (changes_Name (teamp_Changes payload)) ≠ ""
  ∧ loginWebhook (order := canonicalOrder) (ext := ext) gha c
    = Returned
        (destroySessions
           (stealSessionIDsForOrgAndTeam (order := canonicalOrder) gha "acme" "infra-old").2
           (stealSessionIDsForOrgAndTeam (order := canonicalOrder) gha "acme" "infra-old").1, c)
  ∧ (stealSessionIDsForOrgAndTeam (order := canonicalOrder) gha "acme" "infra-old").1 = ["sess1"].
Proof.
  intros gha payload ext c. split; [by vm_compute|]. split; [|by vm_compute].
  destruct (team_event_invalidation (order := canonicalOrder) (ext := ext) gha c "{...}" payload)
    as [Hedited _].
  - reflexivity.
  - by vm_compute.
  - by vm_compute.
  - reflexivity.
  - apply Hedited; [reflexivity | by vm_compute].
Defined.

(** The scenarios of the specification. *)

Example scenario_A :
  let gha := addSessionID exampleAuth "alice" "sess1"
               {| td_org := "acme"; td_team := Some "infra" |} in
  (stealSessionIDsForOrgAndTeam (order := canonicalOrder) gha "acme" "infra").1 = ["sess1"]
  ∧ (stealSessionIDsForOrgAndTeam (order := canonicalOrder) gha "acme" "infra").2 = exampleAuth.
Proof. split; by vm_compute. Qed.

Example scenario_B :
  let gha := addSessionID
               (addSessionID exampleAuth "bob" "sess1" {| td_org := "acme"; td_team := None |})
               "bob" "sess2" {| td_org := "acme"; td_team := Some "infra" |} in
  (stealUserSessionIDsForOrg (order := reversedOrder) gha "bob" "acme").1 = ["sess1"]
  ∧ userSessionIDs (stealUserSessionIDsForOrg (order := reversedOrder) gha "bob" "acme").2
      !! "bob"
    = Some {["sess2" := {| td_org := "acme"; td_team := Some "infra" |}]}.
Proof. split; by vm_compute. Qed.

(** * More of the index *)

(** ** The two maps under the shared blocks *)

Lemma boundTo_entryOf gha username sessionID teamData :
  boundTo gha username sessionID teamData
  ↔ entryOf (userSessionIDs gha) username sessionID teamData.
Proof. done. Qed.

Lemma teamMember_memberOf gha teamName username :
  teamMember gha teamName username ↔ memberOf (teamToUsers gha) teamName username.
Proof. done. Qed.

Lemma memberOf_dropUserFromTeam teamName username ttu teamName' username' :
  memberOf (dropUserFromTeam teamName username ttu) teamName' username'
  ↔ memberOf ttu teamName' username' ∧ ¬ (teamName' = teamName ∧ username' = username).
Proof.
  unfold dropUserFromTeam, memberOf.
  destruct (ttu !! teamName) as [users|] eqn:Hl.
  - cbv zeta. case_decide as Hsz.
    + apply size_empty_iff in Hsz. split.
      * intros (s & [Hne Hs]%lookup_delete_Some & Hin). split; [by exists s|].
        intros [-> _]. done.
      * intros [(s & Hs & Hin) Hnot].
        destruct (decide (teamName' = teamName)) as [->|Hne].
        -- rewrite Hl in Hs. injection Hs as <-.
           assert (username' ∈ users ∖ {[username]}) as Hin' by set_solver.
           rewrite Hsz in Hin'. set_solver.
        -- exists s. split; [|done]. by apply lookup_delete_Some.
    + split.
      * intros (s & [[<- <-]|[Hne Hs]]%lookup_insert_Some & Hin).
        -- apply elem_of_difference in Hin as [Hin Hother].
           split; [by exists users|]. intros [_ ->]. by apply Hother, elem_of_singleton.
        -- split; [by exists s|]. intros [-> _]. done.
      * intros [(s & Hs & Hin) Hnot].
        destruct (decide (teamName' = teamName)) as [->|Hne].
        -- rewrite Hl in Hs. injection Hs as <-.
           exists (users ∖ {[username]}). split; [apply lookup_insert_eq|].
           set_solver.
        -- exists s. split; [|done]. by rewrite lookup_insert_ne.
  - split.
    + intros (s & Hs & Hin). split; [by exists s|].
      intros [-> _]. by rewrite Hl in Hs.
    + by intros [? _].
Qed.

Lemma entryOf_dropSessions username m toDrop usm username' sessionID teamData :
  entryOf (dropSessions username m toDrop usm) username' sessionID teamData
  ↔ if decide (username' = username)
    then m !! sessionID = Some teamData ∧ sessionID ∉ toDrop
    else entryOf usm username' sessionID teamData.
Proof.
  unfold entryOf. case_decide as Hu.
  - subst username'. rewrite dropSessions_lookup. cbv zeta. split.
    + intros (m' & Hm' & Hs). case_decide; [done|]. injection Hm' as <-.
      rewrite lookup_foldl_delete in Hs. by case_decide.
    + intros [Hs Hnin].
      assert (foldl (λ m sid, delete sid m) m toDrop !! sessionID = Some teamData) as Hs'.
      { rewrite lookup_foldl_delete. by rewrite decide_False. }
      eexists. split; [|exact Hs'].
      rewrite decide_False; [done|].
      apply map_size_non_empty_iff. intros Hem. by rewrite Hem in Hs'.
  - by rewrite dropSessions_lookup_ne.
Qed.

Section drop_selected.
Context {order : RangeOrder}.
Context (Q : githubTeamData → Prop) `{!∀ teamData, Decision (Q teamData)}.

(** Dropping from a user's own map the entries a walk over it selected
    removes the user's entries that pass the test, and no other entry. *)
Lemma entryOf_drop_selected username m usm username' sessionID teamData :
  usm !! username = Some m →
  entryOf (dropSessions username m (selected Q (rangeSessions m)) usm)
          username' sessionID teamData
  ↔ entryOf usm username' sessionID teamData ∧ ¬ (username' = username ∧ Q teamData).
Proof.
  intros Hl. rewrite entryOf_dropSessions. case_decide as Hu.
  - subst username'. rewrite elem_of_selected. unfold entryOf. rewrite Hl. split.
    + intros [Hs Hnsel]. split; [by exists m|].
      intros [_ HQ]. apply Hnsel. exists teamData. split; [|done].
      by apply elem_of_rangeSessions.
    + intros [(m' & [= <-] & Hs) Hnot]. split; [done|].
      intros (td' & Hin & HQ). apply elem_of_rangeSessions in Hin.
      rewrite Hs in Hin. injection Hin as <-. by apply Hnot.
  - split; [|by intros [? _]]. intros He. split; [done|]. by intros [? _].
Qed.

Lemma elem_of_selected_entries username m usm sessionID :
  usm !! username = Some m →
  sessionID ∈ selected Q (rangeSessions m)
  ↔ ∃ teamData, entryOf usm username sessionID teamData ∧ Q teamData.
Proof.
  intros Hl. rewrite elem_of_selected. unfold entryOf. rewrite Hl. split.
  - intros (td & Hin%elem_of_rangeSessions & HQ). exists td. split; [by exists m|done].
  - intros (td & (m' & [= <-] & Hs) & HQ). exists td. split; [|done].
    by apply elem_of_rangeSessions.
Qed.
End drop_selected.

(** ** What the insert and the cleanup do to the two maps *)

Lemma githubAuth_ext (gha gha' : githubAuth) :
  enterpriseURL gha' = enterpriseURL gha →
  webhookSecret gha' = webhookSecret gha →
  sessionsStore gha' = sessionsStore gha →
  userSessionIDs gha' = userSessionIDs gha →
  teamToUsers gha' = teamToUsers gha →
  readWriteTeams gha' = readWriteTeams gha →
  readOnlyTeams gha' = readOnlyTeams gha →
  defaultTeamID gha' = defaultTeamID gha →
  gha' = gha.
Proof. destruct gha, gha'. cbn. by intros -> -> -> -> -> -> -> ->. Qed.

(** After [addSessionID] the index binds the pair to the given binding,
    keeps every other entry, and its team sets are those of before plus the
    user in the set of the binding's team. *)
Lemma addSessionID_maps gha username sessionID teamData :
  let gha' := addSessionID gha username sessionID teamData in
  (∀ u s td,
     boundTo gha' u s td
     ↔ (u = username ∧ s = sessionID ∧ td = teamData)
       ∨ (boundTo gha u s td ∧ ¬ (u = username ∧ s = sessionID)))
  ∧ (∀ teamName x,
       teamMember gha' teamName x
       ↔ teamMember gha teamName x ∨ (teamNameOf teamData = Some teamName ∧ x = username)).
Proof.
  intros gha'. split.
  - intros u s td.
    assert (userSessionIDs gha'
            = <[username := <[sessionID := teamData]>
                  (default ∅ (userSessionIDs gha !! username))]> (userSessionIDs gha)) as Hu.
    { subst gha'. unfold addSessionID. cbv zeta. by destruct (td_team teamData). }
    unfold boundTo. rewrite Hu. clear Hu gha'. split.
    + intros (m & [[<- <-]|[Hne Hm]]%lookup_insert_Some & Hs).
      * apply lookup_insert_Some in Hs as [[<- <-]|[Hne Hs]]; [by left|].
        right. split; [|by intros [_ ?]].
        destruct (userSessionIDs gha !! username) as [m0|]; [by exists m0|].
        cbn in Hs. by rewrite lookup_empty in Hs.
      * right. split; [by exists m|]. by intros [? _].
    + intros [(-> & -> & ->)|[(m & Hm & Hs) Hnot]].
      * eexists. split; [apply lookup_insert_eq|]. apply lookup_insert_eq.
      * destruct (decide (u = username)) as [->|Hne].
        -- eexists. split; [apply lookup_insert_eq|].
           rewrite Hm. cbn. rewrite lookup_insert_ne; [done|].
           intros <-. by apply Hnot.
        -- exists m. by rewrite lookup_insert_ne.
  - intros teamName x. subst gha'. unfold addSessionID, teamNameOf, teamMember. cbv zeta.
    destruct (td_team teamData) as [team|]; cbn [teamToUsers set_teamToUsers set_userSessionIDs].
    + split.
      * intros (s & [[<- <-]|[Hne Hs]]%lookup_insert_Some & Hin).
        -- apply elem_of_union in Hin as [->%elem_of_singleton|Hin]; [by right|].
           left. destruct (teamToUsers gha !! _) as [s0|] eqn:Hs0; [by exists s0|].
           by apply elem_of_empty in Hin.
        -- left. by exists s.
      * intros [(s & Hs & Hin)|[[= <-] ->]].
        -- destruct (decide (makeTeamName (td_org teamData) team = teamName)) as [<-|Hne].
           ++ eexists. split; [apply lookup_insert_eq|]. rewrite Hs. cbn. set_solver.
           ++ exists s. by rewrite lookup_insert_ne.
        -- eexists. split; [apply lookup_insert_eq|]. set_solver.
    + split; [by left|]. by intros [?|[? _]].
Qed.

Lemma cleanupSessionLocked_bound gha username sessionID m teamData :
  userSessionIDs gha !! username = Some m →
  m !! sessionID = Some teamData →
  userSessionIDs (cleanupSessionLocked gha username sessionID)
  = dropSessions username m [sessionID] (userSessionIDs gha)
  ∧ teamToUsers (cleanupSessionLocked gha username sessionID)
    = match teamNameOf teamData with
      | Some teamName => dropUserFromTeam teamName username (teamToUsers gha)
      | None => teamToUsers gha
      end.
Proof.
  intros Hm Hs. unfold cleanupSessionLocked, teamNameOf, dropSessions. rewrite Hm, Hs.
  cbv zeta. cbn [foldl].
  destruct (td_team teamData); case_decide; done.
Qed.

Lemma cleanupSessionLocked_unbound gha username sessionID :
  (∀ teamData, ¬ boundTo gha username sessionID teamData) →
  cleanupSessionLocked gha username sessionID = gha.
Proof.
  intros Hno. unfold cleanupSessionLocked.
  destruct (userSessionIDs gha !! username) as [m|] eqn:Hm; [|done].
  destruct (m !! sessionID) as [td|] eqn:Hs; [|done].
  exfalso. apply (Hno td). by exists m.
Qed.

(** [cleanupSession] on a pair takes exactly that entry out of the
    index and takes the user out of the set of the team the entry was bound
    to, whatever other sessions the user has; a pair that is not in the
    index changes nothing. *)
Lemma cleanupSessionLocked_maps gha username sessionID :
  let gha' := cleanupSessionLocked gha username sessionID in
  (∀ u s td,
     boundTo gha' u s td ↔ boundTo gha u s td ∧ ¬ (u = username ∧ s = sessionID))
  ∧ (∀ teamName x,
       teamMember gha' teamName x
       ↔ teamMember gha teamName x
         ∧ ¬ (x = username
              ∧ ∃ td, boundTo gha username sessionID td ∧ teamNameOf td = Some teamName))
  ∧ ((∀ td, ¬ boundTo gha username sessionID td) → gha' = gha).
Proof.
  intros gha'. split; [|split]; [| |apply cleanupSessionLocked_unbound].
  - intros u s td. subst gha'.
    destruct (userSessionIDs gha !! username) as [m|] eqn:Hm.
    2:{ unfold cleanupSessionLocked. rewrite Hm. split; [|by intros [? _]].
        intros Hb. split; [done|]. intros [-> _].
        destruct Hb as (m' & Hm' & _). by rewrite Hm in Hm'. }
    destruct (m !! sessionID) as [td0|] eqn:Hs.
    2:{ unfold cleanupSessionLocked. rewrite Hm, Hs. split; [|by intros [? _]].
        intros Hb. split; [done|]. intros [-> ->].
        destruct Hb as (m' & Hm' & Hs'). rewrite Hm in Hm'. injection Hm' as <-.
        by rewrite Hs in Hs'. }
    destruct (cleanupSessionLocked_bound _ _ _ _ _ Hm Hs) as [Hu _].
    rewrite !boundTo_entryOf, Hu, entryOf_dropSessions.
    case_decide as Heq.
    + subst u. unfold entryOf. rewrite Hm. split.
      * intros [Hs' Hnin]. split; [by exists m|]. intros [_ ->]. apply Hnin. by left.
      * intros [(m' & [= <-] & Hs') Hnot]. split; [done|].
        intros ->%list_elem_of_singleton. by apply Hnot.
    + split; [|by intros [? _]]. intros He. split; [done|]. by intros [? _].
  - intros teamName x. subst gha'.
    destruct (userSessionIDs gha !! username) as [m|] eqn:Hm.
    2:{ unfold cleanupSessionLocked. rewrite Hm. split; [|by intros [? _]].
        intros Hb. split; [done|]. intros [_ (td & (m' & Hm' & _) & _)].
        by rewrite Hm in Hm'. }
    destruct (m !! sessionID) as [td0|] eqn:Hs.
    2:{ unfold cleanupSessionLocked. rewrite Hm, Hs. split; [|by intros [? _]].
        intros Hb. split; [done|]. intros [_ (td & (m' & Hm' & Hs') & _)].
        rewrite Hm in Hm'. injection Hm' as <-. by rewrite Hs in Hs'. }
    destruct (cleanupSessionLocked_bound _ _ _ _ _ Hm Hs) as [_ Ht].
    rewrite !teamMember_memberOf, Ht.
    destruct (teamNameOf td0) as [tn0|] eqn:Htn.
    + rewrite memberOf_dropUserFromTeam. split.
      * intros [Hmem Hnot]. split; [done|].
        intros [-> (td & (m' & Hm' & Hs') & Htd)].
        rewrite Hm in Hm'. injection Hm' as <-. rewrite Hs in Hs'. injection Hs' as <-.
        rewrite Htn in Htd. injection Htd as <-. by apply Hnot.
      * intros [Hmem Hnot]. split; [done|]. intros [-> ->]. apply Hnot.
        split; [done|]. exists td0. split; [by exists m|done].
    + split; [|by intros [? _]]. intros Hmem. split; [done|].
      intros [_ (td & (m' & Hm' & Hs') & Htd)].
      rewrite Hm in Hm'. injection Hm' as <-. rewrite Hs in Hs'. injection Hs' as <-.
      by rewrite Htn in Htd.
Qed.

(** X3. Inserting a session for a pair the index does not hold, of a user
    who is not in the set of the binding's team, and cleaning that session
    up again gives back the index as it was, provided no key of it held an
    empty collection. *)
Theorem cleanup_after_add gha username sessionID teamData :
  noEmptyCollection gha →
  (∀ td, ¬ boundTo gha username sessionID td) →
  (∀ teamName, teamNameOf teamData = Some teamName → ¬ teamMember gha teamName username) →
  cleanupSessionLocked (addSessionID gha username sessionID teamData) username sessionID = gha.
Proof.
  intros [Hne Hnt] Hfresh Hout.
  set (m0 := default ∅ (userSessionIDs gha !! username)).
  assert (m0 !! sessionID = None) as Hm0.
  { subst m0. destruct (userSessionIDs gha !! username) as [m|] eqn:Hm; [|done].
    cbn. destruct (m !! sessionID) as [td|] eqn:Hs; [|done].
    exfalso. apply (Hfresh td). by exists m. }
  assert (userSessionIDs (addSessionID gha username sessionID teamData)
          = <[username := <[sessionID := teamData]> m0]> (userSessionIDs gha)) as Hu.
  { unfold addSessionID. cbv zeta. by destruct (td_team teamData). }
  edestruct (cleanupSessionLocked_bound (addSessionID gha username sessionID teamData)
               username sessionID) as [Hu' Ht'].
  { rewrite Hu. apply lookup_insert_eq. }
  { apply lookup_insert_eq. }
  assert (userSessionIDs
            (cleanupSessionLocked (addSessionID gha username sessionID teamData)
               username sessionID) = userSessionIDs gha) as Husers.
  { rewrite Hu', Hu. unfold dropSessions. cbn [foldl].
    rewrite delete_insert_id by done.
    case_decide as Hsz.
    - apply map_size_empty_iff in Hsz. rewrite delete_insert_eq.
      apply delete_id. subst m0.
      destruct (userSessionIDs gha !! username) as [m|] eqn:Hm; [|done].
      cbn in Hsz. by apply Hne in Hm.
    - rewrite insert_insert_eq. apply insert_id. subst m0.
      destruct (userSessionIDs gha !! username) as [m|] eqn:Hm; [done|].
      exfalso. apply Hsz. cbn. apply map_size_empty. }
  assert (teamToUsers
            (cleanupSessionLocked (addSessionID gha username sessionID teamData)
               username sessionID) = teamToUsers gha) as Hteams.
  { rewrite Ht'. unfold addSessionID, teamNameOf in *. cbv zeta.
    destruct (td_team teamData) as [team|]; [|done].
    cbn [teamToUsers set_teamToUsers set_userSessionIDs].
    set (tn := makeTeamName (td_org teamData) team).
    specialize (Hout tn eq_refl).
    unfold dropUserFromTeam. rewrite lookup_insert_eq. cbv zeta.
    assert (({[username]} ∪ default ∅ (teamToUsers gha !! tn)) ∖ {[username]}
            = default ∅ (teamToUsers gha !! tn)) as ->.
    { apply set_eq. intros x.
      rewrite elem_of_difference, elem_of_union, !elem_of_singleton. split.
      - intros [[->|Hin] Hne']; done.
      - intros Hin. split; [by right|]. intros ->. apply Hout.
        destruct (teamToUsers gha !! tn) as [s|] eqn:Hs; [by exists s|].
        by apply elem_of_empty in Hin. }
    case_decide as Hsz.
    - apply size_empty_iff in Hsz. rewrite delete_insert_eq. apply delete_id.
      destruct (teamToUsers gha !! tn) as [s|] eqn:Hs; [|done].
      cbn in Hsz. apply leibniz_equiv in Hsz. by apply Hnt in Hs.
    - rewrite insert_insert_eq. apply insert_id.
      destruct (teamToUsers gha !! tn) as [s|] eqn:Hs; [done|].
      exfalso. apply Hsz. cbn. apply size_empty. }
  apply githubAuth_ext; try done;
    unfold cleanupSessionLocked, addSessionID; cbv zeta;
    repeat (destruct (td_team _) || destruct (_ !! _) || case_decide); done.
Qed.

(** ** What the removal queries do to the two maps *)

Lemma collect_all_sessions username (l : list (string * githubTeamData))
    (ids : list string) (ttu : teamToUsersMap) :
  foldl (λ '(ids, ttu) '(sessionID, teamData),
           (ids ++ [sessionID],
            match td_team teamData with
            | Some team => dropUserFromTeam (makeTeamName (td_org teamData) team) username ttu
            | None => ttu
            end))
        (ids, ttu) l
  = (ids ++ l.*1,
     foldl (λ ttu e, match teamNameOf e.2 with
                     | Some teamName => dropUserFromTeam teamName username ttu
                     | None => ttu
                     end) ttu l).
Proof.
  revert ids ttu. induction l as [|[sid td] l IH]; intros ids ttu; cbn [foldl].
  - by rewrite app_nil_r.
  - rewrite IH. cbn [fmap list_fmap fst snd]. rewrite <- app_assoc.
    unfold teamNameOf. by destruct (td_team td).
Qed.

Lemma memberOf_drop_named {A : Type} (key : A → option string) username (l : list A)
    ttu teamName x :
  memberOf (foldl (λ ttu e, match key e with
                            | Some teamName => dropUserFromTeam teamName username ttu
                            | None => ttu
                            end) ttu l) teamName x
  ↔ memberOf ttu teamName x ∧ ¬ (x = username ∧ ∃ e, e ∈ l ∧ key e = Some teamName).
Proof.
  revert ttu. induction l as [|e l IH]; intros ttu; cbn [foldl].
  - split; [|by intros [? _]]. intros Hm. split; [done|].
    by intros [_ (e & ?%elem_of_nil & _)].
  - rewrite IH. destruct (key e) as [tn|] eqn:Hkey.
    + rewrite memberOf_dropUserFromTeam. split.
      * intros [[Hm Hnot] Hrest]. split; [done|].
        intros [-> (e' & [->|Hin]%elem_of_cons & Hk)].
        -- rewrite Hkey in Hk. injection Hk as ->. by apply Hnot.
        -- apply Hrest. split; [done|]. by exists e'.
      * intros [Hm Hnot]. split; [split; [done|]|].
        -- intros [-> ->]. apply Hnot. split; [done|]. exists e. split; [by left|done].
        -- intros [-> (e' & Hin & Hk)]. apply Hnot. split; [done|].
           exists e'. split; [by right|done].
    + split.
      * intros [Hm Hrest]. split; [done|].
        intros [-> (e' & [->|Hin]%elem_of_cons & Hk)]; [by rewrite Hkey in Hk|].
        apply Hrest. split; [done|]. by exists e'.
      * intros [Hm Hnot]. split; [done|].
        intros [-> (e' & Hin & Hk)]. apply Hnot. split; [done|].
        exists e'. split; [by right|done].
Qed.

Section query_specs.
Context {order : RangeOrder}.

Lemma stealUserSessionIDs_present gha username m :
  userSessionIDs gha !! username = Some m →
  stealUserSessionIDs gha username
  = ((rangeSessions m).*1,
     set_userSessionIDs
       (set_teamToUsers gha
          (foldl (λ ttu e, match teamNameOf e.2 with
                           | Some teamName => dropUserFromTeam teamName username ttu
                           | None => ttu
                           end) (teamToUsers gha) (rangeSessions m)))
       (delete username (userSessionIDs gha))).
Proof.
  intros Hl. unfold stealUserSessionIDs. rewrite Hl.
  by rewrite collect_all_sessions.
Qed.

(** [stealUserSessionIDs] returns, each once, exactly the ids of the
    user's sessions, leaves the user without any entry and the other users
    with theirs, and takes the user out of the set of every team one of
    those sessions was bound to; no other membership changes. *)
Lemma stealUserSessionIDs_maps gha username :
  let ids := (stealUserSessionIDs gha username).1 in
  let gha' := (stealUserSessionIDs gha username).2 in
  (∀ sessionID, sessionID ∈ ids ↔ ∃ td, boundTo gha username sessionID td)
  ∧ NoDup ids
  ∧ (∀ u s td, boundTo gha' u s td ↔ boundTo gha u s td ∧ u ≠ username)
  ∧ (∀ teamName x,
       teamMember gha' teamName x
       ↔ teamMember gha teamName x
         ∧ ¬ (x = username
              ∧ ∃ s td, boundTo gha username s td ∧ teamNameOf td = Some teamName)).
Proof.
  intros ids gha'. subst ids gha'.
  destruct (userSessionIDs gha !! username) as [m|] eqn:Hl.
  - rewrite (stealUserSessionIDs_present _ _ _ Hl). cbn [fst snd].
    split; [|split; [apply NoDup_rangeSessions|split]].
    + intros sid. rewrite list_elem_of_fmap. unfold boundTo. rewrite Hl. split.
      * intros ([sid' td] & -> & Hin%elem_of_rangeSessions). exists td. by exists m.
      * intros (td & m' & [= <-] & Hs). exists (sid, td). split; [done|].
        by apply elem_of_rangeSessions.
    + intros u s td. unfold boundTo. cbn [userSessionIDs set_userSessionIDs]. split.
      * intros (m' & [Hne Hm']%lookup_delete_Some & Hs). split; [by exists m'|done].
      * intros [(m' & Hm' & Hs) Hne]. exists m'. split; [|done].
        by apply lookup_delete_Some.
    + intros tn x. rewrite !teamMember_memberOf.
      cbn [teamToUsers set_teamToUsers set_userSessionIDs].
      rewrite (memberOf_drop_named (λ e, teamNameOf e.2)).
      apply and_iff_compat_l, not_iff_compat, and_iff_compat_l.
      unfold boundTo. rewrite Hl. split.
      * intros ([sid td] & Hin%elem_of_rangeSessions & Hk). exists sid, td.
        split; [by exists m|done].
      * intros (sid & td & (m' & [= <-] & Hs) & Hk). exists (sid, td).
        split; [by apply elem_of_rangeSessions|done].
  - rewrite stealUserSessionIDs_absent by done. cbn [fst snd].
    assert (∀ s td, ¬ boundTo gha username s td) as Hno.
    { intros s td (m' & Hm' & _). by rewrite Hl in Hm'. }
    split; [|split; [constructor|split]].
    + intros sid. split; [by intros ?%elem_of_nil|]. intros [td Hb]. by apply Hno in Hb.
    + intros u s td. split; [|by intros [? _]]. intros Hb. split; [done|].
      intros ->. by apply Hno in Hb.
    + intros tn x. split; [|by intros [? _]]. intros Hm. split; [done|].
      intros [_ (s & td & Hb & _)]. by apply Hno in Hb.
Qed.

(** [stealUserSessionIDsForOrgAndTeam] returns, each once, exactly the
    ids of the user's sessions bound to that team of that organization and
    removes exactly those entries; if there was one, the user leaves the set
    kept under the team's name, and no other membership changes. *)
Lemma stealUserSessionIDsForOrgAndTeam_maps gha username org team :
  let ids := (stealUserSessionIDsForOrgAndTeam gha username org team).1 in
  let gha' := (stealUserSessionIDsForOrgAndTeam gha username org team).2 in
  (∀ sessionID,
     sessionID ∈ ids ↔ ∃ td, boundTo gha username sessionID td ∧ teamBound org team td)
  ∧ NoDup ids
  ∧ (∀ u s td,
       boundTo gha' u s td ↔ boundTo gha u s td ∧ ¬ (u = username ∧ teamBound org team td))
  ∧ (∀ teamName x,
       teamMember gha' teamName x
       ↔ teamMember gha teamName x
         ∧ ¬ (x = username ∧ teamName = makeTeamName org team
              ∧ ∃ s td, boundTo gha username s td ∧ teamBound org team td)).
Proof.
  intros ids gha'. subst ids gha'.
  destruct (userSessionIDs gha !! username) as [m|] eqn:Hl.
  - rewrite (stealUserSessionIDsForOrgAndTeam_present _ _ _ _ _ Hl). cbv zeta. cbn [fst snd].
    split; [|split; [apply NoDup_selected, NoDup_rangeSessions|split]].
    + intros sid.
      exact (elem_of_selected_entries (λ td, td_org td = org ∧ td_team td = Some team)
               username m (userSessionIDs gha) sid Hl).
    + intros u s td.
      exact (entryOf_drop_selected (λ td, td_org td = org ∧ td_team td = Some team)
               username m (userSessionIDs gha) u s td Hl).
    + intros tn x. rewrite !teamMember_memberOf.
      cbn [teamToUsers set_teamToUsers set_userSessionIDs].
      pose proof (memberOf_drop_named
                    (λ e : string * githubTeamData, Some (makeTeamName (td_org e.2) team))
                    username
                    (filter (λ e, td_org e.2 = org ∧ td_team e.2 = Some team) (rangeSessions m))
                    (teamToUsers gha) tn x) as Hdrop.
      cbv beta iota in Hdrop. rewrite Hdrop. clear Hdrop.
      apply and_iff_compat_l, not_iff_compat, and_iff_compat_l.
      unfold boundTo. rewrite Hl. split.
      * intros ([sid td] & [[Horg Hteam] Hin%elem_of_rangeSessions]%list_elem_of_filter & Hk).
        cbn [snd] in *. injection Hk as <-. rewrite Horg. split; [done|].
        exists sid, td. split; [by exists m|done].
      * intros (-> & sid & td & (m' & [= <-] & Hs) & [Horg Hteam]). exists (sid, td).
        split; [|cbn; by rewrite Horg].
        apply list_elem_of_filter. split; [done|]. by apply elem_of_rangeSessions.
  - unfold stealUserSessionIDsForOrgAndTeam. rewrite Hl. cbn [fst snd].
    assert (∀ s td, ¬ boundTo gha username s td) as Hno.
    { intros s td (m' & Hm' & _). by rewrite Hl in Hm'. }
    split; [|split; [constructor|split]].
    + intros sid. split; [by intros ?%elem_of_nil|]. intros [td [Hb _]]. by apply Hno in Hb.
    + intros u s td. split; [|by intros [? _]]. intros Hb. split; [done|].
      intros [-> _]. by apply Hno in Hb.
    + intros tn x. split; [|by intros [? _]]. intros Hm. split; [done|].
      intros (_ & _ & s & td & Hb & _). by apply Hno in Hb.
Qed.

(** The walk of [stealSessionIDsForOrgAndTeam] over the users of a team. *)
Lemma steal_walk org team (users : list string) (ids : list string) (usm : userSessionMap) :
  let Q := λ td, td_org td = org ∧ td_team td = Some team in
  let r := foldl (λ '(ids, usm) username,
                    match usm !! username with
                    | Some sessionIDsAndTeams =>
                        let '(ids, toDrop) :=
                          foldl (λ '(ids, toDrop) '(sessionID, teamData),
                                   if bool_decide (td_org teamData = org
                                                   ∧ td_team teamData = Some team)
                                   then (ids ++ [sessionID], toDrop ++ [sessionID])
                                   else (ids, toDrop))
                                (ids, []) (rangeSessions sessionIDsAndTeams) in
                        (ids, dropSessions username sessionIDsAndTeams toDrop usm)
                    | None => (ids, usm)
                    end) (ids, usm) users in
  (∀ sessionID,
     sessionID ∈ r.1
     ↔ sessionID ∈ ids ∨ ∃ u td, u ∈ users ∧ entryOf usm u sessionID td ∧ Q td)
  ∧ (∀ u s td, entryOf r.2 u s td ↔ entryOf usm u s td ∧ ¬ (u ∈ users ∧ Q td)).
Proof.
  intros Q. revert ids usm.
  induction users as [|username users IH]; intros ids usm r; subst r; cbn [foldl].
  - cbn [fst snd]. split.
    + intros sid. split; [by left|]. intros [?|(u & td & ?%elem_of_nil & _)]; done.
    + intros u s td. split; [|by intros [? _]]. intros He. split; [done|].
      by intros [?%elem_of_nil _].
  - rewrite stealSessionIDsForOrgAndTeam_turn. fold Q.
    destruct (usm !! username) as [m|] eqn:Hl.
    + destruct (IH (ids ++ selected Q (rangeSessions m))
                   (dropSessions username m (selected Q (rangeSessions m)) usm))
        as [Hids Hent].
      split.
      * intros sid. rewrite Hids, elem_of_app.
        rewrite (elem_of_selected_entries Q username m usm sid Hl). split.
        -- intros [[Hin|(td & He & HQ)]|(u & td & Hin & He & HQ)].
           ++ by left.
           ++ right. exists username, td. split; [by left|done].
           ++ apply (entryOf_drop_selected Q username m usm u sid td Hl) in He as [He _].
              right. exists u, td. split; [by right|done].
        -- intros [Hin|(u & td & [->|Hin]%elem_of_cons & He & HQ)].
           ++ by left; left.
           ++ left; right. by exists td.
           ++ destruct (decide (u = username)) as [->|Hne].
              ** left; right. by exists td.
              ** right. exists u, td. split; [done|]. split; [|done].
                 apply (entryOf_drop_selected Q username m usm u sid td Hl).
                 split; [done|]. by intros [? _].
      * intros u s td. rewrite Hent.
        rewrite (entryOf_drop_selected Q username m usm u s td Hl). split.
        -- intros [[He Hnot] Hrest]. split; [done|].
           intros [[->|Hin]%elem_of_cons HQ]; [by apply Hnot|by apply Hrest].
        -- intros [He Hnot]. split; [split; [done|]|].
           ++ intros [-> HQ]. apply Hnot. split; [by left|done].
           ++ intros [Hin HQ]. apply Hnot. split; [by right|done].
    + destruct (IH ids usm) as [Hids Hent]. split.
      * intros sid. rewrite Hids. split.
        -- intros [?|(u & td & Hin & He & HQ)]; [by left|].
           right. exists u, td. split; [by right|done].
        -- intros [?|(u & td & [->|Hin]%elem_of_cons & He & HQ)]; [by left| |].
           ++ destruct He as (m' & Hm' & _). by rewrite Hl in Hm'.
           ++ right. by exists u, td.
      * intros u s td. rewrite Hent. split.
        -- intros [He Hnot]. split; [done|].
           intros [[->|Hin]%elem_of_cons HQ]; [|by apply Hnot].
           destruct He as (m' & Hm' & _). by rewrite Hl in Hm'.
        -- intros [He Hnot]. split; [done|]. intros [Hin HQ]. apply Hnot.
           split; [by right|done].
Qed.

(** [stealSessionIDsForOrgAndTeam] returns exactly the ids of the
    sessions bound to that team of that organization whose user is in the
    set kept under the team's name; it removes exactly those entries and the
    team's key, and no other membership changes. *)
Lemma stealSessionIDsForOrgAndTeam_maps gha org team :
  let teamName := makeTeamName org team in
  let ids := (stealSessionIDsForOrgAndTeam gha org team).1 in
  let gha' := (stealSessionIDsForOrgAndTeam gha org team).2 in
  (∀ sessionID,
     sessionID ∈ ids
     ↔ ∃ u td, teamMember gha teamName u ∧ boundTo gha u sessionID td ∧ teamBound org team td)
  ∧ (∀ u s td,
       boundTo gha' u s td
       ↔ boundTo gha u s td ∧ ¬ (teamMember gha teamName u ∧ teamBound org team td))
  ∧ (∀ teamName' x,
       teamMember gha' teamName' x ↔ teamMember gha teamName' x ∧ teamName' ≠ teamName).
Proof.
  intros teamName ids gha'.
  assert (∀ u, u ∈ rangeUsers (default ∅ (teamToUsers gha !! teamName))
               ↔ teamMember gha teamName u) as Husers.
  { intros u. rewrite elem_of_rangeUsers. unfold teamMember.
    destruct (teamToUsers gha !! teamName) as [s|]; cbn.
    - split; [intros ?; by exists s | by intros (s' & [= <-] & ?)].
    - split; [by intros ?%elem_of_empty | by intros (s' & ? & _)]. }
  pose proof (steal_walk org team (rangeUsers (default ∅ (teamToUsers gha !! teamName)))
                [] (userSessionIDs gha)) as Hwalk.
  cbv zeta in Hwalk.
  subst ids gha'. unfold stealSessionIDsForOrgAndTeam. cbv zeta. fold teamName.
  destruct (foldl _ _ _) as [ids usm]. cbn [fst snd] in *.
  destruct Hwalk as [Hids Hent]. split; [|split].
  - intros sid. rewrite Hids. split.
    + intros [?%elem_of_nil|(u & td & Hin & He & HQ)]; [done|].
      exists u, td. by rewrite <- Husers.
    + intros (u & td & Hin & He & HQ). right. exists u, td. by rewrite Husers.
  - intros u s td. rewrite boundTo_entryOf. cbn [userSessionIDs set_teamToUsers set_userSessionIDs].
    rewrite Hent, Husers. done.
  - intros tn' x. unfold teamMember. cbn [teamToUsers set_teamToUsers]. split.
    + intros (s & [Hne Hs]%lookup_delete_Some & Hin). split; [by exists s|done].
    + intros [(s & Hs & Hin) Hne]. exists s. split; [|done]. by apply lookup_delete_Some.
Qed.
End query_specs.

(** ** Team names as keys *)

Lemma makeTeamName_cons a org team :
  makeTeamName (String a org) team = String a (makeTeamName org team).
Proof. done. Qed.

Lemma makeTeamName_nil team : makeTeamName "" team = String "/" team.
Proof. done. Qed.

Lemma makeTeamName_inj org team org' team' :
  slashFree org → slashFree org' →
  makeTeamName org team = makeTeamName org' team' →
  org = org' ∧ team = team'.
Proof.
  revert org'. induction org as [|a org IH]; intros [|a' org'] Hfree Hfree' Heq.
  - rewrite !makeTeamName_nil in Heq. by injection Heq as ->.
  - rewrite makeTeamName_cons, makeTeamName_nil in Heq.
    injection Heq as <- _. by destruct Hfree' as [? _].
  - rewrite makeTeamName_cons, makeTeamName_nil in Heq.
    injection Heq as -> _. by destruct Hfree as [? _].
  - rewrite !makeTeamName_cons in Heq. injection Heq as -> Heq.
    destruct Hfree as [_ Hfree], Hfree' as [_ Hfree'].
    destruct (IH org' Hfree Hfree' Heq) as [-> ->]. done.
Qed.

(** X7. For organizations without "/" in their login, two pairs of
    organization and team stand under the same key of the team→users map
    exactly when they are the same pair. *)
Theorem makeTeamName_key org team org' team' :
  slashFree org → slashFree org' →
  makeTeamName org team = makeTeamName org' team' ↔ org = org' ∧ team = team'.
Proof.
  intros Hfree Hfree'. split.
  - by apply makeTeamName_inj.
  - by intros [-> ->].
Qed.

(** ** The two directions of the invariant, operation by operation *)

Section invariants.
Context {order : RangeOrder}.

Lemma stealUserSessionIDsForOrg_maps gha username org :
  let gha' := (stealUserSessionIDsForOrg gha username org).2 in
  (∀ u s td, boundTo gha' u s td ↔ boundTo gha u s td ∧ ¬ (u = username ∧ orgOnly org td))
  ∧ teamToUsers gha' = teamToUsers gha.
Proof.
  intros gha'. subst gha'.
  destruct (userSessionIDs gha !! username) as [m|] eqn:Hl.
  - rewrite (stealUserSessionIDsForOrg_present _ _ _ _ Hl). cbn [snd]. split; [|done].
    intros u s td.
    exact (entryOf_drop_selected (λ td, td_org td = org ∧ td_team td = None)
             username m (userSessionIDs gha) u s td Hl).
  - unfold stealUserSessionIDsForOrg. rewrite Hl. cbn [snd]. split; [|done].
    intros u s td. split; [|by intros [? _]]. intros Hb. split; [done|].
    intros [-> _]. destruct Hb as (m' & Hm' & _). by rewrite Hl in Hm'.
Qed.

Lemma teamNameOf_Some td teamName :
  teamNameOf td = Some teamName
  ↔ ∃ team, td_team td = Some team ∧ makeTeamName (td_org td) team = teamName.
Proof.
  unfold teamNameOf. destruct (td_team td) as [t|]; split.
  - intros [= <-]. by exists t.
  - by intros (t' & [= <-] & <-).
  - done.
  - by intros (t' & ? & _).
Qed.

(** No user stands in a team's set without a session bound to the team:
    each removing operation keeps that. *)
Lemma removal_teamsInSessions gha op :
  isRemoval op → teamsInSessions gha → teamsInSessions (applyOp gha op).
Proof.
  intros Hrem Hinv tn x Hmem.
  destruct op as [| username sessionID | username | username org
                  | username org team | org team]; [done|..]; cbn [applyOp] in *.
  - destruct (cleanupSessionLocked_maps gha username sessionID) as (Hent & Hmems & _).
    apply Hmems in Hmem as [Hmem Hnot].
    destruct (Hinv tn x Hmem) as (s & td & t & Hb & Ht & Hname).
    exists s, td, t. split; [|done]. apply Hent. split; [done|].
    intros [-> ->]. apply Hnot. split; [done|]. exists td. split; [done|].
    apply teamNameOf_Some. by exists t.
  - destruct (stealUserSessionIDs_maps gha username) as (_ & _ & Hent & Hmems).
    apply Hmems in Hmem as [Hmem Hnot].
    destruct (Hinv tn x Hmem) as (s & td & t & Hb & Ht & Hname).
    exists s, td, t. split; [|done]. apply Hent. split; [done|].
    intros ->. apply Hnot. split; [done|]. exists s, td. split; [done|].
    apply teamNameOf_Some. by exists t.
  - destruct (stealUserSessionIDsForOrg_maps gha username org) as [Hent Hteams].
    unfold teamMember in Hmem. rewrite Hteams in Hmem.
    destruct (Hinv tn x Hmem) as (s & td & t & Hb & Ht & Hname).
    exists s, td, t. split; [|done]. apply Hent. split; [done|].
    intros [_ [_ Hnone]]. by rewrite Ht in Hnone.
  - destruct (stealUserSessionIDsForOrgAndTeam_maps gha username org team)
      as (_ & _ & Hent & Hmems).
    apply Hmems in Hmem as [Hmem Hnot].
    destruct (Hinv tn x Hmem) as (s & td & t & Hb & Ht & Hname).
    exists s, td, t. split; [|done]. apply Hent. split; [done|].
    intros [-> [Horg Hteam]]. apply Hnot. split; [done|].
    rewrite Ht in Hteam. injection Hteam as ->. subst org.
    split; [done|]. exists s, td. by split.
  - destruct (stealSessionIDsForOrgAndTeam_maps gha org team) as (_ & Hent & Hmems).
    apply Hmems in Hmem as [Hmem Hne].
    destruct (Hinv tn x Hmem) as (s & td & t & Hb & Ht & Hname).
    exists s, td, t. split; [|done]. apply Hent. split; [done|].
    intros [_ [Horg Hteam]]. apply Hne.
    rewrite Ht in Hteam. injection Hteam as ->. by subst org.
Qed.

(** X8. Cleanups and removal queries, in any number and order, never leave
    a user in a team's set without a session bound to that team, if there
    was none to begin with. *)
Theorem removals_keep_teams_in_sessions ops gha :
  Forall isRemoval ops → teamsInSessions gha → teamsInSessions (runOps ops gha).
Proof.
  unfold runOps. revert gha.
  induction ops as [|op ops IH]; intros gha Hall Hinv; [done|].
  apply Forall_cons in Hall as [Hop Hall]. cbn [foldl].
  by apply IH, removal_teamsInSessions.
Qed.

Lemma addSessionID_sessionsInTeams gha username sessionID teamData :
  sessionsInTeams gha → sessionsInTeams (addSessionID gha username sessionID teamData).
Proof.
  intros Hfwd u s td t Hb Ht.
  destruct (addSessionID_maps gha username sessionID teamData) as [Hent Hmems].
  apply Hmems. apply Hent in Hb as [(-> & -> & ->)|[Hb _]].
  - right. split; [|done]. apply teamNameOf_Some. by exists t.
  - left. by eapply Hfwd.
Qed.

Lemma addSessionID_fresh_teamsInSessions gha username sessionID teamData :
  (∀ td, ¬ boundTo gha username sessionID td) →
  teamsInSessions gha → teamsInSessions (addSessionID gha username sessionID teamData).
Proof.
  intros Hfresh Hback tn x Hmem.
  destruct (addSessionID_maps gha username sessionID teamData) as [Hent Hmems].
  apply Hmems in Hmem as [Hmem|[Hname ->]].
  - destruct (Hback tn x Hmem) as (s & td & t & Hb & Ht & Hn).
    exists s, td, t. split; [|done]. apply Hent. right. split; [done|].
    intros [-> ->]. by apply Hfresh in Hb.
  - apply teamNameOf_Some in Hname as (t & Ht & Hn).
    exists sessionID, teamData, t. split; [|done]. apply Hent. by left.
Qed.

(** X9. Inserting a session for a pair the index does not hold yet keeps
    the index consistent in both directions. *)
Theorem addSessionID_fresh_consistent gha username sessionID teamData :
  (∀ td, ¬ boundTo gha username sessionID td) →
  indexConsistent gha →
  indexConsistent (addSessionID gha username sessionID teamData).
Proof.
  intros Hfresh [Hfwd Hback]. split.
  - by apply addSessionID_sessionsInTeams.
  - by apply addSessionID_fresh_teamsInSessions.
Qed.

Lemma applyOp_entries_slashFree gha op :
  opSlashFree op → slashFreeOrgs gha → slashFreeOrgs (applyOp gha op).
Proof.
  intros Hop Hfree u s td Hb.
  destruct op as [username sessionID teamData | username sessionID | username | username org
                  | username org team | org team]; cbn [applyOp opSlashFree] in *.
  - apply (addSessionID_maps gha username sessionID teamData) in Hb
      as [(_ & _ & ->)|[Hb _]]; [done|by eapply Hfree].
  - apply (cleanupSessionLocked_maps gha username sessionID) in Hb as [Hb _]. by eapply Hfree.
  - destruct (stealUserSessionIDs_maps gha username) as (_ & _ & Hent & _).
    apply Hent in Hb as [Hb _]. by eapply Hfree.
  - destruct (stealUserSessionIDsForOrg_maps gha username org) as [Hent _].
    apply Hent in Hb as [Hb _]. by eapply Hfree.
  - destruct (stealUserSessionIDsForOrgAndTeam_maps gha username org team)
      as (_ & _ & Hent & _).
    apply Hent in Hb as [Hb _]. by eapply Hfree.
  - destruct (stealSessionIDsForOrgAndTeam_maps gha org team) as (_ & Hent & _).
    apply Hent in Hb as [Hb _]. by eapply Hfree.
Qed.

Lemma runOps_slashFree ops gha :
  Forall opSlashFree ops → slashFreeOrgs gha → slashFreeOrgs (runOps ops gha).
Proof.
  unfold runOps. revert gha.
  induction ops as [|op ops IH]; intros gha Hops Hfree; [done|].
  apply Forall_cons in Hops as [Hop Hops]. cbn [foldl].
  by apply IH, applyOp_entries_slashFree.
Qed.

(** Every team-bound session has its user in the team's set: the insert
    and the four queries keep that, for organizations without "/". *)
Lemma applyOp_sessionsInTeams gha op :
  notCleanup op → opSlashFree op → slashFreeOrgs gha →
  sessionsInTeams gha → sessionsInTeams (applyOp gha op).
Proof.
  intros Hnc Hop Hfree Hinv u s td t Hb Ht.
  destruct op as [username sessionID teamData | username sessionID | username | username org
                  | username org team | org team]; [|done|..];
    cbn [applyOp opSlashFree] in *.
  - destruct (addSessionID_maps gha username sessionID teamData) as [Hent Hmems].
    apply Hmems. apply Hent in Hb as [(-> & -> & ->)|[Hb _]].
    + right. split; [|done]. apply teamNameOf_Some. by exists t.
    + left. by eapply Hinv.
  - destruct (stealUserSessionIDs_maps gha username) as (_ & _ & Hent & Hmems).
    apply Hent in Hb as [Hb Hne]. apply Hmems. split; [by eapply Hinv|].
    by intros [? _].
  - destruct (stealUserSessionIDsForOrg_maps gha username org) as [Hent Hteams].
    apply Hent in Hb as [Hb _]. unfold teamMember. rewrite Hteams. by eapply Hinv.
  - destruct (stealUserSessionIDsForOrgAndTeam_maps gha username org team)
      as (_ & _ & Hent & Hmems).
    apply Hent in Hb as [Hb Hnot]. apply Hmems. split; [by eapply Hinv|].
    intros (-> & Hname & _). apply Hnot. split; [done|].
    apply makeTeamName_inj in Hname as [<- <-]; [by split | by eapply Hfree | done].
  - destruct (stealSessionIDsForOrgAndTeam_maps gha org team) as (_ & Hent & Hmems).
    apply Hent in Hb as [Hb Hnot]. apply Hmems. split; [by eapply Hinv|].
    intros Hname. apply Hnot.
    apply makeTeamName_inj in Hname as [<- <-]; [| by eapply Hfree | done].
    split; [by eapply Hinv | by split].
Qed.

(** X10. Inserts and removal queries, in any number and order, keep every
    team-bound session's user in the set of its team, as long as the
    organizations they and the index name have no "/" in their login; the
    cleanup of a session is the one operation left out. *)
Theorem inserts_and_queries_keep_sessions_in_teams ops gha :
  Forall notCleanup ops → Forall opSlashFree ops →
  slashFreeOrgs gha → sessionsInTeams gha →
  sessionsInTeams (runOps ops gha).
Proof.
  unfold runOps. revert gha.
  induction ops as [|op ops IH]; intros gha Hnc Hops Hfree Hinv; [done|].
  apply Forall_cons in Hnc as [Hnc1 Hnc]. apply Forall_cons in Hops as [Hop Hops].
  cbn [foldl]. apply IH; [done..| |].
  - by apply applyOp_entries_slashFree.
  - by apply applyOp_sessionsInTeams.
Qed.

(** X11. In an index where every team-bound session has its user in the
    team's set, [stealSessionIDsForOrgAndTeam] returns the id of every
    session bound to that team of that organization, and none of them stays
    in the index. *)
Theorem stealSessionIDsForOrgAndTeam_complete gha org team u s td :
  sessionsInTeams gha →
  boundTo gha u s td → teamBound org team td →
  s ∈ (stealSessionIDsForOrgAndTeam gha org team).1
  ∧ ¬ boundTo (stealSessionIDsForOrgAndTeam gha org team).2 u s td.
Proof.
  intros Hinv Hb [Horg Hteam].
  destruct (stealSessionIDsForOrgAndTeam_maps gha org team) as (Hids & Hent & _).
  assert (teamMember gha (makeTeamName org team) u) as Hmem.
  { rewrite <- Horg. by eapply Hinv. }
  split.
  - apply Hids. exists u, td. by repeat split.
  - intros [_ Hnot]%Hent. apply Hnot. by repeat split.
Qed.
End invariants.

(** ** The operations of the index, each in full *)

Lemma addSessionID_outside gha username sessionID teamData :
  sameOutsideIndex gha (addSessionID gha username sessionID teamData).
Proof. unfold addSessionID. cbv zeta. by destruct (td_team teamData). Qed.

Lemma cleanupSessionLocked_outside gha username sessionID :
  sameOutsideIndex gha (cleanupSessionLocked gha username sessionID).
Proof.
  unfold cleanupSessionLocked.
  destruct (userSessionIDs gha !! username) as [m|]; [|done].
  destruct (m !! sessionID) as [td|]; [|done]. cbv zeta.
  by destruct (td_team td); case_decide.
Qed.

Section full_specs.
Context {order : RangeOrder}.

Lemma stealUserSessionIDs_outside gha username :
  sameOutsideIndex gha (stealUserSessionIDs gha username).2.
Proof.
  unfold stealUserSessionIDs.
  destruct (userSessionIDs gha !! username) as [m|]; [|done].
  by destruct (foldl _ _ _).
Qed.

Lemma stealUserSessionIDsForOrg_outside gha username org :
  sameOutsideIndex gha (stealUserSessionIDsForOrg gha username org).2.
Proof.
  unfold stealUserSessionIDsForOrg.
  destruct (userSessionIDs gha !! username) as [m|]; [|done].
  by destruct (foldl _ _ _).
Qed.

Lemma stealUserSessionIDsForOrgAndTeam_outside gha username org team :
  sameOutsideIndex gha (stealUserSessionIDsForOrgAndTeam gha username org team).2.
Proof.
  unfold stealUserSessionIDsForOrgAndTeam.
  destruct (userSessionIDs gha !! username) as [m|]; [|done].
  by destruct (foldl _ _ _) as [[? ?] ?].
Qed.

Lemma stealSessionIDsForOrgAndTeam_outside gha org team :
  sameOutsideIndex gha (stealSessionIDsForOrgAndTeam gha org team).2.
Proof. unfold stealSessionIDsForOrgAndTeam. cbv zeta. by destruct (foldl _ _ _). Qed.

(** X1. After [addSessionID] the index binds the pair to the given
    binding and keeps every other entry; its team sets are those of before
    plus the user in the set of the binding's team; configuration and
    session store are untouched. *)
Theorem addSessionID_spec gha username sessionID teamData :
  let gha' := addSessionID gha username sessionID teamData in
  (∀ u s td,
     boundTo gha' u s td
     ↔ (u = username ∧ s = sessionID ∧ td = teamData)
       ∨ (boundTo gha u s td ∧ ¬ (u = username ∧ s = sessionID)))
  ∧ (∀ teamName x,
       teamMember gha' teamName x
       ↔ teamMember gha teamName x ∨ (teamNameOf teamData = Some teamName ∧ x = username))
  ∧ sameOutsideIndex gha gha'.
Proof.
  intros gha'.
  destruct (addSessionID_maps gha username sessionID teamData) as [Hent Hmems].
  split; [exact Hent|]. split; [exact Hmems|].
  apply addSessionID_outside.
Qed.

(** X2. [cleanupSession] on a pair takes exactly that entry out of the
    index and takes the user out of the set of the team the entry was bound
    to, whatever other sessions the user has; a pair that is not in the
    index changes nothing; configuration and session store are untouched. *)
Theorem cleanupSessionLocked_spec gha username sessionID :
  let gha' := cleanupSessionLocked gha username sessionID in
  (∀ u s td,
     boundTo gha' u s td ↔ boundTo gha u s td ∧ ¬ (u = username ∧ s = sessionID))
  ∧ (∀ teamName x,
       teamMember gha' teamName x
       ↔ teamMember gha teamName x
         ∧ ¬ (x = username
              ∧ ∃ td, boundTo gha username sessionID td ∧ teamNameOf td = Some teamName))
  ∧ ((∀ td, ¬ boundTo gha username sessionID td) → gha' = gha)
  ∧ sameOutsideIndex gha gha'.
Proof.
  intros gha'.
  destruct (cleanupSessionLocked_maps gha username sessionID) as (Hent & Hmems & Hsame).
  split; [exact Hent|]. split; [exact Hmems|]. split; [exact Hsame|].
  apply cleanupSessionLocked_outside.
Qed.

(** X4. [stealUserSessionIDs] returns, each once, exactly the ids of the
    user's sessions, leaves the user without any entry and the other users
    with theirs, and takes the user out of the set of every team one of
    those sessions was bound to; no other membership changes, and
    configuration and session store are untouched. *)
Theorem stealUserSessionIDs_spec gha username :
  let ids := (stealUserSessionIDs gha username).1 in
  let gha' := (stealUserSessionIDs gha username).2 in
  (∀ sessionID, sessionID ∈ ids ↔ ∃ td, boundTo gha username sessionID td)
  ∧ NoDup ids
  ∧ (∀ u s td, boundTo gha' u s td ↔ boundTo gha u s td ∧ u ≠ username)
  ∧ (∀ teamName x,
       teamMember gha' teamName x
       ↔ teamMember gha teamName x
         ∧ ¬ (x = username
              ∧ ∃ s td, boundTo gha username s td ∧ teamNameOf td = Some teamName))
  ∧ sameOutsideIndex gha gha'.
Proof.
  intros ids gha'.
  destruct (stealUserSessionIDs_maps gha username) as (Hids & Hnd & Hent & Hmems).
  split; [exact Hids|]. split; [exact Hnd|]. split; [exact Hent|]. split; [exact Hmems|].
  apply stealUserSessionIDs_outside.
Qed.

(** X5. [stealUserSessionIDsForOrgAndTeam] returns, each once, exactly the
    ids of the user's sessions bound to that team of that organization and
    removes exactly those entries; if there was one, the user leaves the set
    kept under the team's name; no other membership changes, and
    configuration and session store are untouched. *)
Theorem stealUserSessionIDsForOrgAndTeam_spec gha username org team :
  let ids := (stealUserSessionIDsForOrgAndTeam gha username org team).1 in
  let gha' := (stealUserSessionIDsForOrgAndTeam gha username org team).2 in
  (∀ sessionID,
     sessionID ∈ ids ↔ ∃ td, boundTo gha username sessionID td ∧ teamBound org team td)
  ∧ NoDup ids
  ∧ (∀ u s td,
       boundTo gha' u s td ↔ boundTo gha u s td ∧ ¬ (u = username ∧ teamBound org team td))
  ∧ (∀ teamName x,
       teamMember gha' teamName x
       ↔ teamMember gha teamName x
         ∧ ¬ (x = username ∧ teamName = makeTeamName org team
              ∧ ∃ s td, boundTo gha username s td ∧ teamBound org team td))
  ∧ sameOutsideIndex gha gha'.
Proof.
  intros ids gha'.
  destruct (stealUserSessionIDsForOrgAndTeam_maps gha username org team)
    as (Hids & Hnd & Hent & Hmems).
  split; [exact Hids|]. split; [exact Hnd|]. split; [exact Hent|]. split; [exact Hmems|].
  apply stealUserSessionIDsForOrgAndTeam_outside.
Qed.

(** X6. [stealSessionIDsForOrgAndTeam] returns exactly the ids of the
    sessions bound to that team of that organization whose user is in the
    set kept under the team's name; it removes exactly those entries and the
    team's key; no other membership changes, and configuration and session
    store are untouched. *)
Theorem stealSessionIDsForOrgAndTeam_spec gha org team :
  let teamName := makeTeamName org team in
  let ids := (stealSessionIDsForOrgAndTeam gha org team).1 in
  let gha' := (stealSessionIDsForOrgAndTeam gha org team).2 in
  (∀ sessionID,
     sessionID ∈ ids
     ↔ ∃ u td, teamMember gha teamName u ∧ boundTo gha u sessionID td ∧ teamBound org team td)
  ∧ (∀ u s td,
       boundTo gha' u s td
       ↔ boundTo gha u s td ∧ ¬ (teamMember gha teamName u ∧ teamBound org team td))
  ∧ (∀ teamName' x,
       teamMember gha' teamName' x ↔ teamMember gha teamName' x ∧ teamName' ≠ teamName)
  ∧ sameOutsideIndex gha gha'.
Proof.
  intros teamName ids gha'.
  destruct (stealSessionIDsForOrgAndTeam_maps gha org team) as (Hids & Hent & Hmems).
  split; [exact Hids|]. split; [exact Hent|]. split; [exact Hmems|].
  apply stealSessionIDsForOrgAndTeam_outside.
Qed.
End full_specs.

(** * More of the login dance *)

(** ** What the scans keep *)

Section scans.
Context {ext : Externals}.

Lemma scanInvariant_match gha client s0 v td level :
  scanInvariant gha client s0 v →
  (level = "ro" ∧ listedIn client (readOnlyTeams gha)
   ∨ level = "rw" ∧ listedIn client (readWriteTeams gha)) →
  ∀ ro rw,
    scanInvariant gha client s0
      {| v_teamData := td; v_teamID := defaultTeamID gha; v_isRO := ro; v_isRW := rw;
         v_session := SessionSet (v_session v) "accesslevel" level |}.
Proof.
  intros (Hid & Hmark & Hkeys & _) Hlevel ro rw. repeat split; cbn; try done.
  - intros key Hkey. unfold SessionGet. cbn. rewrite lookup_insert_ne by done. by apply Hkeys.
  - right. split; [done|]. unfold levelJustified, SessionGet. cbn.
    rewrite lookup_insert_eq.
    destruct Hlevel as [[-> ?]|[-> ?]]; [by left | by right].
Qed.

Lemma teamRoLoop_invariant gha client s0 login name roTeams v :
  listedTeamIn client [makeTeamName login name] →
  roTeams ⊆ readOnlyTeams gha →
  scanInvariant gha client s0 v →
  scanInvariant gha client s0 (teamRoLoop gha (makeTeamName login name) login name roTeams v).
Proof.
  intros Hlisted. induction roTeams as [|roTeam roTeams IH]; intros Hsub Hinv;
    cbn [teamRoLoop]; [done|].
  destruct (v_isRO v); [done|]. case_bool_decide as Heq.
  - apply scanInvariant_match; [done|]. left. split; [done|]. left.
    destruct Hlisted as (lo & ts & r & t & o & n & l & Hp & Hin & Hn & Ho & Hl & Hname).
    apply list_elem_of_singleton in Hname.
    exists lo, ts, r, t, o, n, l. repeat split; try done.
    rewrite Hname, Heq. apply Hsub. by left.
  - apply IH; [|done]. intros x Hx. apply Hsub. by right.
Qed.

Lemma teamRwLoop_invariant gha client s0 login name rwTeams v :
  listedTeamIn client [makeTeamName login name] →
  rwTeams ⊆ readWriteTeams gha →
  scanInvariant gha client s0 v →
  scanInvariant gha client s0
    (teamRwLoop gha (makeTeamName login name) login name rwTeams v).1.
Proof.
  intros Hlisted. induction rwTeams as [|rwTeam rwTeams IH]; intros Hsub Hinv;
    cbn [teamRwLoop]; [done|].
  case_bool_decide as Heq.
  - apply scanInvariant_match; [done|]. right. split; [done|]. left.
    destruct Hlisted as (lo & ts & r & t & o & n & l & Hp & Hin & Hn & Ho & Hl & Hname).
    apply list_elem_of_singleton in Hname.
    exists lo, ts, r, t, o, n, l. repeat split; try done.
    rewrite Hname, Heq. apply Hsub. by left.
  - apply IH; [|done]. intros x Hx. apply Hsub. by right.
Qed.

Lemma scanTeam_invariant gha client s0 listOpts ghTeams response ghTeam v :
  Teams_ListUserTeams client listOpts = Some (ghTeams, response) →
  ghTeam ∈ ghTeams →
  scanInvariant gha client s0 v →
  scanInvariant gha client s0 (scanTeam gha ghTeam v).1.
Proof.
  intros Hpage Hin Hinv. unfold scanTeam.
  destruct (Team_Name ghTeam) as [name|] eqn:Hname; [|done].
  destruct (Team_Organization ghTeam) as [organization|] eqn:Horg; [|done].
  destruct (Organization_Login organization) as [login|] eqn:Hlogin; [|done].
  cbv zeta.
  assert (listedTeamIn client [makeTeamName login name]) as Hlisted.
  { exists listOpts, ghTeams, response, ghTeam, organization, name, login.
    repeat split; try done. by left. }
  apply teamRwLoop_invariant; [done..|].
  by apply teamRoLoop_invariant.
Qed.

Lemma scanTeams_invariant gha client s0 listOpts ghTeams response rest v :
  Teams_ListUserTeams client listOpts = Some (ghTeams, response) →
  rest ⊆ ghTeams →
  scanInvariant gha client s0 v →
  scanInvariant gha client s0 (scanTeams gha rest v).1.
Proof.
  intros Hpage. revert v. induction rest as [|ghTeam rest IH]; intros v Hsub Hinv;
    cbn [scanTeams]; [done|].
  assert (scanInvariant gha client s0 (scanTeam gha ghTeam v).1) as Hone.
  { eapply scanTeam_invariant; [done| |done]. apply Hsub. by left. }
  destruct (scanTeam gha ghTeam v) as [v1 [|]]; [done|].
  apply IH; [|done]. intros x Hx. apply Hsub. by right.
Qed.

Lemma checkLoop_invariant fuel gha client s0 listOpts v :
  scanInvariant gha client s0 v →
  match checkLoop fuel gha client listOpts v with
  | LoopDone v' | LoopErr v' => scanInvariant gha client s0 v'
  | LoopFuel => True
  end.
Proof.
  revert listOpts v. induction fuel as [|fuel IH]; intros listOpts v Hinv;
    cbn [checkLoop]; [done|].
  destruct (Teams_ListUserTeams client listOpts) as [[ghTeams response]|] eqn:Hpage; [|done].
  pose proof (scanTeams_invariant gha client s0 listOpts ghTeams response ghTeams v
                Hpage (λ x Hx, Hx) Hinv) as Hscan.
  destruct (scanTeams gha ghTeams v) as [v1 [|]]; [done|].
  case_bool_decide; [done|]. by apply IH.
Qed.

Lemma orgRoLoop_invariant gha client s0 login roTeams v :
  listedOrgIn client [login] →
  roTeams ⊆ readOnlyTeams gha →
  scanInvariant gha client s0 v →
  scanInvariant gha client s0 (orgRoLoop gha login roTeams v).
Proof.
  intros Hlisted. induction roTeams as [|roTeam roTeams IH]; intros Hsub Hinv;
    cbn [orgRoLoop]; [done|].
  destruct (v_isRO v); [done|]. case_bool_decide as Heq.
  - apply scanInvariant_match; [done|]. left. split; [done|]. right.
    destruct Hlisted as (lo & os & r & o & l & Hp & Hin & Hl & Hname).
    apply list_elem_of_singleton in Hname.
    exists lo, os, r, o, l. repeat split; try done.
    rewrite Hname, Heq. apply Hsub. by left.
  - apply IH; [|done]. intros x Hx. apply Hsub. by right.
Qed.

Lemma orgRwLoop_invariant gha client s0 login rwTeams v :
  listedOrgIn client [login] →
  rwTeams ⊆ readWriteTeams gha →
  scanInvariant gha client s0 v →
  scanInvariant gha client s0 (orgRwLoop gha login rwTeams v).1.
Proof.
  intros Hlisted. induction rwTeams as [|rwTeam rwTeams IH]; intros Hsub Hinv;
    cbn [orgRwLoop]; [done|].
  case_bool_decide as Heq.
  - apply scanInvariant_match; [done|]. right. split; [done|]. right.
    destruct Hlisted as (lo & os & r & o & l & Hp & Hin & Hl & Hname).
    apply list_elem_of_singleton in Hname.
    exists lo, os, r, o, l. repeat split; try done.
    rewrite Hname, Heq. apply Hsub. by left.
  - apply IH; [|done]. intros x Hx. apply Hsub. by right.
Qed.

Lemma scanOrgs_invariant gha client s0 listOpts ghOrgs response rest v :
  Organizations_List client listOpts = Some (ghOrgs, response) →
  rest ⊆ ghOrgs →
  scanInvariant gha client s0 v →
  scanInvariant gha client s0 (scanOrgs gha rest v).1.
Proof.
  intros Hpage. revert v. induction rest as [|ghOrg rest IH]; intros v Hsub Hinv;
    cbn [scanOrgs]; [done|].
  assert (scanInvariant gha client s0 (scanOrg gha ghOrg v).1) as Hone.
  { unfold scanOrg. destruct (Organization_Login ghOrg) as [login|] eqn:Hlogin; [|done].
    cbv zeta.
    assert (listedOrgIn client [login]) as Hlisted.
    { exists listOpts, ghOrgs, response, ghOrg, login. repeat split; try done.
      - apply Hsub. by left.
      - by left. }
    apply orgRwLoop_invariant; [done..|]. by apply orgRoLoop_invariant. }
  destruct (scanOrg gha ghOrg v) as [v1 [|]]; [done|].
  apply IH; [|done]. intros x Hx. apply Hsub. by right.
Qed.

Lemma checkLoop2_invariant fuel gha client s0 listOpts v :
  scanInvariant gha client s0 v →
  match checkLoop2 fuel gha client listOpts v with
  | LoopDone v' | LoopErr v' => scanInvariant gha client s0 v'
  | LoopFuel => True
  end.
Proof.
  revert listOpts v. induction fuel as [|fuel IH]; intros listOpts v Hinv;
    cbn [checkLoop2]; [done|].
  destruct (Organizations_List client listOpts) as [[ghOrgs response]|] eqn:Hpage; [|done].
  pose proof (scanOrgs_invariant gha client s0 listOpts ghOrgs response ghOrgs v
                Hpage (λ x Hx, Hx) Hinv) as Hscan.
  destruct (scanOrgs gha ghOrgs v) as [v1 [|]]; [done|].
  case_bool_decide; [done|]. by apply IH.
Qed.

Lemma matchTeamsAndOrgs_invariant fuel gha client s0 :
  match matchTeamsAndOrgs fuel gha client s0 with
  | LoopDone v' | LoopErr v' => scanInvariant gha client s0 v'
  | LoopFuel => True
  end.
Proof.
  unfold matchTeamsAndOrgs. cbv zeta.
  set (v0 := {| v_teamData := _ |}).
  assert (scanInvariant gha client s0 v0) as Hinv0 by (repeat split; by left).
  pose proof (checkLoop_invariant fuel gha client s0 {| Page := 1; PerPage := 50 |} v0 Hinv0)
    as Hteams.
  destruct (checkLoop fuel gha client _ v0) as [v1|v1|]; [|done..].
  destruct (negb (v_isRW v1)); [|done].
  by apply checkLoop2_invariant.
Qed.
End scans.

(** ** How the dance ends *)

Section dance_ends.
Context {ext : Externals}.

Lemma sessionSave_session c : session (sessionSave c) = session c.
Proof. unfold sessionSave. by destruct (SaveSession (session c)). Qed.

Lemma sessionSave_request c : request (sessionSave c) = request c.
Proof. unfold sessionSave. by destruct (SaveSession (session c)). Qed.

Lemma sessionSave_replies c :
  replies (sessionSave c)
  = replies c ++ (if SaveSession (session c) then [] else [AbortWithStatus 500]).
Proof. unfold sessionSave. destruct (SaveSession (session c)); [by rewrite app_nil_r|done]. Qed.

(** When the body of the dance returns with [resultOK]. *)
Lemma doLoginDanceBody_OK fuel gha c oauthClient gha' c' :
  doLoginDanceBody fuel gha c oauthClient = Some (resultOK, gha', c') →
  ∃ client ghUser username teamData,
    newGithubClient gha oauthClient = Some client
    ∧ Users_Get client = Some ghUser
    ∧ User_Login ghUser = Some username
    ∧ defaultTeamID gha ≠ ""
    ∧ request c' = request c
    ∧ sess_ID (session c') = sess_ID (session c)
    ∧ sess_marked (session c') = sess_marked (session c)
    ∧ SessionGet (session c') "teamID" = Some (defaultTeamID gha)
    ∧ SessionGet (session c') "username" = Some username
    ∧ levelJustified gha client (session c')
    ∧ gha' = addSessionID gha username (sess_ID (session c)) teamData
    ∧ replies c'
      = replies c ++ (if SaveSession (session c') then [] else [AbortWithStatus 500]).
Proof.
  unfold doLoginDanceBody.
  destruct (newGithubClient gha oauthClient) as [client|] eqn:Hclient; [|done].
  destruct (Users_Get client) as [ghUser|] eqn:Huser; [|done].
  destruct (User_Login ghUser) as [username|] eqn:Hlogin; [|done].
  pose proof (matchTeamsAndOrgs_invariant fuel gha client (session c)) as Hinv.
  destruct (matchTeamsAndOrgs fuel gha client (session c)) as [v|v|]; [|done..].
  cbv zeta. case_bool_decide as Hempty; [done|].
  intros [= <- <-].
  destruct Hinv as (Hid & Hmark & Hkeys & [Hnone|[HteamID Hlevel]]); [done|].
  exists client, ghUser, username, (v_teamData v).
  rewrite sessionSave_session, sessionSave_request, sessionSave_replies.
  cbn [session request replies withSession sess_ID sess_marked SessionSet].
  repeat split; try done.
  - by rewrite <- HteamID.
  - unfold SessionGet. cbn. rewrite lookup_insert_ne by done.
    rewrite lookup_insert_eq. by rewrite HteamID.
  - unfold SessionGet. cbn. apply lookup_insert_eq.
  - unfold levelJustified, SessionGet in *. cbn.
    by rewrite !lookup_insert_ne by done.
  - by rewrite Hid.
Qed.

(** When it returns with another result. *)
Lemma doLoginDanceBody_refused fuel gha c oauthClient result gha' c' :
  doLoginDanceBody fuel gha c oauthClient = Some (result, gha', c') →
  result ≠ resultOK →
  gha' = gha
  ∧ request c' = request c
  ∧ replies c' = replies c
  ∧ sess_ID (session c') = sess_ID (session c)
  ∧ sess_marked (session c') = sess_marked (session c)
  ∧ (∀ key, key ≠ "accesslevel" → SessionGet (session c') key = SessionGet (session c) key).
Proof.
  unfold doLoginDanceBody.
  destruct (newGithubClient gha oauthClient) as [client|]; [|by intros [= <- <- <-]].
  destruct (Users_Get client) as [ghUser|]; [|by intros [= <- <- <-]].
  destruct (User_Login ghUser) as [username|]; [|by intros [= <- <- <-]].
  pose proof (matchTeamsAndOrgs_invariant fuel gha client (session c)) as Hinv.
  destruct (matchTeamsAndOrgs fuel gha client (session c)) as [v|v|]; [| |done].
  - cbv zeta. case_bool_decide; [|by intros [= <- <- <-]].
    intros [= <- <- <-] _. by destruct Hinv as (? & ? & ? & _).
  - intros [= <- <- <-] _. by destruct Hinv as (? & ? & ? & _).
Qed.


(** X12. When the login dance succeeds, a tier identifier is configured
    and is now in the session with the provider's login as user name; the
    session's access level is "ro" or "rw" and a team or organization the
    provider listed for the caller stands in the read-only, respectively
    read-write list; the index is the one of before with the session
    inserted for that user, and nothing was sent but a 500 if saving the
    session failed. *)
Theorem doLoginDance_success fuel gha c oauthClient gha' c' :
  doLoginDance fuel gha c oauthClient = Some (gha', c', false) →
  ∃ client ghUser username teamData,
    newGithubClient gha oauthClient = Some client
    ∧ Users_Get client = Some ghUser
    ∧ User_Login ghUser = Some username
    ∧ defaultTeamID gha ≠ ""
    ∧ SessionGet (session c') "teamID" = Some (defaultTeamID gha)
    ∧ SessionGet (session c') "username" = Some username
    ∧ levelJustified gha client (session c')
    ∧ sess_ID (session c') = sess_ID (session c)
    ∧ gha' = addSessionID gha username (sess_ID (session c)) teamData
    ∧ replies c'
      = replies c ++ (if SaveSession (session c') then [] else [AbortWithStatus 500]).
Proof.
  unfold doLoginDance.
  destruct (doLoginDanceBody fuel gha c oauthClient) as [[[result gha1] c1]|] eqn:Hbody;
    [|done].
  destruct result.
  - intros [= <- <-].
    apply doLoginDanceBody_OK in Hbody
      as (client & ghUser & username & td & ? & ? & ? & ? & ? & ? & ? & ? & ? & ? & ? & ?).
    exists client, ghUser, username, td. by repeat split.
  - by destruct (cleanupSession gha1 c1).
  - done.
Qed.

(** X13. When the login dance fails it inserts nothing. Either it replies
    401, marks the session and cleans up the entry of the session's own
    user name, if it has one; or it replies 500 and leaves index and
    session mark as they were. The session keeps its id and every value but
    the access level. *)
Theorem doLoginDance_failure fuel gha c oauthClient gha' c' :
  doLoginDance fuel gha c oauthClient = Some (gha', c', true) →
  ((replies c' = replies c ++ [AbortWithStatus 401]
    ∧ sess_marked (session c') = true
    ∧ gha' = match SessionGet (session c) "username" with
             | Some username => cleanupSessionLocked gha username (sess_ID (session c))
             | None => gha
             end)
   ∨ (replies c' = replies c ++ [AbortWithStatus 500]
      ∧ sess_marked (session c') = sess_marked (session c)
      ∧ gha' = gha))
  ∧ sess_ID (session c') = sess_ID (session c)
  ∧ (∀ key, key ≠ "accesslevel" → SessionGet (session c') key = SessionGet (session c) key).
Proof.
  unfold doLoginDance.
  destruct (doLoginDanceBody fuel gha c oauthClient) as [[[result gha1] c1]|] eqn:Hbody;
    [|done].
  destruct result; [done| |].
  - apply doLoginDanceBody_refused in Hbody as (-> & Hreq & Hrep & Hid & Hmark & Hkeys);
      [|done].
    unfold cleanupSession. rewrite (Hkeys "username") by done. rewrite Hid.
    destruct (SessionGet (session c) "username") as [username|];
      intros [= <- <-]; cbn; rewrite Hrep; (split; [by left|done]).
  - apply doLoginDanceBody_refused in Hbody as (-> & Hreq & Hrep & Hid & Hmark & Hkeys);
      [|done].
    intros [= <- <-]. cbn. rewrite Hrep. split; [by right|done].
Qed.

(** X14. A caller for whom the provider lists no team and no organization
    of the read-only or the read-write list is never let in, however long
    the dance is run. *)
Theorem unlisted_caller_refused fuel gha c oauthClient client :
  newGithubClient gha oauthClient = Some client →
  ¬ listedIn client (readOnlyTeams gha) →
  ¬ listedIn client (readWriteTeams gha) →
  ∀ gha' c', doLoginDance fuel gha c oauthClient ≠ Some (gha', c', false).
Proof.
  intros Hclient Hro Hrw gha' c'. unfold doLoginDance.
  destruct (doLoginDanceBody fuel gha c oauthClient) as [[[result gha1] c1]|] eqn:Hbody;
    [|done].
  destruct result; [|by destruct (cleanupSession gha1 c1)|done].
  apply doLoginDanceBody_OK in Hbody
    as (client' & ghUser & username & td & Hclient' & _ & _ & _ & _ & _ & _ & _ & _ & Hlevel & _).
  rewrite Hclient in Hclient'. injection Hclient' as <-.
  by destruct Hlevel as [[_ ?]|[_ ?]].
Qed.
End dance_ends.

(** * More of the request gate and the callback *)

Section gate.
Context {ext : Externals}.

(** X15. A session that carries a tier is let through without any call to
    the provider, with the tier identifier it holds, unless it is not
    read-write and the method is neither GET nor HEAD: then the reply is 403.
    Index and session stay as they are. *)
Theorem Authenticate_with_tier fuel gha c teamID :
  SessionGet (session c) "teamID" = Some teamID →
  Authenticate fuel gha c
  = if bool_decide (SessionGet (session c) "accesslevel" = Some "rw"
                    ∨ Method (request c) = "HEAD" ∨ Method (request c) = "GET")
    then Some (gha, c, (teamID, false))
    else Some (gha, httpError c StatusForbidden, ("", true)).
Proof.
  intros Htier. unfold Authenticate. cbv zeta.
  unfold SessionHas. rewrite bool_decide_eq_true_2.
  2:{ unfold SessionGet in Htier. by rewrite Htier. }
  rewrite Htier. cbn [default].
  repeat case_bool_decide; cbn [andb]; try done; exfalso; tauto.
Qed.

(** X16. A request without tier and without Authorization header is sent
    to the provider: the session gets a fresh state and the URL asked for,
    the reply is a 307 to the authorization URL made from that same state,
    and the index is untouched. *)
Theorem Authenticate_redirects fuel gha c :
  SessionHas (session c) "teamID" = false →
  HeaderGet c "Authorization" = "" →
  ∃ c',
    Authenticate fuel gha c = Some (gha, c', ("", true))
    ∧ SessionGet (session c') "state" = Some (random_String 64)
    ∧ SessionGet (session c') "desiredurl" = Some (URL (request c))
    ∧ SessionHas (session c') "teamID" = false
    ∧ last (replies c')
      = Some (Redirect StatusTemporaryRedirect (AuthCodeURL (random_String 64))).
Proof.
  intros Htier Hhdr. unfold Authenticate. cbv zeta. rewrite Htier, Hhdr.
  rewrite bool_decide_eq_true_2 by done.
  eexists. split; [done|].
  cbn [redirectTo send session replies]. rewrite sessionSave_session.
  cbn [session withSession]. unfold SessionGet, SessionHas in *. cbn.
  split; [|split; [|split]].
  - rewrite lookup_insert_ne by done. apply lookup_insert_eq.
  - apply lookup_insert_eq.
  - apply bool_decide_eq_false in Htier. apply bool_decide_eq_false.
    by rewrite !lookup_insert_ne by done.
  - apply last_snoc.
Qed.


(** X18. Unless the session holds a desired URL and the very state the
    request presents, and the code of the request is exchanged for a valid
    token, [loginCb] does not enter the dance: it saves the session, cleans
    it up and replies 500. *)
Theorem loginCb_not_ready fuel gha c :
  (∀ desiredURL token, ¬ callbackReady c desiredURL token) →
  loginCb fuel gha c
  = Some ((cleanupSession gha (sessionSave c)).1,
          httpError (cleanupSession gha (sessionSave c)).2 StatusInternalServerError).
Proof.
  intros Hnot. unfold loginCb, loginCbBody.
  destruct (SessionGet (session c) "desiredurl") as [desiredURL|] eqn:Hurl;
    [|by destruct (cleanupSession gha (sessionSave c))].
  destruct (SessionGet (session c) "state") as [expectedState|] eqn:Hstate;
    [|by destruct (cleanupSession gha (sessionSave c))].
  cbv zeta. case_bool_decide as Hne;
    [by destruct (cleanupSession gha (sessionSave c))|].
  destruct (Exchange (FormValue c "code")) as [token|] eqn:Hex;
    [|by destruct (cleanupSession gha (sessionSave c))].
  destruct (Valid token) eqn:Hvalid;
    [|cbn [negb]; by destruct (cleanupSession gha (sessionSave c))].
  exfalso. apply (Hnot desiredURL token).
  unfold callbackReady. by rewrite Hurl, Hstate, Hne, Hex.
Qed.

(** X19. With all that in place [loginCb] is the dance run with the
    token's client followed by the saving of the session: after a dance that
    succeeds the caller is redirected, 307, to the desired URL of the
    session; after one that fails nothing is added to its reply. *)
Theorem loginCb_ready fuel gha c desiredURL token gha' c' replied :
  callbackReady c desiredURL token →
  doLoginDance fuel gha c (AccessToken token) = Some (gha', c', replied) →
  loginCb fuel gha c
  = Some (gha', sessionSave (if replied then c' else redirectTo c' desiredURL)).
Proof.
  intros (Hurl & Hstate & Hex & Hvalid) Hdance.
  unfold loginCb, loginCbBody. rewrite Hurl, Hstate. cbv zeta.
  rewrite bool_decide_eq_false_2 by (by intros ?).
  rewrite Hex, Hvalid. cbn [negb]. rewrite Hdance.
  by destruct replied.
Qed.
End gate.

(** * More of the webhooks *)

Lemma sliceFrom_app prefix s :
  sliceFrom (String.length prefix) (prefix +:+ s) = Returned s.
Proof. induction prefix as [|a prefix IH]; [done|]. exact IH. Qed.

Lemma destroySessions_store gha ids :
  sessionsStore (destroySessions gha ids) = sessionsStore gha ++ ids
  ∧ userSessionIDs (destroySessions gha ids) = userSessionIDs gha
  ∧ teamToUsers (destroySessions gha ids) = teamToUsers gha
  ∧ enterpriseURL (destroySessions gha ids) = enterpriseURL gha
  ∧ webhookSecret (destroySessions gha ids) = webhookSecret gha
  ∧ readWriteTeams (destroySessions gha ids) = readWriteTeams gha
  ∧ readOnlyTeams (destroySessions gha ids) = readOnlyTeams gha
  ∧ defaultTeamID (destroySessions gha ids) = defaultTeamID gha.
Proof.
  unfold destroySessions. revert gha.
  induction ids as [|sid ids IH]; intros gha; cbn [foldl].
  - by rewrite app_nil_r.
  - destruct (IH (MarkOrDestroySessionByID gha sid)) as (-> & -> & -> & -> & -> & -> & -> & ->).
    cbn. by rewrite <- app_assoc.
Qed.

Lemma invalidation_refl gha : invalidation gha gha.
Proof.
  repeat split; try done. exists []. split; [by rewrite app_nil_r|].
  by intros s ?%elem_of_nil.
Qed.

(** Handing to the store the ids a query returned, when the query only took
    entries out and returned ids of entries it took out. *)
Lemma invalidation_destroy gha ids gha1 :
  sameOutsideIndex gha gha1 →
  (∀ u s td, boundTo gha1 u s td → boundTo gha u s td) →
  (∀ teamName x, teamMember gha1 teamName x → teamMember gha teamName x) →
  (∀ s, s ∈ ids → ∃ u td, boundTo gha u s td ∧ ¬ boundTo gha1 u s td) →
  invalidation gha (destroySessions gha1 ids).
Proof.
  intros (Hurl & Hsecret & Hstore & Hrw & Hro & Hdflt) Hent Hmems Hids.
  destruct (destroySessions_store gha1 ids) as (Hs & Hu & Ht & H1 & H2 & H3 & H4 & H5).
  unfold invalidation, boundTo, teamMember. rewrite Hs, Hu, Ht, Hstore, H1, H2, H3, H4, H5.
  repeat split; try done. exists ids. split; [done|]. exact Hids.
Qed.

Section webhook_more.
Context {order : RangeOrder} {ext : Externals}.

Lemma stealUserSessionIDs_invalidation gha username :
  invalidation gha
    (destroySessions (stealUserSessionIDs gha username).2 (stealUserSessionIDs gha username).1).
Proof.
  destruct (stealUserSessionIDs_maps gha username) as (Hids & _ & Hent & Hmems).
  apply invalidation_destroy.
  - apply stealUserSessionIDs_outside.
  - intros u s td Hb. by apply Hent in Hb as [? _].
  - intros tn x Hm. by apply Hmems in Hm as [? _].
  - intros s [td Hb]%Hids. exists username, td. split; [done|].
    by intros [_ ?]%Hent.
Qed.

Lemma stealUserSessionIDsForOrg_invalidation gha username org :
  invalidation gha
    (destroySessions (stealUserSessionIDsForOrg gha username org).2
                     (stealUserSessionIDsForOrg gha username org).1).
Proof.
  destruct (stealUserSessionIDsForOrg_maps gha username org) as [Hent Hteams].
  apply invalidation_destroy.
  - apply stealUserSessionIDsForOrg_outside.
  - intros u s td Hb. by apply Hent in Hb as [? _].
  - intros tn x Hm. unfold teamMember in *. by rewrite <- Hteams.
  - intros s Hin.
    destruct (userSessionIDs gha !! username) as [m|] eqn:Hl.
    + rewrite (stealUserSessionIDsForOrg_present _ _ _ _ Hl) in Hin. cbn [fst] in Hin.
      apply (elem_of_selected_entries (λ td, td_org td = org ∧ td_team td = None)
               username m (userSessionIDs gha) s Hl) in Hin as (td & Hb & HQ).
      exists username, td. split; [done|]. intros [_ Hnot]%Hent. by apply Hnot.
    + unfold stealUserSessionIDsForOrg in Hin. rewrite Hl in Hin.
      by apply elem_of_nil in Hin.
Qed.

Lemma stealUserSessionIDsForOrgAndTeam_invalidation gha username org team :
  invalidation gha
    (destroySessions (stealUserSessionIDsForOrgAndTeam gha username org team).2
                     (stealUserSessionIDsForOrgAndTeam gha username org team).1).
Proof.
  destruct (stealUserSessionIDsForOrgAndTeam_maps gha username org team)
    as (Hids & _ & Hent & Hmems).
  apply invalidation_destroy.
  - apply stealUserSessionIDsForOrgAndTeam_outside.
  - intros u s td Hb. by apply Hent in Hb as [? _].
  - intros tn x Hm. by apply Hmems in Hm as [? _].
  - intros s (td & Hb & HQ)%Hids. exists username, td. split; [done|].
    intros [_ Hnot]%Hent. by apply Hnot.
Qed.

Lemma stealSessionIDsForOrgAndTeam_invalidation gha org team :
  invalidation gha
    (destroySessions (stealSessionIDsForOrgAndTeam gha org team).2
                     (stealSessionIDsForOrgAndTeam gha org team).1).
Proof.
  destruct (stealSessionIDsForOrgAndTeam_maps gha org team) as (Hids & Hent & Hmems).
  apply invalidation_destroy.
  - apply stealSessionIDsForOrgAndTeam_outside.
  - intros u s td Hb. by apply Hent in Hb as [? _].
  - intros tn x Hm. by apply Hmems in Hm as [? _].
  - intros s (u & td & Hm & Hb & HQ)%Hids. exists u, td. split; [done|].
    intros [_ Hnot]%Hent. by apply Hnot.
Qed.

Lemma membershipAddedLoop_spec gha username org team rwTeams :
  membershipAddedLoop gha username org team rwTeams
  = if decide (makeTeamName org team ∈ rwTeams)
    then destroySessions (stealUserSessionIDs gha username).2
                         (stealUserSessionIDs gha username).1
    else gha.
Proof.
  induction rwTeams as [|rwTeam rwTeams IH]; cbn [membershipAddedLoop].
  - rewrite decide_False; [done|]. apply not_elem_of_nil.
  - cbv zeta. case_bool_decide as Heq.
    + rewrite decide_True by (rewrite Heq; by left).
      by destruct (stealUserSessionIDs gha username).
    + rewrite IH. destruct (decide (makeTeamName org team ∈ rwTeams)) as [Hin|Hnin].
      * rewrite decide_True; [done|]. by right.
      * rewrite decide_False; [done|]. intros [?|?]%elem_of_cons; done.
Qed.

Lemma loginWebhookMembershipEvent_maps gha c payloadReader payload :
  decodeMembership payloadReader = Some payload →
  let username := ghUser_Login (memp_Member payload) in
  let org := ghUser_Login (memp_Org payload) in
  let team := ghTeam_Name (memp_Team payload) in
  loginWebhookMembershipEvent gha c payloadReader
  = (if decide (memp_Scope payload = "team") then
       if decide (memp_Action payload = "added") then
         if decide (makeTeamName org team ∈ readWriteTeams gha)
         then destroySessions (stealUserSessionIDs gha username).2
                              (stealUserSessionIDs gha username).1
         else gha
       else if decide (memp_Action payload = "removed") then
         destroySessions (stealUserSessionIDsForOrgAndTeam gha username org team).2
                         (stealUserSessionIDsForOrgAndTeam gha username org team).1
       else gha
     else gha, c).
Proof.
  intros Hdecode username org team. unfold loginWebhookMembershipEvent.
  rewrite Hdecode. cbv zeta. fold username org team.
  case_bool_decide as Hscope.
  - by rewrite decide_False.
  - rewrite decide_True by done.
    case_bool_decide as Hadded.
    + rewrite decide_True by done. by rewrite membershipAddedLoop_spec.
    + rewrite decide_False by done. case_bool_decide as Hremoved.
      * rewrite decide_True by done.
        by destruct (stealUserSessionIDsForOrgAndTeam gha username org team).
      * by rewrite decide_False.
Qed.

(** X22. A membership event of scope "team": the user added to a team of
    the read-write list loses all sessions, the user added to any other team
    keeps them; the user removed from a team loses the sessions bound to
    that team; every id taken out goes to the session store. An event of
    another scope or action changes nothing, and nothing is replied. *)
Theorem loginWebhookMembershipEvent_spec gha c payloadReader payload :
  decodeMembership payloadReader = Some payload →
  let username := ghUser_Login (memp_Member payload) in
  let org := ghUser_Login (memp_Org payload) in
  let team := ghTeam_Name (memp_Team payload) in
  let run := loginWebhookMembershipEvent gha c payloadReader in
  run.2 = c
  ∧ (memp_Scope payload = "team" → memp_Action payload = "added" →
     makeTeamName org team ∈ readWriteTeams gha →
     run.1 = destroySessions (stealUserSessionIDs gha username).2
                             (stealUserSessionIDs gha username).1)
  ∧ (memp_Scope payload = "team" → memp_Action payload = "added" →
     makeTeamName org team ∉ readWriteTeams gha → run.1 = gha)
  ∧ (memp_Scope payload = "team" → memp_Action payload = "removed" →
     run.1 = destroySessions (stealUserSessionIDsForOrgAndTeam gha username org team).2
                             (stealUserSessionIDsForOrgAndTeam gha username org team).1)
  ∧ (memp_Scope payload ≠ "team"
     ∨ (memp_Action payload ≠ "added" ∧ memp_Action payload ≠ "removed") → run.1 = gha).
Proof.
  intros Hdecode username org team run. subst run.
  rewrite (loginWebhookMembershipEvent_maps _ _ _ _ Hdecode). cbv zeta.
  fold username org team. cbn [fst snd].
  split; [done|]. split; [|split; [|split]].
  - intros Hscope Hadded Hin. repeat case_decide; congruence.
  - intros Hscope Hadded Hnin. repeat case_decide; congruence.
  - intros Hscope Hremoved. repeat case_decide; congruence.
  - intros [Hscope|[Hadded Hremoved]]; repeat case_decide; congruence.
Qed.

Lemma loginWebhook_dispatch gha c body :
  Body (request c) = Some body →
  sliceFrom 5 (HeaderGet c "X-Hub-Signature")
    = Returned (hmacSHA1Hex (webhookSecret gha) body) →
  loginWebhook gha c = Returned (dispatchEvent (HeaderGet c "X-Github-Event") gha c body).
Proof.
  intros Hbody Hsig. unfold loginWebhook, dispatchEvent. cbv zeta.
  rewrite bool_decide_eq_false_2.
  2:{ apply sliceFrom_Returned_length in Hsig. lia. }
  rewrite Hbody, Hsig. rewrite bool_decide_eq_true_2 by done. cbn [negb].
  by repeat case_bool_decide.
Qed.

(** X20. A request without signature, or whose body cannot be read, or
    whose signature after its first five bytes differs from the MAC of the
    body, is dropped: authenticator and context are those of before, and no
    payload is decoded. *)
Theorem loginWebhook_unverified gha c :
  HeaderGet c "X-Hub-Signature" = ""
  ∨ Body (request c) = None
  ∨ (∃ body s, Body (request c) = Some body
               ∧ sliceFrom 5 (HeaderGet c "X-Hub-Signature") = Returned s
               ∧ s ≠ hmacSHA1Hex (webhookSecret gha) body) →
  loginWebhook gha c = Returned (gha, c).
Proof.
  intros Hcase. unfold loginWebhook. cbv zeta.
  destruct Hcase as [Hsig|[Hbody|(body & s & Hbody & Hsig & Hne)]].
  - rewrite Hsig. by rewrite bool_decide_eq_true_2.
  - rewrite Hbody. by case_bool_decide.
  - rewrite Hbody, Hsig. case_bool_decide; [done|].
    by rewrite bool_decide_eq_false_2.
Qed.

(** X21. The first five bytes of the signature are not looked at: with any
    five bytes before the MAC of the body the request is verified and its
    payload goes to the handler of its event type, or is dropped when the
    type is none of the four. *)
Theorem loginWebhook_any_prefix gha c body prefix :
  String.length prefix = 5%nat →
  HeaderGet c "X-Hub-Signature" = prefix +:+ hmacSHA1Hex (webhookSecret gha) body →
  Body (request c) = Some body →
  loginWebhook gha c = Returned (dispatchEvent (HeaderGet c "X-Github-Event") gha c body)
  ∧ (HeaderGet c "X-Github-Event" ∉ ["github_app_authorization"; "organization";
                                      "membership"; "team"] →
     loginWebhook gha c = Returned (gha, c)).
Proof.
  intros Hlen Hsig Hbody.
  assert (loginWebhook gha c
          = Returned (dispatchEvent (HeaderGet c "X-Github-Event") gha c body)) as Hrun.
  { apply loginWebhook_dispatch; [done|]. rewrite Hsig, <- Hlen. apply sliceFrom_app. }
  split; [done|]. intros Hother. rewrite Hrun. unfold dispatchEvent.
  repeat case_bool_decide; try done; exfalso; apply Hother; set_solver.
Qed.

(** X23. A verified event of one of the four types whose payload does not
    decode is answered 400 and changes nothing in the authenticator. *)
Theorem loginWebhook_malformed_payload gha c body :
  Body (request c) = Some body →
  sliceFrom 5 (HeaderGet c "X-Hub-Signature")
    = Returned (hmacSHA1Hex (webhookSecret gha) body) →
  (HeaderGet c "X-Github-Event" = "github_app_authorization" ∧ decodeAppAuth body = None)
  ∨ (HeaderGet c "X-Github-Event" = "organization" ∧ decodeOrganization body = None)
  ∨ (HeaderGet c "X-Github-Event" = "membership" ∧ decodeMembership body = None)
  ∨ (HeaderGet c "X-Github-Event" = "team" ∧ decodeTeam body = None) →
  loginWebhook gha c = Returned (gha, httpError c StatusBadRequest).
Proof.
  intros Hbody Hsig Hcase. rewrite (loginWebhook_dispatch _ _ _ Hbody Hsig).
  unfold dispatchEvent.
  destruct Hcase as [[-> Hd]|[[-> Hd]|[[-> Hd]|[-> Hd]]]];
    repeat case_bool_decide; try done.
  - unfold loginWebhookAuthorizationEvent. by rewrite Hd.
  - unfold loginWebhookOrganizationEvent. by rewrite Hd.
  - unfold loginWebhookMembershipEvent. by rewrite Hd.
  - unfold loginWebhookTeamEvent. by rewrite Hd.
Qed.

Lemma dispatchEvent_invalidation eventType gha c body gha' c' :
  dispatchEvent eventType gha c body = (gha', c') →
  invalidation gha gha' ∧ (c' = c ∨ c' = httpError c StatusBadRequest).
Proof.
  unfold dispatchEvent. repeat case_bool_decide.
  - unfold loginWebhookAuthorizationEvent.
    destruct (decodeAppAuth body) as [payload|].
    2:{ intros [= <- <-]. split; [apply invalidation_refl | by right]. }
    case_bool_decide.
    { intros [= <- <-]. split; [apply invalidation_refl | by left]. }
    cbv zeta.
    pose proof (stealUserSessionIDs_invalidation gha
                  (ghUser_Login (appauth_Sender payload))) as Hinv.
    destruct (stealUserSessionIDs gha _) as [ids gha1].
    intros [= <- <-]. split; [done | by left].
  - unfold loginWebhookOrganizationEvent.
    destruct (decodeOrganization body) as [payload|].
    2:{ intros [= <- <-]. split; [apply invalidation_refl | by right]. }
    case_bool_decide.
    { intros [= <- <-]. split; [apply invalidation_refl | by left]. }
    cbv zeta.
    pose proof (stealUserSessionIDsForOrg_invalidation gha
                  (ghUser_Login (membership_User (orgp_Membership payload)))
                  (ghUser_Login (orgp_Org payload))) as Hinv.
    destruct (stealUserSessionIDsForOrg gha _ _) as [ids gha1].
    intros [= <- <-]. split; [done | by left].
  - destruct (decodeMembership body) as [payload|] eqn:Hd.
    2:{ unfold loginWebhookMembershipEvent. rewrite Hd.
        intros [= <- <-]. split; [apply invalidation_refl | by right]. }
    rewrite (loginWebhookMembershipEvent_maps _ _ _ _ Hd). cbv zeta.
    intros [= <- <-]. split; [|by left].
    repeat case_decide; try apply invalidation_refl.
    + apply stealUserSessionIDs_invalidation.
    + apply stealUserSessionIDsForOrgAndTeam_invalidation.
  - unfold loginWebhookTeamEvent.
    destruct (decodeTeam body) as [payload|].
    2:{ intros [= <- <-]. split; [apply invalidation_refl | by right]. }
    cbv zeta.
    assert (∀ team,
              (let '(sessionIDs, gha0) :=
                 stealSessionIDsForOrgAndTeam gha (ghUser_Login (teamp_Org payload)) team in
               (destroySessions gha0 sessionIDs, c)) = (gha', c') →
              invalidation gha gha' ∧ (c' = c ∨ c' = httpError c StatusBadRequest)) as Hsteal.
    { intros team.
      pose proof (stealSessionIDsForOrgAndTeam_invalidation gha
                    (ghUser_Login (teamp_Org payload)) team) as Hinv.
      destruct (stealSessionIDsForOrgAndTeam gha _ team) as [ids gha1].
      intros [= <- <-]. split; [done | by left]. }
    repeat case_bool_decide; try apply Hsteal;
      intros [= <- <-]; (split; [apply invalidation_refl | by left]).
  - intros [= <- <-]. split; [apply invalidation_refl | by left].
Qed.

(** X24. Whatever a webhook request brings, if [loginWebhook] returns, it
    added no entry and no team member to the index, every id it handed to
    the session store is the id of a session the index held and no longer
    holds, the configuration is unchanged, and the reply is nothing or a
    single 400. *)
Theorem loginWebhook_only_invalidates gha c gha' c' :
  loginWebhook gha c = Returned (gha', c') →
  invalidation gha gha' ∧ (c' = c ∨ c' = httpError c StatusBadRequest).
Proof.
  unfold loginWebhook. cbv zeta.
  case_bool_decide.
  { intros [= <- <-]. split; [apply invalidation_refl | by left]. }
  destruct (Body (request c)) as [body|].
  2:{ intros [= <- <-]. split; [apply invalidation_refl | by left]. }
  destruct (sliceFrom 5 _) as [sig|]; [|done].
  destruct (negb _).
  { intros [= <- <-]. split; [apply invalidation_refl | by left]. }
  intros Hrun.
  apply (dispatchEvent_invalidation (HeaderGet c "X-Github-Event") gha c body).
  unfold dispatchEvent.
  repeat (destruct (bool_decide _); [congruence|]). congruence.
Qed.
End webhook_more.

(** * The added theorems at work *)

Lemma exampleIndex_noEmpty : noEmptyCollection exampleIndex.
Proof.
  unfold exampleIndex. do 2 apply addSessionID_noEmpty.
  apply NewGithubAuthenticator_noEmpty.
Qed.

Lemma exampleIndex_sessionsInTeams : sessionsInTeams exampleIndex.
Proof.
  unfold exampleIndex. do 2 apply addSessionID_sessionsInTeams.
  apply NewGithubAuthenticator_consistent.
Qed.

Lemma exampleAuth_unbound username sessionID td : ¬ boundTo exampleAuth username sessionID td.
Proof. intros (m & Hm & _). cbn in Hm. by rewrite lookup_empty in Hm. Qed.

Lemma exampleIndex_teamsInSessions : teamsInSessions exampleIndex.
Proof.
  unfold exampleIndex. apply addSessionID_fresh_teamsInSessions.
  - intros td Hb.
    apply (addSessionID_maps exampleAuth "alice" "sess1") in Hb as [(? & _)|[Hb _]]; [done|].
    by apply exampleAuth_unbound in Hb.
  - apply addSessionID_fresh_teamsInSessions; [apply exampleAuth_unbound|].
    apply NewGithubAuthenticator_consistent.
Qed.

Lemma exampleIndex_slashFree : slashFreeOrgs exampleIndex.
Proof.
  apply (runOps_slashFree (order := canonicalOrder)
           [OpAddSessionID "alice" "sess1" {| td_org := "acme"; td_team := Some "infra" |};
            OpAddSessionID "bob" "sess2" {| td_org := "acme"; td_team := None |}] exampleAuth).
  - repeat constructor; done.
  - intros u s td Hb. by apply exampleAuth_unbound in Hb.
Qed.

Lemma cleanup_after_add_witness :
  (∀ td, ¬ boundTo exampleIndex "carol" "sess3" td)
  ∧ cleanupSessionLocked
      (addSessionID exampleIndex "carol" "sess3" {| td_org := "acme"; td_team := Some "infra" |})
      "carol" "sess3"
    = exampleIndex.
Proof.
  assert (∀ td, ¬ boundTo exampleIndex "carol" "sess3" td) as Hfresh.
  { intros td (m & Hm & _). by vm_compute in Hm. }
  split; [exact Hfresh|].
  apply (cleanup_after_add exampleIndex "carol" "sess3"
           {| td_org := "acme"; td_team := Some "infra" |}).
  - apply exampleIndex_noEmpty.
  - exact Hfresh.
  - assert (teamToUsers exampleIndex !! "acme/infra" = Some {["alice"]}) as Hset
      by (vm_compute; reflexivity).
    intros tn [= <-] (s & Hs & Hin).
    change (teamToUsers exampleIndex !! "acme/infra" = Some s) in Hs.
    rewrite Hset in Hs. injection Hs as <-.
    apply elem_of_singleton in Hin. discriminate.
Defined.

Lemma makeTeamName_key_witness :
  slashFree "acme"
  ∧ (makeTeamName "acme" "infra" = makeTeamName "acme" "ops"
     ↔ "acme" = "acme" ∧ "infra" = "ops").
Proof.
  assert (slashFree "acme") as Hfree by (cbn; repeat split; discriminate).
  split; [exact Hfree|].
  apply (makeTeamName_key "acme" "infra" "acme" "ops" Hfree Hfree).
Defined.

(** With "/" in an organization's name two pairs share a key. *)
Example makeTeamName_collision :
  makeTeamName "a/b" "c" = makeTeamName "a" "b/c" ∧ ¬ slashFree "a/b".
Proof. split; [done|]. cbn. by intros (_ & ? & _). Qed.

Lemma removals_keep_teams_in_sessions_witness :
  let ops := [OpCleanupSession "alice" "sess1"; OpStealUserOrg "bob" "acme"] in
  teamsInSessions exampleIndex
  ∧ teamsInSessions (runOps (order := canonicalOrder) ops exampleIndex)
  ∧ runOps (order := canonicalOrder) ops exampleIndex = exampleAuth.
Proof.
  intros ops. split; [apply exampleIndex_teamsInSessions|]. split.
  - apply (removals_keep_teams_in_sessions (order := canonicalOrder) ops exampleIndex).
    + repeat constructor.
    + apply exampleIndex_teamsInSessions.
  - by vm_compute.
Defined.

Lemma addSessionID_fresh_consistent_witness :
  (∀ td, ¬ boundTo exampleAuth "alice" "sess1" td)
  ∧ indexConsistent
      (addSessionID exampleAuth "alice" "sess1" {| td_org := "acme"; td_team := Some "infra" |}).
Proof.
  split; [intros td; apply exampleAuth_unbound|].
  apply (addSessionID_fresh_consistent exampleAuth "alice" "sess1").
  - intros td. apply exampleAuth_unbound.
  - apply NewGithubAuthenticator_consistent.
Defined.

Lemma inserts_and_queries_keep_sessions_in_teams_witness :
  let ops := [OpAddSessionID "alice" "sess4" {| td_org := "acme"; td_team := Some "ops" |};
              OpStealOrgTeam "acme" "infra";
              OpStealUserOrgTeam "alice" "acme" "ops"] in
  slashFreeOrgs exampleIndex
  ∧ sessionsInTeams exampleIndex
  ∧ sessionsInTeams (runOps (order := canonicalOrder) ops exampleIndex).
Proof.
  intros ops. split; [apply exampleIndex_slashFree|].
  split; [apply exampleIndex_sessionsInTeams|].
  apply (inserts_and_queries_keep_sessions_in_teams (order := canonicalOrder) ops exampleIndex).
  - repeat constructor.
  - repeat constructor; cbn; repeat split; discriminate.
  - apply exampleIndex_slashFree.
  - apply exampleIndex_sessionsInTeams.
Defined.

Lemma stealSessionIDsForOrgAndTeam_complete_witness :
  let td := {| td_org := "acme"; td_team := Some "infra" |} in
  boundTo exampleIndex "alice" "sess1" td
  ∧ "sess1" ∈ (stealSessionIDsForOrgAndTeam (order := canonicalOrder) exampleIndex
                 "acme" "infra").1
  ∧ ¬ boundTo (stealSessionIDsForOrgAndTeam (order := canonicalOrder) exampleIndex
                 "acme" "infra").2 "alice" "sess1" td.
Proof.
  intros td.
  assert (boundTo exampleIndex "alice" "sess1" td) as Hb.
  { eexists. split; [by vm_compute|]. by vm_compute. }
  split; [exact Hb|].
  apply (stealSessionIDsForOrgAndTeam_complete (order := canonicalOrder) exampleIndex
           "acme" "infra" "alice" "sess1" td).
  - apply exampleIndex_sessionsInTeams.
  - exact Hb.
  - by split.
Defined.

Lemma doLoginDance_success_witness :
  let client := providerFor (Some "carol") [[namedTeam "acme" "readers"]] [[namedOrg "other"]] in
  let ext := payloadExternals client false None None None None in
  let c := exampleContext (exampleRequest "GET" ∅ ∅ None) "sess5" ∅ in
  ∃ gha' c',
    doLoginDance (ext := ext) 3 exampleAuth c "token" = Some (gha', c', false)
    ∧ SessionGet (session c') "teamID" = Some "default-team"
    ∧ SessionGet (session c') "username" = Some "carol"
    ∧ levelJustified exampleAuth client (session c')
    ∧ replies c' = [AbortWithStatus 500].
Proof.
  intros client ext c. do 2 eexists. split; [vm_compute; reflexivity|].
  edestruct (doLoginDance_success (ext := ext) 3 exampleAuth c "token")
    as (client' & ghUser & username & td & Hclient & Huser & Hlogin & _ & HteamID
        & Hname & Hlevel & _ & _ & Hreplies).
  { vm_compute. reflexivity. }
  injection Hclient as <-. injection Huser as <-. injection Hlogin as <-.
  split; [exact HteamID|]. split; [exact Hname|]. split; [exact Hlevel|].
  exact Hreplies.
Defined.

Lemma doLoginDance_failure_witness :
  let client := providerFor (Some "dave") [[namedTeam "acme" "other"]] [[namedOrg "other"]] in
  let ext := exampleExternals client None in
  let c := exampleContext (exampleRequest "GET" ∅ ∅ None) "sess6" ∅ in
  ∃ gha' c',
    doLoginDance (ext := ext) 3 exampleAuth c "token" = Some (gha', c', true)
    ∧ replies c' = [AbortWithStatus 401]
    ∧ sess_ID (session c') = "sess6".
Proof.
  intros client ext c. do 2 eexists. split; [vm_compute; reflexivity|].
  edestruct (doLoginDance_failure (ext := ext) 3 exampleAuth c "token")
    as ([(Hreplies & _ & _)|(Hreplies & _ & _)] & Hid & _).
  { vm_compute. reflexivity. }
  - split; [exact Hreplies | exact Hid].
  - discriminate Hreplies.
Defined.

Lemma pagedList_page {A : Type} (pages : list (list A)) listOpts page response :
  pagedList pages listOpts = Some (page, response) → page ∈ pages.
Proof.
  unfold pagedList.
  destruct (pages !! Z.to_nat (Page listOpts - 1)) as [p|] eqn:Hp; [|done].
  intros [= <- _]. by eapply list_elem_of_lookup_2.
Qed.

Lemma unlisted_caller_refused_witness :
  let client := providerFor (Some "dave") [[namedTeam "acme" "other"]] [[namedOrg "other"]] in
  let ext := exampleExternals client None in
  let c := exampleContext (exampleRequest "GET" ∅ ∅ None) "sess6" ∅ in
  ¬ listedIn client (readOnlyTeams exampleAuth)
  ∧ ¬ listedIn client (readWriteTeams exampleAuth)
  ∧ ∀ fuel gha' c', doLoginDance (ext := ext) fuel exampleAuth c "token" ≠ Some (gha', c', false).
Proof.
  intros client ext c.
  assert (∀ names, "acme/other" ∉ names → "other" ∉ names → ¬ listedIn client names)
    as Hunlisted.
  { intros names Hteam Horg
      [(lo & ts & r & t & o & n & l & Hp & Hin & Hn & Ho & Hl & Hname)
      |(lo & os & r & o & l & Hp & Hin & Hl & Hname)].
    - apply pagedList_page in Hp. apply list_elem_of_singleton in Hp. subst ts.
      apply list_elem_of_singleton in Hin. subst t.
      cbn in Hn, Ho. injection Hn as <-. injection Ho as <-.
      cbn in Hl. injection Hl as <-. by apply Hteam.
    - apply pagedList_page in Hp. apply list_elem_of_singleton in Hp. subst os.
      apply list_elem_of_singleton in Hin. subst o.
      cbn in Hl. injection Hl as <-. by apply Horg. }
  assert (¬ listedIn client (readOnlyTeams exampleAuth)) as Hro.
  { apply Hunlisted; cbn; intros Hin; repeat (apply elem_of_cons in Hin as [?|Hin]; [done|]);
      by apply elem_of_nil in Hin. }
  assert (¬ listedIn client (readWriteTeams exampleAuth)) as Hrw.
  { apply Hunlisted; cbn; intros Hin; repeat (apply elem_of_cons in Hin as [?|Hin]; [done|]);
      by apply elem_of_nil in Hin. }
  split; [exact Hro|]. split; [exact Hrw|].
  intros fuel.
  apply (unlisted_caller_refused (ext := ext) fuel exampleAuth c "token" client).
  - reflexivity.
  - exact Hro.
  - exact Hrw.
Defined.

Lemma Authenticate_with_tier_witness :
  let ext := exampleExternals (providerFor None [] []) None in
  let c := exampleContext (exampleRequest "POST" ∅ ∅ None) "sess7"
             {["teamID" := "default-team"; "accesslevel" := "ro"; "username" := "carol"]} in
  SessionGet (session c) "teamID" = Some "default-team"
  ∧ Authenticate (ext := ext) 1 exampleIndex c
    = Some (exampleIndex, httpError c StatusForbidden, ("", true)).
Proof.
  intros ext c. split; [by vm_compute|].
  rewrite (Authenticate_with_tier (ext := ext) 1 exampleIndex c "default-team").
  - by vm_compute.
  - by vm_compute.
Defined.

Lemma Authenticate_redirects_witness :
  let ext := exampleExternals (providerFor None [] []) None in
  let c := exampleContext (exampleRequest "GET" ∅ ∅ None) "sess8" ∅ in
  HeaderGet c "Authorization" = ""
  ∧ ∃ c', Authenticate (ext := ext) 1 exampleAuth c = Some (exampleAuth, c', ("", true))
          ∧ SessionGet (session c') "state" = Some "q8Zr"
          ∧ last (replies c')
            = Some (Redirect 307 "https://github.com/login/oauth/authorize?state=q8Zr").
Proof.
  intros ext c. split; [by vm_compute|].
  destruct (Authenticate_redirects (ext := ext) 1 exampleAuth c)
    as (c' & Hrun & Hstate & _ & _ & Hlast).
  - by vm_compute.
  - by vm_compute.
  - exists c'. split; [exact Hrun|]. split; [exact Hstate | exact Hlast].
Defined.


Lemma loginCb_not_ready_witness :
  let ext := exampleExternals (providerFor None [] []) None in
  let c := exampleContext (exampleRequest "GET" ∅ {["state" := "q8Zr"; "code" := "4f1c"]} None)
             "sess10" ∅ in
  (∀ desiredURL token, ¬ callbackReady (H := ext) c desiredURL token)
  ∧ loginCb (ext := ext) 1 exampleIndex c
    = Some (exampleIndex,
            {| request := request c; session := SessionMark (session c);
               replies := [AbortWithStatus 500] |}).
Proof.
  intros ext c.
  assert (∀ desiredURL token, ¬ callbackReady (H := ext) c desiredURL token) as Hnot.
  { intros desiredURL token (Hurl & _). by vm_compute in Hurl. }
  split; [exact Hnot|].
  rewrite (loginCb_not_ready (ext := ext) 1 exampleIndex c Hnot). by vm_compute.
Defined.

Lemma loginCb_ready_witness :
  let client := providerFor (Some "carol") [[namedTeam "acme" "admins"]] [] in
  let ext := exampleExternals client None in
  let c := exampleContext (exampleRequest "GET" ∅ {["state" := "q8Zr"; "code" := "4f1c"]} None)
             "sess11" {["state" := "q8Zr"; "desiredurl" := "/apps"]} in
  callbackReady (H := ext) c "/apps" {| AccessToken := "4f1c"; Valid := true |}
  ∧ ∃ gha' c',
      loginCb (ext := ext) 2 exampleAuth c = Some (gha', c')
      ∧ replies c' = [Redirect 307 "/apps"]
      ∧ userSessionIDs gha' !! "carol"
        = Some {["sess11" := {| td_org := "acme"; td_team := Some "admins" |}]}.
Proof.
  intros client ext c.
  assert (callbackReady (H := ext) c "/apps" {| AccessToken := "4f1c"; Valid := true |})
    as Hready by (by vm_compute).
  split; [exact Hready|]. do 2 eexists. split.
  - eapply (loginCb_ready (ext := ext) 2 exampleAuth c "/apps"
              {| AccessToken := "4f1c"; Valid := true |} _ _ false Hready).
    vm_compute. reflexivity.
  - split; by vm_compute.
Defined.

Lemma loginWebhook_unverified_witness :
  let ext := exampleExternals (providerFor None [] [])
               (Some {| teamp_Action := "deleted";
                        teamp_Changes := {| changes_Name := {| From := "" |} |};
                        teamp_Team := {| ghTeam_Name := "infra" |};
                        teamp_Org := {| ghUser_Login := "acme" |} |}) in
  let c := exampleContext
             (exampleRequest "POST"
                {["X-Hub-Signature" := "sha1=0000000000000000000000000000000000000000";
                  "X-Github-Event" := "team"]} ∅ (Some "{...}"))
             "" ∅ in
  "0000000000000000000000000000000000000000"
    ≠ hmacSHA1Hex (Externals := ext) (webhookSecret exampleIndex) "{...}"
  ∧ loginWebhook (order := canonicalOrder) (ext := ext) exampleIndex c
    = Returned (exampleIndex, c).
Proof.
  intros ext c. split; [by vm_compute|].
  apply (loginWebhook_unverified (order := canonicalOrder) (ext := ext) exampleIndex c).
  right; right. exists "{...}", "0000000000000000000000000000000000000000".
  split; [reflexivity|]. split; by vm_compute.
Defined.

Lemma loginWebhook_any_prefix_witness :
  let payload := {| appauth_Action := "revoked";
                    appauth_Sender := {| ghUser_Login := "alice" |} |} in
  let ext := payloadExternals (providerFor None [] []) true (Some payload) None None None in
  let c := exampleContext
             (exampleRequest "POST"
                {["X-Hub-Signature" := "zzzzza94a8fe5ccb19ba61c4c0873d391e987982fbbd3";
                  "X-Github-Event" := "github_app_authorization"]} ∅ (Some "{...}"))
             "" ∅ in
  String.length "zzzzz" = 5%nat
  ∧ ∃ gha',
      loginWebhook (order := canonicalOrder) (ext := ext) exampleIndex c = Returned (gha', c)
      ∧ sessionsStore gha' = ["sess1"]
      ∧ userSessionIDs gha' !! "alice" = None.
Proof.
  intros payload ext c. split; [reflexivity|].
  destruct (loginWebhook_any_prefix (order := canonicalOrder) (ext := ext)
              exampleIndex c "{...}" "zzzzz") as [-> _].
  - reflexivity.
  - by vm_compute.
  - reflexivity.
  - eexists. split; [vm_compute; reflexivity|]. split; by vm_compute.
Defined.

Lemma loginWebhookMembershipEvent_spec_witness :
  let payload := {| memp_Action := "added"; memp_Scope := "team";
                    memp_Member := {| ghUser_Login := "bob" |};
                    memp_Team := {| ghTeam_Name := "admins" |};
                    memp_Org := {| ghUser_Login := "acme" |} |} in
  let ext := payloadExternals (providerFor None [] []) true None None (Some payload) None in
  let c := exampleContext (exampleRequest "POST" ∅ ∅ (Some "{...}")) "" ∅ in
  makeTeamName "acme" "admins" ∈ readWriteTeams exampleIndex
  ∧ (loginWebhookMembershipEvent (order := canonicalOrder) (ext := ext)
       exampleIndex c "{...}").1
    = destroySessions (stealUserSessionIDs (order := canonicalOrder) exampleIndex "bob").2
                      (stealUserSessionIDs (order := canonicalOrder) exampleIndex "bob").1
  ∧ sessionsStore
      (loginWebhookMembershipEvent (order := canonicalOrder) (ext := ext)
         exampleIndex c "{...}").1 = ["sess2"].
Proof.
  intros payload ext c.
  assert (makeTeamName "acme" "admins" ∈ readWriteTeams exampleIndex) as Hin by (by left).
  split; [exact Hin|]. split; [|by vm_compute].
  destruct (loginWebhookMembershipEvent_spec (order := canonicalOrder) (ext := ext)
              exampleIndex c "{...}" payload) as (_ & Hadded & _).
  - reflexivity.
  - apply Hadded; [reflexivity | reflexivity | exact Hin].
Defined.

Lemma loginWebhook_malformed_payload_witness :
  let ext := exampleExternals (providerFor None [] []) None in
  let c := exampleContext
             (exampleRequest "POST"
                {["X-Hub-Signature" := "sha1=a94a8fe5ccb19ba61c4c0873d391e987982fbbd3";
                  "X-Github-Event" := "organization"]} ∅ (Some "{"))
             "" ∅ in
  decodeOrganization (Externals := ext) "{" = None
  ∧ loginWebhook (order := canonicalOrder) (ext := ext) exampleIndex c
    = Returned (exampleIndex, httpError c StatusBadRequest).
Proof.
  intros ext c. split; [reflexivity|].
  apply (loginWebhook_malformed_payload (order := canonicalOrder) (ext := ext)
           exampleIndex c "{").
  - reflexivity.
  - by vm_compute.
  - right; left. split; [by vm_compute | reflexivity].
Defined.

Lemma loginWebhook_only_invalidates_witness :
  let payload := {| teamp_Action := "deleted";
                    teamp_Changes := {| changes_Name := {| From := "" |} |};
                    teamp_Team := {| ghTeam_Name := "infra" |};
                    teamp_Org := {| ghUser_Login := "acme" |} |} in
  let ext := exampleExternals (providerFor None [] []) (Some payload) in
  let c := exampleContext
             (exampleRequest "POST"
                {["X-Hub-Signature" := "sha1=a94a8fe5ccb19ba61c4c0873d391e987982fbbd3";
                  "X-Github-Event" := "team"]} ∅ (Some "{...}"))
             "" ∅ in
  ∃ gha',
    loginWebhook (order := canonicalOrder) (ext := ext) exampleIndex c = Returned (gha', c)
    ∧ sessionsStore gha' = ["sess1"]
    ∧ invalidation exampleIndex gha'.
Proof.
  intros payload ext c. eexists. split; [vm_compute; reflexivity|].
  split; [by vm_compute|].
  edestruct (loginWebhook_only_invalidates (order := canonicalOrder) (ext := ext)
               exampleIndex c) as [Hinv _].
  { vm_compute. reflexivity. }
  exact Hinv.
Defined.
